(** * Sketch it!  The turn/round state machine, its countdown, the hint
    reveal and the scoring step, embedded from the two App components.

    The repository holds two variants of the top-level React component:
    - [App]   : src/App.tsx with src/types.ts (HOME / PLAYING / GAME_OVER
                with a sub-phase, word banks, skip turn);
    - [Lobby] : the LOBBY-based component (src/unnamed/part_000 with the
                types of src/unnamed/part_001).

    A component is modelled by the record of its [useState]/[useRef]
    cells; every handler is a function on that record; the rendered
    screen decides which handler an event can reach ([dispatch]).  A
    handler that would throw a TypeError (indexing [players] out of
    range) returns [None]. *)

From stdpp Require Import base decidable option numbers list strings pretty gmap.
From Stdlib Require Import QArith.QArith QArith.Qround.
From Stdlib Require Import Ascii.

(** ** Values shared by both variants *)

(** [interface Player] (identical in both type files). *)
Record Player := mkPlayer { id : string; name : string; score : Z }.

(** The element type of [GameState.history]. *)
Module History.
Record Entry := mkEntry
  { playerName : string; word : string; wasCorrect : bool; winners : list string }.
End History.

Definition with_score (v : Z) (p : Player) : Player :=
  {| id := id p; name := name p; score := v |}.

Definition DEFAULT_TIME : Z := 60.
Definition MAX_ROUNDS : Z := 5.
Definition SPEED_BONUS_THRESHOLD : Z := 30.

(** [Math.random()] yields a Number, a binary64 value, in [0,1).  Such a
    value is [mant / 2 ^ scale] for an integer [mant] of at most 53 bits
    and a [scale] of at most 1074, and every such fraction below 1 is
    one. *)
Record Draw := mkDraw { mant : Z; scale : Z }.

Definition unit_draw (r : Draw) : Prop :=
  (0 ≤ mant r < 2 ^ 53)%Z ∧ (0 ≤ scale r ≤ 1074)%Z ∧ (mant r < 2 ^ scale r)%Z.

#[global] Instance unit_draw_dec r : Decision (unit_draw r).
Proof. unfold unit_draw. apply _. Defined.

(** The value of a draw as a fraction. *)
Definition value (r : Draw) : Q := Qmake (mant r) (Z.to_pos (2 ^ scale r)).

(** [m / 2 ^ s] rounded to the nearest integer, a tie to the even one:
    the rounding of binary64 arithmetic. *)
Definition roundShift (m s : Z) : Z :=
  let q := (m `div` 2 ^ s)%Z in
  let rest := (m `mod` 2 ^ s)%Z in
  if bool_decide (2 * rest < 2 ^ s)%Z then q
  else if bool_decide (2 ^ s < 2 * rest)%Z then (q + 1)%Z
  else if Z.even q then q else (q + 1)%Z.

(** [Math.floor(Math.random() * arr.length)].  The length of an array
    is an integer below 2^32, itself a binary64 value.  The binary64
    product is the exact one, [mant * len / 2 ^ scale], with the
    numerator [mant * len] rounded to its 53 leading bits, to nearest
    and ties to even: a numerator below 2^53 is kept as it is, and where
    bits are dropped the result is above the subnormal range, [scale]
    being at most 1074.  [Math.floor] is exact. *)
Definition random_index (r : Draw) (len : nat) : nat :=
  let p := (mant r * Z.of_nat len)%Z in
  let s := Z.max 0 (Z.log2 p - 52) in
  Z.to_nat (Z.shiftr (roundShift p s) (scale r - s)).

(** [arr[Math.floor(Math.random() * arr.length)]]; the result is [None]
    where JavaScript yields [undefined]. *)
Definition rnd {A} (r : Draw) (arr : list A) : option A :=
  arr !! random_index r (length arr).

(** The three draws one turn setup consumes, in evaluation order. *)
Record Draws := mkDraws { draw_easy : Draw; draw_medium : Draw; draw_hard : Draw }.

Definition unit_draws (d : Draws) : Prop :=
  unit_draw (draw_easy d) ∧ unit_draw (draw_medium d) ∧ unit_draw (draw_hard d).

#[global] Instance unit_draws_dec d : Decision (unit_draws d).
Proof. unfold unit_draws. apply _. Defined.

(** One cell of the hint row rendered above the canvas: the gap drawn for
    a space, a revealed letter with the text it shows
    ([char.toUpperCase()], as UTF-16 code units), or a hidden slot (an
    underscore in transparent ink). *)
Inductive HintCell := Gap | Revealed (text : list N) | Hidden.

(** The code units of a string of the model. *)
Definition codeUnits (s : string) : list N :=
  N_of_ascii <$> String.list_ascii_of_string s.

(** [char.toUpperCase()] for a code unit below 256.  The letters a to z,
    and U+00E0 to U+00FE but for the division sign, move down by 32;
    U+00B5 (micro sign) gives U+039C, U+00FF gives U+0178 and U+00DF
    (sharp s) gives the two units of SS; every other unit stays. *)
Definition toUpperCase (ch : ascii) : list N :=
  let n := N_of_ascii ch in
  if bool_decide ((97 ≤ n ≤ 122) ∨ (224 ≤ n ≤ 246) ∨ (248 ≤ n ≤ 254))%N
  then [(n - 32)%N]
  else if bool_decide (n = 181%N) then [924%N]
  else if bool_decide (n = 223%N) then [83%N; 83%N]
  else if bool_decide (n = 255%N) then [376%N]
  else [n].

Definition space : ascii := " "%char.

#[global] Instance HintCell_eq_dec : EqDecision HintCell.
Proof. solve_decision. Defined.

(** ** src/App.tsx with src/types.ts *)
Module App.

Inductive GamePhase := HOME | PLAYING | GAME_OVER.

Inductive PlayingSubPhase :=
| GETTING_PROMPTS | PRE_TURN | CHOOSE_PROMPT | DRAWING
| CONFIRM_SCORE | POST_TURN | ROUND_LEADERBOARD.

Inductive Difficulty := easy | medium | hard | custom.

(** [wordSource: 'ai' | 'custom'] *)
Inductive WordSource := src_ai | src_custom.

#[global] Instance GamePhase_eq_dec : EqDecision GamePhase.
Proof. solve_decision. Defined.
#[global] Instance PlayingSubPhase_eq_dec : EqDecision PlayingSubPhase.
Proof. solve_decision. Defined.
#[global] Instance Difficulty_eq_dec : EqDecision Difficulty.
Proof. solve_decision. Defined.
#[global] Instance WordSource_eq_dec : EqDecision WordSource.
Proof. solve_decision. Defined.

Record Prompt := mkPrompt
  { word : string; category : string; difficulty : Difficulty }.

(** [interface WordSet]; the fields carry a prefix because [id], [name]
    and the difficulty names are taken. *)
Record WordSet := mkWordSet
  { ws_id : string; ws_name : string;
    ws_easy : list string; ws_medium : list string; ws_hard : list string }.

(** [interface GameState].  An entry of [promptChoices] is [None] where
    the array holds [undefined] (a draw from an empty pool). *)
Record GameState := mkGameState
  { phase : GamePhase;
    subPhase : option PlayingSubPhase;
    players : list Player;
    currentPlayerIndex : nat;
    currentPrompt : option Prompt;
    promptChoices : list (option Prompt);
    timer : Z;
    rounds : Z;
    maxRounds : Z;
    wordSource : WordSource;
    history : list History.Entry }.

(** Spread updates [{ ...prev, field: v }]. *)
Definition set_phase v g := mkGameState v (subPhase g) (players g)
  (currentPlayerIndex g) (currentPrompt g) (promptChoices g) (timer g)
  (rounds g) (maxRounds g) (wordSource g) (history g).
Definition set_subPhase v g := mkGameState (phase g) v (players g)
  (currentPlayerIndex g) (currentPrompt g) (promptChoices g) (timer g)
  (rounds g) (maxRounds g) (wordSource g) (history g).
Definition set_players v g := mkGameState (phase g) (subPhase g) v
  (currentPlayerIndex g) (currentPrompt g) (promptChoices g) (timer g)
  (rounds g) (maxRounds g) (wordSource g) (history g).
Definition set_currentPrompt v g := mkGameState (phase g) (subPhase g)
  (players g) (currentPlayerIndex g) v (promptChoices g) (timer g)
  (rounds g) (maxRounds g) (wordSource g) (history g).
Definition set_timer v g := mkGameState (phase g) (subPhase g) (players g)
  (currentPlayerIndex g) (currentPrompt g) (promptChoices g) v
  (rounds g) (maxRounds g) (wordSource g) (history g).
Definition set_wordSource v g := mkGameState (phase g) (subPhase g)
  (players g) (currentPlayerIndex g) (currentPrompt g) (promptChoices g)
  (timer g) (rounds g) (maxRounds g) v (history g).
Definition set_history v g := mkGameState (phase g) (subPhase g) (players g)
  (currentPlayerIndex g) (currentPrompt g) (promptChoices g) (timer g)
  (rounds g) (maxRounds g) (wordSource g) v.

(** The cells of the component: [gameState], [allPrompts],
    [selectedGuesserIds], [isSettingsOpen], [wordSets], [selectedSetId],
    and whether the interval behind the [timerInterval] ref is live. *)
Record Component := mkComponent
  { gameState : GameState;
    allPrompts : list Prompt;
    selectedGuesserIds : gset string;
    isSettingsOpen : bool;
    wordSets : list WordSet;
    selectedSetId : string;
    timerInterval : bool }.

Definition set_gameState v c := mkComponent v (allPrompts c)
  (selectedGuesserIds c) (isSettingsOpen c) (wordSets c) (selectedSetId c)
  (timerInterval c).
Definition set_allPrompts v c := mkComponent (gameState c) v
  (selectedGuesserIds c) (isSettingsOpen c) (wordSets c) (selectedSetId c)
  (timerInterval c).
Definition set_selectedGuesserIds v c := mkComponent (gameState c)
  (allPrompts c) v (isSettingsOpen c) (wordSets c) (selectedSetId c)
  (timerInterval c).
Definition set_isSettingsOpen v c := mkComponent (gameState c)
  (allPrompts c) (selectedGuesserIds c) v (wordSets c) (selectedSetId c)
  (timerInterval c).
Definition set_wordSets v c := mkComponent (gameState c) (allPrompts c)
  (selectedGuesserIds c) (isSettingsOpen c) v (selectedSetId c)
  (timerInterval c).
Definition set_selectedSetId v c := mkComponent (gameState c)
  (allPrompts c) (selectedGuesserIds c) (isSettingsOpen c) (wordSets c) v
  (timerInterval c).
Definition set_timerInterval v c := mkComponent (gameState c)
  (allPrompts c) (selectedGuesserIds c) (isSettingsOpen c) (wordSets c)
  (selectedSetId c) v.

(** [setGameState(prev => f prev)] *)
Definition setGameState (f : GameState → GameState) (c : Component) :=
  set_gameState (f (gameState c)) c.

(** [clearInterval(timerInterval.current)] *)
Definition clearInterval (c : Component) := set_timerInterval false c.

(** The default bank of [loadWordSets] and the first render's state. *)
Definition classicPack : WordSet :=
  mkWordSet "default" "Classic Pack"
    ["Cat"; "Sun"; "House"; "Apple"; "Pizza"]
    ["Robot"; "Skateboard"; "Bicycle"; "Galaxy"]
    ["Dinosaur"; "Internet"; "Gravity"; "Library"].

Definition initialGameState (ws : WordSource) : GameState :=
  mkGameState HOME None [] 0 None [] DEFAULT_TIME 1 MAX_ROUNDS ws [].

(** What local storage holds decides [wordSource], [wordSets] and
    [selectedSetId] of the first render. *)
Definition initial (ws : WordSource) (sets : list WordSet) (sel : string)
  : Component :=
  mkComponent (initialGameState ws) [] ∅ false sets sel false.

Definition emptySet : WordSet := mkWordSet EmptyString EmptyString [] [] [].

(** [wordSets.find(s => s.id === selectedSetId) || wordSets[0] || {...}] *)
Definition activeSet (c : Component) : WordSet :=
  match List.find (λ s, bool_decide (ws_id s = selectedSetId c)) (wordSets c) with
  | Some s => s
  | None => default emptySet (head (wordSets c))
  end.

(** *** Game logic *)

(** What a handler asks of the outside: the prompt request it awaits,
    or the blocking [alert]. *)
Inductive Effect := GeneratePrompts (count : Z) | Alert (msg : string).

(** [arr.length ? arr : fallback] *)
Definition orElse {A} (arr fallback : list A) : list A :=
  if bool_decide (length arr = 0%nat) then fallback else arr.

(** [setupTurn(playerIdx, roundNum, pool)].  [ws] is the
    [gameState.wordSource] the enclosing render closed over; [prev] is
    the state the updater receives. *)
Definition easyBucket (pool : list Prompt) : list Prompt :=
  filter (λ p, difficulty p = easy ∨ difficulty p = custom) pool.
Definition mediumBucket (pool : list Prompt) : list Prompt :=
  filter (λ p, difficulty p = medium) pool.
Definition hardBucket (pool : list Prompt) : list Prompt :=
  filter (λ p, difficulty p = hard) pool.

(** The [choices] that [setupTurn] computes before its state update. *)
Definition choicesOf (ws : WordSource) (pool : list Prompt) (d : Draws)
  : list (option Prompt) :=
  let available := pool in
  if bool_decide (ws = src_ai ∨ (3 < length pool)%nat) then
    let easy' := easyBucket available in
    let med := mediumBucket available in
    let hard' := hardBucket available in
    [ rnd (draw_easy d) (orElse easy' available);
      rnd (draw_medium d) (orElse med available);
      rnd (draw_hard d) (orElse hard' available) ]
  else Some <$> take 3 available.

Definition setupTurn (ws : WordSource) (playerIdx : nat) (roundNum : Z)
    (pool : list Prompt) (d : Draws) (prev : GameState) : GameState :=
  let choices := choicesOf ws pool d in
  mkGameState PLAYING (Some PRE_TURN) (players prev) playerIdx None choices
    DEFAULT_TIME roundNum (maxRounds prev) (wordSource prev) (history prev).

Definition customPrompts (s : WordSet) : list Prompt :=
  ((λ w, mkPrompt w "Easy" easy) <$> ws_easy s) ++
  ((λ w, mkPrompt w "Medium" medium) <$> ws_medium s) ++
  ((λ w, mkPrompt w "Hard" hard) <$> ws_hard s).

(** [startMatch], up to its [await]: the new cells and what was asked
    of the outside. *)
Definition startMatch (d : Draws) (c : Component) : Component * list Effect :=
  let gs := gameState c in
  if bool_decide (length (players gs) < 2)%nat then (c, [])
  else
    match wordSource gs with
    | src_ai =>
        (setGameState (λ prev, set_subPhase (Some GETTING_PROMPTS)
                                 (set_phase PLAYING prev)) c,
         [GeneratePrompts 60])
    | src_custom =>
        let custom' := customPrompts (activeSet c) in
        if bool_decide (length custom' < 3)%nat then
          (set_isSettingsOpen true c,
           [Alert "This bank needs more words! Categorize them into Easy, Medium, and Hard in settings."])
        else
          (setGameState (setupTurn src_custom 0 1 custom' d)
             (set_allPrompts custom' c), [])
    end.

(** The rest of [startMatch] once [generatePrompts(60)] has resolved; the
    closure it runs in saw [wordSource === 'ai']. *)
Definition startMatch_resumed (prompts : list Prompt) (d : Draws)
    (c : Component) : Component :=
  setGameState (setupTurn src_ai 0 1 prompts d) (set_allPrompts prompts c).

Definition selectPrompt (prompt : option Prompt) (c : Component) : Component :=
  setGameState (λ prev, set_subPhase (Some DRAWING)
                          (set_currentPrompt prompt prev)) c.

(** The entry literal of the interval callback and of [skipTurn]:
    [{ playerName: prev.players[prev.currentPlayerIndex].name,
       word: prev.currentPrompt?.word || '', wasCorrect: false, winners: [] }] *)
Definition failedEntry (prev : GameState) : option History.Entry :=
  drawer ← players prev !! currentPlayerIndex prev;
  Some (History.mkEntry (name drawer)
          (from_option word EmptyString (currentPrompt prev)) false []).

(** The callback of [setInterval]. *)
Definition tick (c : Component) : option Component :=
  let prev := gameState c in
  if bool_decide (timer prev ≤ 1)%Z then
    entry ← failedEntry prev;
    Some (set_gameState
            (set_subPhase (Some POST_TURN)
               (set_history (history prev ++ [entry]) (set_timer 0 prev)))
            (clearInterval c))
  else Some (setGameState (λ prev, set_timer (timer prev - 1) prev) c).

Definition confirmSolved (c : Component) : Component :=
  setGameState (set_subPhase (Some CONFIRM_SCORE))
    (set_selectedGuesserIds ∅ (clearInterval c)).

Definition skipTurn (c : Component) : option Component :=
  let c := clearInterval c in
  let prev := gameState c in
  entry ← failedEntry prev;
  Some (set_gameState
          (set_subPhase (Some POST_TURN)
             (set_history (history prev ++ [entry]) prev)) c).

Definition diffMap (d : Difficulty) : Z :=
  match d with easy => 1 | medium => 2 | hard => 3 | custom => 2 end.

(** [diffMap[gameState.currentPrompt?.difficulty || 'easy']] *)
Definition basePoints (g : GameState) : Z :=
  diffMap (from_option difficulty easy (currentPrompt g)).

Definition isSpeedBonus (g : GameState) : bool :=
  bool_decide (SPEED_BONUS_THRESHOLD ≤ timer g)%Z.

(** The body of [prev.players.map(p => ...)] in [submitScore]. *)
Definition awardPlayer (drawer : Player) (sel : gset string) (base : Z)
    (speed : bool) (p : Player) : Player :=
  let isDrawer := bool_decide (id p = id drawer) in
  let guessed := bool_decide (id p ∈ sel) in
  let bonus := 0%Z in
  let bonus := if isDrawer && bool_decide (0 < size sel)%nat
               then (bonus + base)%Z else bonus in
  let bonus := if guessed then (bonus + (base + (if speed then 1 else 0)))%Z
               else bonus in
  with_score (score p + bonus) p.

Definition submitScore (c : Component) : option Component :=
  let speed := isSpeedBonus (gameState c) in
  let base := basePoints (gameState c) in
  let sel := selectedGuesserIds c in
  let prev := gameState c in
  drawer ← players prev !! currentPlayerIndex prev;
  let nextPlayers := awardPlayer drawer sel base speed <$> players prev in
  let winners := name <$> filter (λ p, id p ∈ sel) (players prev) in
  let entry := History.mkEntry (name drawer)
                 (from_option word EmptyString (currentPrompt prev))
                 (bool_decide (0 < size sel)%nat) winners in
  Some (set_gameState
          (set_subPhase (Some POST_TURN)
             (set_history (history prev ++ [entry])
                (set_players nextPlayers prev))) c).

(** [nextTurn].  With an empty roster [% 0] is [NaN], an index the
    model does not hold: [None]. *)
Definition nextTurn (d : Draws) (c : Component) : option Component :=
  let gs := gameState c in
  if bool_decide (length (players gs) = 0%nat) then None
  else
    let nextIdx := ((currentPlayerIndex gs + 1) mod length (players gs))%nat in
    if bool_decide (nextIdx = 0%nat) then
      Some (setGameState (set_subPhase (Some ROUND_LEADERBOARD)) c)
    else
      Some (setGameState
              (setupTurn (wordSource gs) nextIdx (rounds gs) (allPrompts c) d) c).

Definition nextRound (d : Draws) (c : Component) : Component :=
  let gs := gameState c in
  if bool_decide (maxRounds gs ≤ rounds gs)%Z then
    setGameState (λ prev, set_subPhase None (set_phase GAME_OVER prev)) c
  else
    setGameState
      (setupTurn (wordSource gs) 0 (rounds gs + 1) (allPrompts c) d) c.

Definition endEarly (c : Component) : Component :=
  setGameState (λ prev, set_subPhase None (set_phase GAME_OVER prev)) c.

Definition restartMatch (c : Component) : Component :=
  setGameState (λ prev,
    mkGameState HOME None (with_score 0 <$> players prev) 0 None
      (promptChoices prev) DEFAULT_TIME 1 (maxRounds prev)
      (wordSource prev) []) c.

Definition exitToHome (c : Component) : Component :=
  set_gameState (initialGameState (wordSource (gameState c))) c.

(** [addPlayer]: [newName] is [newPlayerName.trim()], [newId] the
    random id. *)
Definition addPlayer (newId newName : string) (c : Component) : Component :=
  if bool_decide (newName = EmptyString) then c
  else setGameState (λ prev,
         set_players (players prev ++ [mkPlayer newId newName 0]) prev) c.

Definition removePlayer (pid : string) (c : Component) : Component :=
  setGameState (λ prev,
    set_players (filter (λ p, id p ≠ pid) (players prev)) prev) c.

(** The [onClick] of a guesser button in the scoring screen. *)
Definition toggleGuesser (p : Player) (c : Component) : Component :=
  let next := selectedGuesserIds c in
  set_selectedGuesserIds
    (if bool_decide (id p ∈ next) then next ∖ {[id p]} else next ∪ {[id p]}) c.

(** *** Word banks *)

Definition mapActive (f : WordSet → WordSet) (c : Component) : Component :=
  set_wordSets
    ((λ s, if bool_decide (ws_id s = selectedSetId c) then f s else s)
       <$> wordSets c) c.

(** [handleUpdateActiveWords]; [words] is the text already split on
    commas and line breaks, trimmed and without empty pieces. *)
Definition handleUpdateActiveWords (d : Difficulty) (words : list string)
    (c : Component) : option Component :=
  match d with
  | easy => Some (mapActive (λ s, mkWordSet (ws_id s) (ws_name s) words (ws_medium s) (ws_hard s)) c)
  | medium => Some (mapActive (λ s, mkWordSet (ws_id s) (ws_name s) (ws_easy s) words (ws_hard s)) c)
  | hard => Some (mapActive (λ s, mkWordSet (ws_id s) (ws_name s) (ws_easy s) (ws_medium s) words) c)
  | custom => None
  end.

Definition handleUpdateActiveName (n : string) (c : Component) : Component :=
  mapActive (λ s, mkWordSet (ws_id s) n (ws_easy s) (ws_medium s) (ws_hard s)) c.

Definition handleCreateSet (newId : string) (c : Component) : Component :=
  let newSet := mkWordSet newId
                  ("Custom Bank " +:+ pretty (length (wordSets c) + 1)%nat)
                  [] [] [] in
  set_selectedSetId newId (set_wordSets (wordSets c ++ [newSet]) c).

Definition handleDeleteSet (sid : string) (c : Component) : Component :=
  if bool_decide (length (wordSets c) ≤ 1)%nat then c
  else
    let filtered := filter (λ s, ws_id s ≠ sid) (wordSets c) in
    let c' := set_wordSets filtered c in
    if bool_decide (selectedSetId c = sid)
    then set_selectedSetId (from_option ws_id EmptyString (head filtered)) c'
    else c'.

(** *** The hint row of the DRAWING screen *)

Definition revealLen (t : Z) : bool := bool_decide (t ≤ 58)%Z.
Definition reveal1 (t : Z) : bool := bool_decide (t ≤ 50)%Z.
Definition reveal2 (t : Z) : bool := bool_decide (t ≤ 35)%Z.
Definition reveal3 (t : Z) : bool := bool_decide (t ≤ 20)%Z.

Definition isRevealed (len : nat) (t : Z) (i : nat) : bool :=
  (reveal1 t && bool_decide (i = 0%nat))
  || (reveal2 t && bool_decide (i = (len / 2)%nat))
  || (reveal3 t && bool_decide (i = (len - 1)%nat)).

(** [word.split('').map((char, i) => ...)] *)
Definition hintCells (w : string) (t : Z) : list HintCell :=
  let chars := String.list_ascii_of_string w in
  imap (λ i ch,
    if bool_decide (ch = space) then Gap
    else if isRevealed (length chars) t i then Revealed (toUpperCase ch)
    else Hidden) chars.

(** [{revealLen && <div>...</div>}]: the row, when it is on screen. *)
Definition hintDisplay (g : GameState) : option (list HintCell) :=
  let w := from_option word EmptyString (currentPrompt g) in
  if revealLen (timer g) then Some (hintCells w (timer g)) else None.

(** *** The component as a transition system *)

(** What can happen to the mounted component: a control of the screen
    being used, the interval firing, the prompt request resolving. *)
Inductive Event :=
| OpenSettings | CloseSettings | SetWordSource (ws : WordSource)
| CreateSet (newId : string) | SelectSet (sid : string) | DeleteSet (sid : string)
| UpdateActiveWords (d : Difficulty) (words : list string)
| UpdateActiveName (n : string)
| AddPlayer (newId newName : string) | RemovePlayer (pid : string)
| StartMatch (d : Draws) | PromptsArrived (prompts : list Prompt) (d : Draws)
| Ready | SelectPrompt (i : nat) | Tick | ConfirmSolved | SkipTurn
| ToggleGuesser (i : nat) | Back | SubmitScore
| NextTurn (d : Draws) | NextRound (d : Draws)
| EndEarly | RestartMatch | ExitToHome.

(** The [useEffect] on [gameState.subPhase]: when the sub-phase changed,
    the old interval is cleared and a new one is set iff the screen is
    DRAWING with time left. *)
Definition timerEffect (before after : Component) : Component :=
  if bool_decide (subPhase (gameState before) = subPhase (gameState after))
  then after
  else set_timerInterval
         (bool_decide (subPhase (gameState after) = Some DRAWING
                       ∧ (0 < timer (gameState after))%Z)) after.

(** [renderSettings]: the controls of the settings modal. *)
Definition onSettings (e : Event) (c : Component) : option Component :=
  match e with
  | CloseSettings => Some (set_isSettingsOpen false c)
  | SetWordSource ws => Some (setGameState (set_wordSource ws) c)
  | CreateSet newId => Some (handleCreateSet newId c)
  | SelectSet sid =>
      if bool_decide (sid ∈ ws_id <$> wordSets c)
      then Some (set_selectedSetId sid c) else None
  | DeleteSet sid =>
      if bool_decide (sid ∈ ws_id <$> wordSets c ∧ selectedSetId c ≠ sid)
      then Some (handleDeleteSet sid c) else None
  | UpdateActiveWords d words =>
      if bool_decide (ws_id (activeSet c) ≠ EmptyString)
      then handleUpdateActiveWords d words c else None
  | UpdateActiveName n =>
      if bool_decide (ws_id (activeSet c) ≠ EmptyString)
      then Some (handleUpdateActiveName n c) else None
  | _ => None
  end.

(** [renderHome], [renderPlaying] and [renderGameOver]: the handler a
    control of the current screen is bound to. *)
Definition onScreen (e : Event) (c : Component) : option Component :=
  let gs := gameState c in
  match phase gs, subPhase gs, e with
  | HOME, _, OpenSettings => Some (set_isSettingsOpen true c)
  | HOME, _, AddPlayer newId newName => Some (addPlayer newId newName c)
  | HOME, _, RemovePlayer pid => Some (removePlayer pid c)
  | HOME, _, StartMatch d => Some (startMatch d c).1
  | PLAYING, Some PRE_TURN, Ready =>
      Some (setGameState (set_subPhase (Some CHOOSE_PROMPT)) c)
  | PLAYING, Some PRE_TURN, EndEarly => Some (endEarly c)
  | PLAYING, Some CHOOSE_PROMPT, SelectPrompt i =>
      p ← promptChoices gs !! i; Some (selectPrompt p c)
  | PLAYING, Some DRAWING, ConfirmSolved => Some (confirmSolved c)
  | PLAYING, Some DRAWING, SkipTurn => skipTurn c
  | PLAYING, Some DRAWING, EndEarly => Some (endEarly c)
  | PLAYING, Some CONFIRM_SCORE, ToggleGuesser i =>
      if bool_decide (i ≠ currentPlayerIndex gs)
      then p ← players gs !! i; Some (toggleGuesser p c)
      else None
  | PLAYING, Some CONFIRM_SCORE, Back =>
      Some (setGameState (set_subPhase (Some DRAWING)) c)
  | PLAYING, Some CONFIRM_SCORE, SubmitScore => submitScore c
  | PLAYING, Some POST_TURN, NextTurn d => nextTurn d c
  | PLAYING, Some ROUND_LEADERBOARD, NextRound d => Some (nextRound d c)
  | GAME_OVER, _, RestartMatch => Some (restartMatch c)
  | GAME_OVER, _, ExitToHome => Some (exitToHome c)
  | _, _, _ => None
  end.

(** The draws an event brings with it. *)
Definition drawsOf (e : Event) : option Draws :=
  match e with
  | StartMatch d | PromptsArrived _ d | NextTurn d | NextRound d => Some d
  | _ => None
  end.

(** [Math.random] stays in [0,1). *)
Definition validDraws (e : Event) : bool :=
  match drawsOf e with Some d => bool_decide (unit_draws d) | None => true end.

(** The controls of the settings modal. *)
Definition isSettingsControl (e : Event) : bool :=
  match e with
  | CloseSettings | SetWordSource _ | CreateSet _ | SelectSet _ | DeleteSet _
  | UpdateActiveWords _ _ | UpdateActiveName _ => true
  | _ => false
  end.

(** The interval fires only while it is live, and the prompt request
    resolves only while [startMatch] awaits it; every other event is a
    control being used.  The modal is rendered while [isSettingsOpen];
    the screen of the current phase is rendered with it, beneath it, and
    its controls stay bound and enabled. *)
Definition dispatch (e : Event) (c : Component) : option Component :=
  match e with
  | Tick => if timerInterval c then tick c else None
  | PromptsArrived prompts d =>
      if bool_decide (phase (gameState c) = PLAYING
                      ∧ subPhase (gameState c) = Some GETTING_PROMPTS)
      then Some (startMatch_resumed prompts d c) else None
  | _ =>
      if isSettingsControl e
      then (if isSettingsOpen c then onSettings e c else None)
      else onScreen e c
  end.

(** One event: the handler's update, then the effect of the re-render.
    An event that cannot happen in [c], draws outside [0,1) and a
    handler that throws give [None]. *)
Definition step (e : Event) (c : Component) : option Component :=
  if validDraws e then c' ← dispatch e c; Some (timerEffect c c') else None.

Fixpoint run (es : list Event) (c : Component) : option Component :=
  match es with
  | [] => Some c
  | e :: es => c' ← step e c; run es c'
  end.

(** The states a mounted component can be in. *)
Definition reachable (c : Component) : Prop :=
  ∃ ws sets sel es, run es (initial ws sets sel) = Some c.

(** A stretch of a match: every event is taken while [phase] is PLAYING. *)
Fixpoint runMatch (es : list Event) (c : Component) : option Component :=
  match es with
  | [] => Some c
  | e :: es =>
      if bool_decide (phase (gameState c) = PLAYING)
      then c' ← step e c; runMatch es c' else None
  end.
(** *** The bank editor of the settings modal

    A character of a string stands for the UTF-16 code unit of the same
    number. *)

(** The class [[\n,]] of the regular expression. *)
Definition isSeparator (ch : ascii) : bool :=
  bool_decide (ch = "010"%char ∨ ch = ","%char).

(** [text.split(/[\n,]+/)] on the characters of [text]: the text is cut
    at every maximal run of separators; a run at either end of the text
    leaves an empty piece there, and the empty text is one empty piece. *)
Fixpoint splitRuns (chars : list ascii) : list (list ascii) :=
  match chars with
  | [] => [[]]
  | ch :: rest =>
      if isSeparator ch then
        if from_option isSeparator false (head rest) then splitRuns rest
        else [] :: splitRuns rest
      else
        match splitRuns rest with
        | piece :: pieces => (ch :: piece) :: pieces
        | [] => [[ch]]
        end
  end.

(** What [String.prototype.trim] strips, among the code units below 256:
    TAB, LF, VT, FF, CR, the space and the no-break space. *)
Definition isWhiteSpace (ch : ascii) : bool :=
  bool_decide (nat_of_ascii ch ∈ [9; 10; 11; 12; 13; 32; 160]%nat).

Fixpoint trimStart (chars : list ascii) : list ascii :=
  match chars with
  | [] => []
  | ch :: rest => if isWhiteSpace ch then trimStart rest else chars
  end.

(** [w.trim()] *)
Definition trim (chars : list ascii) : list ascii :=
  reverse (trimStart (reverse (trimStart chars))).

(** The [words] of [handleUpdateActiveWords]:
    [text.split(/[\n,]+/).map(w => w.trim()).filter(w => w.length > 0)] *)
Definition wordsOfText (text : string) : list string :=
  String.string_of_list_ascii <$>
    filter (λ w, (0 < length w)%nat)
      (trim <$> splitRuns (String.list_ascii_of_string text)).

(** [activeSet[diff]] for the three lists the editor shows. *)
Definition bankWords (d : Difficulty) (s : WordSet) : option (list string) :=
  match d with
  | easy => Some (ws_easy s)
  | medium => Some (ws_medium s)
  | hard => Some (ws_hard s)
  | custom => None
  end.

(** [activeSet[diff].join(', ')], the [value] of a textarea. *)
Definition textareaValue (d : Difficulty) (c : Component) : option string :=
  String.concat ", " <$> bankWords d (activeSet c).

(** The [onChange] of a textarea:
    [handleUpdateActiveWords(diff, e.target.value)]. *)
Definition onChangeWords (d : Difficulty) (text : string) (c : Component)
  : option Component :=
  handleUpdateActiveWords d (wordsOfText text) c.

(** The word count of a bank's card:
    [s.easy.length + s.medium.length + s.hard.length]. *)
Definition wordCount (s : WordSet) : nat :=
  (length (ws_easy s) + length (ws_medium s) + length (ws_hard s))%nat.

(** *** What the screens show of the state *)

(** [gameState.history[gameState.history.length - 1]] of the POST_TURN
    screen, its headline, and the label of the leaderboard's button. *)
Definition lastEntry (g : GameState) : option History.Entry :=
  last (history g).

Definition postTurnHeadline (g : GameState) : string :=
  if from_option History.wasCorrect false (lastEntry g)
  then "Great Job!" else "Better luck next time!".

Definition nextRoundLabel (g : GameState) : string :=
  if bool_decide (maxRounds g ≤ rounds g)%Z
  then "FINISH MATCH" else "NEXT ROUND".

(** *** services/gemini (src/unnamed/part_002) *)

(** The list the [catch] block returns. *)
Definition fallbackPrompts : list Prompt :=
  [ mkPrompt "Cat" "Animals" easy;
    mkPrompt "Pizza" "Food" easy;
    mkPrompt "House" "Objects" easy;
    mkPrompt "Skateboarding" "Action" medium;
    mkPrompt "Eiffel Tower" "Landmark" medium;
    mkPrompt "Library" "Places" medium;
    mkPrompt "Gravity" "Abstract" hard;
    mkPrompt "Internet" "Technology" hard;
    mkPrompt "Metamorphosis" "Biology" hard ].

(** [generatePrompts(count)]: [response] is the array the [try] block
    parsed, [None] when the request or the parse threw. *)
Definition generatePrompts (count : Z) (response : option (list Prompt))
  : list Prompt :=
  default fallbackPrompts response.
End App.

(** ** The LOBBY-based component (src/unnamed/part_000, types of
    src/unnamed/part_001) *)
Module Lobby.

Inductive GamePhase :=
| LOBBY | GETTING_PROMPTS | PRE_TURN | CHOOSE_PROMPT | DRAWING
| CONFIRM_SCORE | POST_TURN | ROUND_LEADERBOARD | GAME_OVER.

Inductive Difficulty := easy | medium | hard.

#[global] Instance GamePhase_eq_dec : EqDecision GamePhase.
Proof. solve_decision. Defined.
#[global] Instance Difficulty_eq_dec : EqDecision Difficulty.
Proof. solve_decision. Defined.

Record Prompt := mkPrompt
  { word : string; category : string; difficulty : Difficulty }.

Record GameState := mkGameState
  { players : list Player;
    currentPlayerIndex : nat;
    currentPrompt : option Prompt;
    promptChoices : list (option Prompt);
    phase : GamePhase;
    timer : Z;
    rounds : Z;
    maxRounds : Z;
    history : list History.Entry }.

Definition set_players v g := mkGameState v (currentPlayerIndex g)
  (currentPrompt g) (promptChoices g) (phase g) (timer g) (rounds g)
  (maxRounds g) (history g).
Definition set_currentPrompt v g := mkGameState (players g)
  (currentPlayerIndex g) v (promptChoices g) (phase g) (timer g) (rounds g)
  (maxRounds g) (history g).
Definition set_phase v g := mkGameState (players g) (currentPlayerIndex g)
  (currentPrompt g) (promptChoices g) v (timer g) (rounds g) (maxRounds g)
  (history g).
Definition set_timer v g := mkGameState (players g) (currentPlayerIndex g)
  (currentPrompt g) (promptChoices g) (phase g) v (rounds g) (maxRounds g)
  (history g).
Definition set_history v g := mkGameState (players g) (currentPlayerIndex g)
  (currentPrompt g) (promptChoices g) (phase g) (timer g) (rounds g)
  (maxRounds g) v.

(** The cells of the component: [gameState], [allPrompts],
    [selectedGuesserIds], and whether the interval behind the
    [timerInterval] ref is live. *)
Record Component := mkComponent
  { gameState : GameState;
    allPrompts : list Prompt;
    selectedGuesserIds : gset string;
    timerInterval : bool }.

Definition set_gameState v c :=
  mkComponent v (allPrompts c) (selectedGuesserIds c) (timerInterval c).
Definition set_allPrompts v c :=
  mkComponent (gameState c) v (selectedGuesserIds c) (timerInterval c).
Definition set_selectedGuesserIds v c :=
  mkComponent (gameState c) (allPrompts c) v (timerInterval c).
Definition set_timerInterval v c :=
  mkComponent (gameState c) (allPrompts c) (selectedGuesserIds c) v.

Definition setGameState (f : GameState → GameState) (c : Component) :=
  set_gameState (f (gameState c)) c.

Definition clearInterval (c : Component) := set_timerInterval false c.

Definition initial : Component :=
  mkComponent (mkGameState [] 0 None [] LOBBY DEFAULT_TIME 1 MAX_ROUNDS [])
    [] ∅ false.

(** *** Game logic ([playSound] only writes to the console) *)

(** [arr.length > 0 ? arr : fallback] *)
Definition orElse {A} (arr fallback : list A) : list A :=
  if bool_decide (0 < length arr)%nat then arr else fallback.

Definition bucket (d : Difficulty) (promptsList : list Prompt) : list Prompt :=
  filter (λ p, difficulty p = d) promptsList.

(** The [choices] that [startTurnSetup] computes before its state update. *)
Definition choicesOf (promptsList : list Prompt) (d : Draws)
  : list (option Prompt) :=
  let easy' := bucket easy promptsList in
  let medium' := bucket medium promptsList in
  let hard' := bucket hard promptsList in
  [ rnd (draw_easy d) (orElse easy' promptsList);
    rnd (draw_medium d) (orElse medium' promptsList);
    rnd (draw_hard d) (orElse hard' promptsList) ].

Definition startTurnSetup (playerIdx : nat) (roundNum : Z)
    (promptsList : list Prompt) (d : Draws) (prev : GameState) : GameState :=
  let choices := choicesOf promptsList d in
  mkGameState (players prev) playerIdx None choices PRE_TURN DEFAULT_TIME
    roundNum (maxRounds prev) (history prev).

(** [startGame], up to its [await]: the new cells and the number of
    prompts asked of [generatePrompts], if any. *)
Definition startGame (c : Component) : Component * option Z :=
  if bool_decide (length (players (gameState c)) < 2)%nat then (c, None)
  else (setGameState (set_phase GETTING_PROMPTS) c, Some 100%Z).

(** The rest of [startGame] once the prompts have arrived. *)
Definition startGame_resumed (prompts : list Prompt) (d : Draws)
    (c : Component) : Component :=
  setGameState (startTurnSetup 0 1 prompts d) (set_allPrompts prompts c).

Definition choosePrompt (prompt : option Prompt) (c : Component) : Component :=
  setGameState (λ prev, set_phase DRAWING (set_currentPrompt prompt prev)) c.

(** The callback of [setInterval]. *)
Definition tick (c : Component) : Component :=
  let prev := gameState c in
  if bool_decide (timer prev ≤ 1)%Z then
    set_gameState (set_phase POST_TURN (set_timer 0 prev)) (clearInterval c)
  else setGameState (λ prev, set_timer (timer prev - 1) prev) c.

Definition enterScoringPhase (c : Component) : Component :=
  setGameState (set_phase CONFIRM_SCORE)
    (set_selectedGuesserIds ∅ (clearInterval c)).

Definition difficultyPointsMap (d : Difficulty) : Z :=
  match d with easy => 1 | medium => 2 | hard => 3 end.

(** [difficultyPointsMap[gameState.currentPrompt?.difficulty || 'easy']] *)
Definition basePoints (g : GameState) : Z :=
  difficultyPointsMap (from_option difficulty easy (currentPrompt g)).

Definition isSpeedBonus (g : GameState) : bool :=
  bool_decide (SPEED_BONUS_THRESHOLD ≤ timer g)%Z.

(** The body of [prev.players.map(p => ...)] in [finalizeScore]. *)
Definition awardPlayer (drawer : Player) (sel : gset string)
    (basePoints : Z) (speed : bool) (p : Player) : Player :=
  let isDrawer := bool_decide (id p = id drawer) in
  let isSelectedGuesser := bool_decide (id p ∈ sel) in
  let scoreIncrease := 0%Z in
  let scoreIncrease :=
    if isDrawer && bool_decide (0 < size sel)%nat
    then (scoreIncrease + basePoints)%Z else scoreIncrease in
  let scoreIncrease :=
    if isSelectedGuesser then
      let scoreIncrease := (scoreIncrease + basePoints)%Z in
      if speed then (scoreIncrease + 1)%Z else scoreIncrease
    else scoreIncrease in
  with_score (score p + scoreIncrease) p.

Definition finalizeScore (c : Component) : option Component :=
  let speed := isSpeedBonus (gameState c) in
  let base := basePoints (gameState c) in
  let sel := selectedGuesserIds c in
  let prev := gameState c in
  drawer ← players prev !! currentPlayerIndex prev;
  let updatedPlayers := awardPlayer drawer sel base speed <$> players prev in
  let winnersNames := name <$> filter (λ p, id p ∈ sel) (players prev) in
  let newHistory :=
    history prev ++
      [History.mkEntry (name drawer)
         (from_option word EmptyString (currentPrompt prev))
         (bool_decide (0 < size sel)%nat) winnersNames] in
  Some (set_gameState
          (set_phase POST_TURN
             (set_history newHistory (set_players updatedPlayers prev))) c).

(** [handleNextTurn].  With an empty roster [% 0] is [NaN], an index the
    model does not hold: [None]. *)
Definition handleNextTurn (d : Draws) (c : Component) : option Component :=
  let gs := gameState c in
  if bool_decide (length (players gs) = 0%nat) then None
  else
    let nextPlayerIdx :=
      ((currentPlayerIndex gs + 1) mod length (players gs))%nat in
    if bool_decide (nextPlayerIdx = 0%nat) then
      Some (setGameState (set_phase ROUND_LEADERBOARD) c)
    else
      Some (setGameState
              (startTurnSetup nextPlayerIdx (rounds gs) (allPrompts c) d) c).

Definition proceedFromRoundLeaderboard (d : Draws) (c : Component)
  : Component :=
  let gs := gameState c in
  let nextRound := (rounds gs + 1)%Z in
  if bool_decide (maxRounds gs < nextRound)%Z then
    setGameState (set_phase GAME_OVER) c
  else setGameState (startTurnSetup 0 nextRound (allPrompts c) d) c.

Definition endGameEarly (c : Component) : Component :=
  setGameState (set_phase GAME_OVER) (clearInterval c).

(** [addPlayer]: [newName] is [newPlayerName.trim()], [newId] the
    random id. *)
Definition addPlayer (newId newName : string) (c : Component) : Component :=
  if bool_decide (newName = EmptyString) then c
  else setGameState (λ prev,
         set_players (players prev ++ [mkPlayer newId newName 0]) prev) c.

(** The remove button of a roster row. *)
Definition removePlayer (pid : string) (c : Component) : Component :=
  setGameState (λ prev,
    set_players (filter (λ p, id p ≠ pid) (players prev)) prev) c.

(** The [onClick] of a guesser button in the scoring screen. *)
Definition toggleGuesser (p : Player) (c : Component) : Component :=
  let next := selectedGuesserIds c in
  set_selectedGuesserIds
    (if bool_decide (id p ∈ next) then next ∖ {[id p]} else next ∪ {[id p]}) c.

(** The [onClick] of "Surrender Turn". *)
Definition surrenderTurn (c : Component) : Component :=
  setGameState (set_phase POST_TURN) c.

(** *** The hint row of [renderDrawing] *)

Record Triggers := mkTriggers
  { lengthTrigger : Z; letter1Trigger : Z; letter2Trigger : Z;
    letter3Trigger : Z }.

(** Difficulty-based hint triggers. *)
Definition triggers (d : Difficulty) : Triggers :=
  match d with
  | easy => mkTriggers 30 20 10 (-1)
  | medium => mkTriggers 45 35 15 (-1)
  | hard => mkTriggers 60 45 30 15
  end.

Definition isRevealed (tr : Triggers) (len : nat) (t : Z) (i : nat) : bool :=
  (bool_decide (t < letter1Trigger tr)%Z && bool_decide (i = 0%nat))
  || (bool_decide (t < letter2Trigger tr)%Z && bool_decide (i = (len / 2)%nat))
  || (bool_decide (t < letter3Trigger tr)%Z && bool_decide (i = (len - 1)%nat)).

(** [word.split('').map((char, i) => ...)] *)
Definition hintCells (tr : Triggers) (w : string) (t : Z) : list HintCell :=
  let chars := String.list_ascii_of_string w in
  imap (λ i ch,
    if bool_decide (ch = space) then Gap
    else if isRevealed tr (length chars) t i then Revealed (toUpperCase ch)
    else Hidden) chars.

Definition showLengthHint (tr : Triggers) (t : Z) : bool :=
  bool_decide (t ≤ lengthTrigger tr)%Z.

(** [{showLengthHint && <div>{hintDisplay}</div>}]: the row, when it is
    on screen. *)
Definition hintDisplay (g : GameState) : option (list HintCell) :=
  let w := from_option word EmptyString (currentPrompt g) in
  let tr := triggers (from_option difficulty easy (currentPrompt g)) in
  if showLengthHint tr (timer g) then Some (hintCells tr w (timer g))
  else None.

(** *** [renderPostTurn] *)

(** [gameState.history[gameState.history.length - 1]] *)
Definition lastHistory (g : GameState) : option History.Entry :=
  last (history g).

(** The headline, and the winners' chips when they are shown. *)
Definition postTurnHeadline (g : GameState) : string :=
  if from_option History.wasCorrect false (lastHistory g)
  then "Point Awarded!" else "Unlucky!".

Definition postTurnWinners (g : GameState) : option (list string) :=
  h ← lastHistory g;
  if History.wasCorrect h then Some (History.winners h) else None.

(** *** The component as a transition system *)

Inductive Event :=
| AddPlayer (newId newName : string) | RemovePlayer (pid : string)
| StartGame | PromptsArrived (prompts : list Prompt) (d : Draws)
| Ready | ChoosePrompt (i : nat) | Tick | EnterScoring | Surrender
| ToggleGuesser (i : nat) | Cancel | FinalizeScore
| NextTurn (d : Draws) | Proceed (d : Draws)
| EndGameEarly | NewGame.

(** The [useEffect] on [gameState.phase]. *)
Definition timerEffect (before after : Component) : Component :=
  if bool_decide (phase (gameState before) = phase (gameState after))
  then after
  else set_timerInterval
         (bool_decide (phase (gameState after) = DRAWING
                       ∧ (0 < timer (gameState after))%Z)) after.

(** The handler a control of the current screen is bound to; "NEW GAME"
    reloads the page. *)
Definition onScreen (e : Event) (c : Component) : option Component :=
  let gs := gameState c in
  match phase gs, e with
  | LOBBY, AddPlayer newId newName => Some (addPlayer newId newName c)
  | LOBBY, RemovePlayer pid => Some (removePlayer pid c)
  | LOBBY, StartGame => Some (startGame c).1
  | PRE_TURN, Ready => Some (setGameState (set_phase CHOOSE_PROMPT) c)
  | PRE_TURN, EndGameEarly => Some (endGameEarly c)
  | CHOOSE_PROMPT, ChoosePrompt i =>
      p ← promptChoices gs !! i; Some (choosePrompt p c)
  | CHOOSE_PROMPT, EndGameEarly => Some (endGameEarly c)
  | DRAWING, EnterScoring => Some (enterScoringPhase c)
  | DRAWING, Surrender => Some (surrenderTurn c)
  | DRAWING, EndGameEarly => Some (endGameEarly c)
  | CONFIRM_SCORE, ToggleGuesser i =>
      if bool_decide (i ≠ currentPlayerIndex gs)
      then p ← players gs !! i; Some (toggleGuesser p c)
      else None
  | CONFIRM_SCORE, Cancel => Some (setGameState (set_phase DRAWING) c)
  | CONFIRM_SCORE, FinalizeScore => finalizeScore c
  | POST_TURN, NextTurn d => handleNextTurn d c
  | ROUND_LEADERBOARD, Proceed d => Some (proceedFromRoundLeaderboard d c)
  | ROUND_LEADERBOARD, EndGameEarly => Some (endGameEarly c)
  | GAME_OVER, NewGame => Some initial
  | _, _ => None
  end.

(** The draws an event brings with it. *)
Definition drawsOf (e : Event) : option Draws :=
  match e with
  | PromptsArrived _ d | NextTurn d | Proceed d => Some d
  | _ => None
  end.

(** [Math.random] stays in [0,1). *)
Definition validDraws (e : Event) : bool :=
  match drawsOf e with Some d => bool_decide (unit_draws d) | None => true end.

(** The interval fires only while it is live, and the prompt request
    resolves only while [startGame] awaits it; every other event is a
    control of the current screen being used. *)
Definition dispatch (e : Event) (c : Component) : option Component :=
  match e with
  | Tick => if timerInterval c then Some (tick c) else None
  | PromptsArrived prompts d =>
      if bool_decide (phase (gameState c) = GETTING_PROMPTS)
      then Some (startGame_resumed prompts d c) else None
  | _ => onScreen e c
  end.

(** One event: the handler's update, then the effect of the re-render.
    An event that cannot happen in [c], draws outside [0,1) and a
    handler that throws give [None]. *)
Definition step (e : Event) (c : Component) : option Component :=
  if validDraws e then c' ← dispatch e c; Some (timerEffect c c') else None.

Fixpoint run (es : list Event) (c : Component) : option Component :=
  match es with
  | [] => Some c
  | e :: es => c' ← step e c; run es c'
  end.

(** The states a mounted component can be in. *)
Definition reachable (c : Component) : Prop :=
  ∃ es, run es initial = Some c.

Definition inMatch (g : GameState) : Prop :=
  phase g ≠ LOBBY ∧ phase g ≠ GAME_OVER.

(** A stretch of a match: every event is taken between the start of
    the match and GAME_OVER. *)
Fixpoint runMatch (es : list Event) (c : Component) : option Component :=
  match es with
  | [] => Some c
  | e :: es =>
      if bool_decide (inMatch (gameState c))
      then c' ← step e c; runMatch es c' else None
  end.
(** The label of the button of [renderRoundLeaderboard]. *)
Definition proceedLabel (g : GameState) : string :=
  if bool_decide (maxRounds g ≤ rounds g)%Z
  then "VIEW FINAL RESULTS" else "START NEXT ROUND".

(** *** services/gemini (src/unnamed/part_002) *)

(** The list the [catch] block returns. *)
Definition fallbackPrompts : list Prompt :=
  [ mkPrompt "Cat" "Animals" easy;
    mkPrompt "Pizza" "Food" easy;
    mkPrompt "House" "Objects" easy;
    mkPrompt "Skateboarding" "Action" medium;
    mkPrompt "Eiffel Tower" "Landmark" medium;
    mkPrompt "Library" "Places" medium;
    mkPrompt "Gravity" "Abstract" hard;
    mkPrompt "Internet" "Technology" hard;
    mkPrompt "Metamorphosis" "Biology" hard ].

(** [generatePrompts(count)]: [response] is the array the [try] block
    parsed, [None] when the request or the parse threw. *)
Definition generatePrompts (count : Z) (response : option (list Prompt))
  : list Prompt :=
  default fallbackPrompts response.
End Lobby.

(** ** src/components/DrawingCanvas.tsx

    The component keeps the cells [isDrawing] and [lastPos]; what it asks
    of the 2D context is kept as the list of its calls.  The canvas
    element is mounted and has a 2D context.  [draw] and [stopDrawing]
    run as window listeners: they are the closures of the render whose
    effect registered them and read the cells as that render saw them
    ([seen]), while [setIsDrawing] and [setLastPos] write the cells of
    the next render ([cells]).  The effect that keeps the bitmap across
    a resize is not modelled. *)
Module Canvas.

Record Pos := mkPos { x : Q; y : Q }.

(** [DrawingCanvasProps] *)
Record Props := mkProps { color : string; lineWidth : Z; isActive : bool }.

Record Cells := mkCells { isDrawing : bool; lastPos : Pos }.

(** A call on the context: the path of [draw], from [moveTo] to
    [stroke()], with the [strokeStyle] and [lineWidth] set for it, or the
    [clearRect] of the whole canvas. *)
Inductive Call :=
| Line (from to : Pos) (strokeStyle : string) (width : Z)
| ClearRect.

(** What [getPos] reads of an event: [clientX] and [clientY] of a mouse
    event, or of [e.touches[0]] of a touch event. *)
Inductive Pointer := Mouse (clientX clientY : Q) | Touch (clientX clientY : Q).

Record Component := mkComponent
  { props : Props; cells : Cells; seen : Cells; calls : list Call }.

Definition initial (p : Props) : Component :=
  mkComponent p (mkCells false (mkPos 0 0)) (mkCells false (mkPos 0 0)) [].

(** [getPos(e)]; [rect] holds [left] and [top] of
    [canvas.getBoundingClientRect()]. *)
Definition getPos (e : Pointer) (rect : Pos) : Pos :=
  match e with
  | Touch clientX clientY => mkPos (clientX - x rect) (clientY - y rect)
  | Mouse clientX clientY => mkPos (clientX - x rect) (clientY - y rect)
  end.

Definition startDrawing (e : Pointer) (rect : Pos) (c : Component) : Component :=
  if negb (isActive (props c)) then c
  else mkComponent (props c) (mkCells true (getPos e rect)) (seen c) (calls c).

Definition draw (e : Pointer) (rect : Pos) (c : Component) : Component :=
  if negb (isDrawing (seen c)) || negb (isActive (props c)) then c
  else
    let currentPos := getPos e rect in
    mkComponent (props c) (mkCells (isDrawing (cells c)) currentPos) (seen c)
      (calls c ++ [Line (lastPos (seen c)) currentPos (color (props c))
                     (lineWidth (props c))]).

Definition stopDrawing (c : Component) : Component :=
  mkComponent (props c) (mkCells false (lastPos (cells c))) (seen c) (calls c).

(** The [clear] of the imperative handle. *)
Definition clear (c : Component) : Component :=
  mkComponent (props c) (cells c) (seen c) (calls c ++ [ClearRect]).

(** A render with props [p], its effects run: the listeners registered
    from now on are the closures of this render. *)
Definition render (p : Props) (c : Component) : Component :=
  mkComponent p (cells c) (cells c) (calls c).

(** [onMouseDown] and [onTouchStart]; [mousemove] and [touchmove];
    [mouseup] and [touchend]; a render; the eraser of the toolbar. *)
Inductive Event :=
| PointerDown (e : Pointer) (rect : Pos)
| PointerMove (e : Pointer) (rect : Pos)
| PointerUp
| Render (p : Props)
| Clear.

Definition step (ev : Event) (c : Component) : Component :=
  match ev with
  | PointerDown e rect => startDrawing e rect c
  | PointerMove e rect => draw e rect c
  | PointerUp => stopDrawing c
  | Render p => render p c
  | Clear => clear c
  end.

Definition run (evs : list Event) (c : Component) : Component :=
  foldl (λ c ev, step ev c) c evs.

(** A stroke whose every event is followed by a render: the press, then
    the moves. *)
Definition stroke (p : Props) (down : Pointer * Pos) (moves : list (Pointer * Pos))
  : list Event :=
  [PointerDown down.1 down.2; Render p]
  ++ (moves ≫= λ m, [PointerMove m.1 m.2; Render p]).

(** The lines that join a point to the points after it, one by one. *)
Fixpoint polyline (p : Props) (from : Pos) (points : list Pos) : list Call :=
  match points with
  | [] => []
  | to :: points => Line from to (color p) (lineWidth p) :: polyline p to points
  end.

Definition isLine (call : Call) : bool :=
  match call with Line _ _ _ _ => true | ClearRect => false end.

Definition isDown (ev : Event) : bool :=
  match ev with PointerDown _ _ => true | _ => false end.
End Canvas.

(** ** Expressions both variants render with *)

(** [[...gameState.players].sort((a, b) => b.score - a.score)] of the
    leaderboards.  [Array.prototype.sort] is stable and the comparator
    is a total preorder on integer scores, so the result is the one
    arrangement by falling score that keeps equal scores in roster
    order; it is computed here by insertion from the right. *)
Fixpoint insertByScore (p : Player) (sorted : list Player) : list Player :=
  match sorted with
  | [] => [p]
  | q :: rest =>
      if bool_decide (score p < score q)%Z then q :: insertByScore p rest
      else p :: sorted
  end.

Definition sortedPlayers (ps : list Player) : list Player :=
  foldr insertByScore [] ps.

(** ** Vocabulary of the statements *)

(** The roster [ps'] is the roster [ps] with no score lowered. *)
Definition scores_grow (ps ps' : list Player) : Prop :=
  Forall2 (λ p p', id p' = id p ∧ name p' = name p ∧ (score p ≤ score p')%Z) ps ps'.

(** The ids of the players a scoring screen offers: everyone but the
    row at [drawerIdx]. *)
Definition offered (ps : list Player) (drawerIdx : nat) (x : string) : Prop :=
  ∃ i p, i ≠ drawerIdx ∧ ps !! i = Some p ∧ id p = x.

(** The award a timer value adds for speed. *)
Definition speedAward (t : Z) : Z :=
  if bool_decide (SPEED_BONUS_THRESHOLD ≤ t)%Z then 1%Z else 0%Z.

(** The two awards the scoring step can add to player [p]: the drawer's,
    when somebody solved the drawing, and the guesser's. *)
Definition drawerAward (drawer : Player) (sel : gset string) (base : Z)
    (p : Player) : Z :=
  if bool_decide (id p = id drawer ∧ sel ≠ ∅) then base else 0%Z.

Definition guesserAward (sel : gset string) (base : Z) (t : Z) (p : Player) : Z :=
  if bool_decide (id p ∈ sel) then (base + speedAward t)%Z else 0%Z.

(** A choice [p] drawn for bucket [b] of [pool]: a prompt of the bucket,
    or of the whole pool when the bucket is empty. *)
Definition drawnFrom {A} (b pool : list A) (p : A) : Prop :=
  p ∈ b ∨ (b = [] ∧ p ∈ pool).

(** The place of a prompt among the three choices: the slot of its
    difficulty bucket. *)
Definition App_slot (p : App.Prompt) : nat :=
  match App.difficulty p with
  | App.easy | App.custom => 0
  | App.medium => 1
  | App.hard => 2
  end.

Definition Lobby_slot (p : Lobby.Prompt) : nat :=
  match Lobby.difficulty p with
  | Lobby.easy => 0
  | Lobby.medium => 1
  | Lobby.hard => 2
  end.

(** The hint row is on screen and shows a letter at position [i]. *)
Definition revealedAt (row : option (list HintCell)) (i : nat) : Prop :=
  ∃ cells ch, row = Some cells ∧ cells !! i = Some (Revealed ch).

(** The points of a roster, summed. *)
Definition totalScore (ps : list Player) : Z :=
  foldr (λ p acc, (score p + acc)%Z) 0%Z ps.

(** A list of players runs by falling score: no row has more points
    than a row above it. *)
Definition byFallingScore (l : list Player) : Prop :=
  ∀ i j p q, (i ≤ j)%nat → l !! i = Some p → l !! j = Some q →
    (score q ≤ score p)%Z.

(** A word as the bank editor stores it: not empty, free of commas and
    line breaks, with no white space at either end. *)
Definition cleanChars (chars : list ascii) : Prop :=
  chars ≠ []
  ∧ Forall (λ ch, App.isSeparator ch = false) chars
  ∧ from_option App.isWhiteSpace false (head chars) = false
  ∧ from_option App.isWhiteSpace false (last chars) = false.

Definition cleanWord (w : string) : Prop :=
  cleanChars (String.list_ascii_of_string w).

#[global] Instance cleanChars_dec chars : Decision (cleanChars chars).
Proof. unfold cleanChars. apply _. Defined.

#[global] Instance cleanWord_dec w : Decision (cleanWord w).
Proof. unfold cleanWord. apply _. Defined.

(** The characters a typist adds between or after words: separators and
    white space. *)
Definition blankChars (chars : list ascii) : Prop :=
  Forall (λ ch, App.isSeparator ch = true ∨ App.isWhiteSpace ch = true) chars.

(** The words of a text as lists of characters: the pieces, trimmed,
    without the empty ones. *)
Definition tokens (chars : list ascii) : list (list ascii) :=
  filter (λ w, (0 < length w)%nat) (App.trim <$> App.splitRuns chars).

(** The pieces of a list joined by [', ']: every word but the first
    carries the space of the separator before it. *)
Definition spaced (ws : list (list ascii)) : list (list ascii) :=
  match ws with
  | [] => [[]]
  | w :: ws => w :: ((λ w, " "%char :: w) <$> ws)
  end.

(** The ids of the banks of the settings modal. *)
Definition bankIds (c : App.Component) : list string :=
  App.ws_id <$> App.wordSets c.

(** ** What holds on every screen *)

(** During a turn of [App]: the roster has its two players, the drawer
    exists, and the offer is what [setupTurn] computed from the pool
    under the word source of that render. *)
Definition App_turn_ok (c : App.Component) : Prop :=
  let gs := App.gameState c in
  (2 ≤ length (App.players gs))%nat
  ∧ (App.currentPlayerIndex gs < length (App.players gs))%nat
  ∧ ∃ ws d, unit_draws d
      ∧ App.promptChoices gs = App.choicesOf ws (App.allPrompts c) d.

Definition App_inv (c : App.Component) : Prop :=
  let gs := App.gameState c in
  match App.phase gs, App.subPhase gs with
  | App.HOME, None | App.GAME_OVER, None => App.timerInterval c = false
  | App.PLAYING, Some App.GETTING_PROMPTS =>
      (2 ≤ length (App.players gs))%nat ∧ App.timerInterval c = false
  | App.PLAYING, Some App.PRE_TURN | App.PLAYING, Some App.CHOOSE_PROMPT =>
      App_turn_ok c ∧ App.timerInterval c = false ∧ App.timer gs = DEFAULT_TIME
  | App.PLAYING, Some App.DRAWING =>
      App_turn_ok c ∧ App.timerInterval c = true
      ∧ (1 ≤ App.timer gs ≤ DEFAULT_TIME)%Z
  | App.PLAYING, Some App.CONFIRM_SCORE =>
      App_turn_ok c ∧ App.timerInterval c = false
      ∧ (1 ≤ App.timer gs ≤ DEFAULT_TIME)%Z
      ∧ ∀ x, x ∈ App.selectedGuesserIds c →
          offered (App.players gs) (App.currentPlayerIndex gs) x
  | App.PLAYING, Some App.POST_TURN | App.PLAYING, Some App.ROUND_LEADERBOARD =>
      App_turn_ok c ∧ App.timerInterval c = false
  | _, _ => False
  end.

Definition Lobby_turn_ok (c : Lobby.Component) : Prop :=
  let gs := Lobby.gameState c in
  (2 ≤ length (Lobby.players gs))%nat
  ∧ (Lobby.currentPlayerIndex gs < length (Lobby.players gs))%nat
  ∧ ∃ d, unit_draws d
      ∧ Lobby.promptChoices gs = Lobby.choicesOf (Lobby.allPrompts c) d.

Definition Lobby_inv (c : Lobby.Component) : Prop :=
  let gs := Lobby.gameState c in
  match Lobby.phase gs with
  | Lobby.LOBBY | Lobby.GAME_OVER => Lobby.timerInterval c = false
  | Lobby.GETTING_PROMPTS =>
      (2 ≤ length (Lobby.players gs))%nat ∧ Lobby.timerInterval c = false
  | Lobby.PRE_TURN | Lobby.CHOOSE_PROMPT =>
      Lobby_turn_ok c ∧ Lobby.timerInterval c = false
      ∧ Lobby.timer gs = DEFAULT_TIME
  | Lobby.DRAWING =>
      Lobby_turn_ok c ∧ Lobby.timerInterval c = true
      ∧ (1 ≤ Lobby.timer gs ≤ DEFAULT_TIME)%Z
  | Lobby.CONFIRM_SCORE =>
      Lobby_turn_ok c ∧ Lobby.timerInterval c = false
      ∧ (1 ≤ Lobby.timer gs ≤ DEFAULT_TIME)%Z
      ∧ ∀ x, x ∈ Lobby.selectedGuesserIds c →
          offered (Lobby.players gs) (Lobby.currentPlayerIndex gs) x
  | Lobby.POST_TURN | Lobby.ROUND_LEADERBOARD =>
      Lobby_turn_ok c ∧ Lobby.timerInterval c = false
  end.

(** *** How far a match has come *)

(** The turns begun before the current one:
    [(rounds - 1) * players.length + currentPlayerIndex]. *)
Definition App_turnNumber (g : App.GameState) : Z :=
  ((App.rounds g - 1) * Z.of_nat (length (App.players g))
   + Z.of_nat (App.currentPlayerIndex g))%Z.

Definition Lobby_turnNumber (g : Lobby.GameState) : Z :=
  ((Lobby.rounds g - 1) * Z.of_nat (length (Lobby.players g))
   + Z.of_nat (Lobby.currentPlayerIndex g))%Z.

(** The last entry of the history is the entry of the current turn, and
    it is marked correct exactly when it lists a winner. *)
Definition App_entry_of_turn (g : App.GameState) : Prop :=
  ∃ entry drawer,
    last (App.history g) = Some entry
    ∧ App.players g !! App.currentPlayerIndex g = Some drawer
    ∧ History.playerName entry = name drawer
    ∧ History.word entry = from_option App.word EmptyString (App.currentPrompt g)
    ∧ (History.wasCorrect entry = true ↔ History.winners entry ≠ []).

(** In [App] the round counter stays within the five rounds, and the
    history holds one entry for every turn that has ended. *)
Definition App_progress (c : App.Component) : Prop :=
  let gs := App.gameState c in
  App.maxRounds gs = MAX_ROUNDS
  ∧ (1 ≤ App.rounds gs ≤ MAX_ROUNDS)%Z
  ∧ match App.phase gs, App.subPhase gs with
    | App.HOME, _ | App.PLAYING, Some App.GETTING_PROMPTS =>
        App.history gs = [] ∧ App.currentPlayerIndex gs = 0%nat
        ∧ App.rounds gs = 1%Z
    | App.PLAYING, Some App.POST_TURN =>
        Z.of_nat (length (App.history gs)) = (App_turnNumber gs + 1)%Z
        ∧ App_entry_of_turn gs
    | App.PLAYING, Some App.ROUND_LEADERBOARD =>
        Z.of_nat (length (App.history gs)) = (App_turnNumber gs + 1)%Z
        ∧ S (App.currentPlayerIndex gs) = length (App.players gs)
    | App.PLAYING, _ =>
        Z.of_nat (length (App.history gs)) = App_turnNumber gs
    | App.GAME_OVER, _ =>
        (App_turnNumber gs ≤ Z.of_nat (length (App.history gs))
         ≤ App_turnNumber gs + 1)%Z
        ∧ (App.currentPlayerIndex gs < length (App.players gs))%nat
        ∧ (2 ≤ length (App.players gs))%nat
    end.

(** In [Lobby] the round counter stays within the five rounds, and the
    history holds at most one entry for every turn that has ended. *)
Definition Lobby_progress (c : Lobby.Component) : Prop :=
  let gs := Lobby.gameState c in
  Lobby.maxRounds gs = MAX_ROUNDS
  ∧ (1 ≤ Lobby.rounds gs ≤ MAX_ROUNDS)%Z
  ∧ match Lobby.phase gs with
    | Lobby.LOBBY | Lobby.GETTING_PROMPTS =>
        Lobby.history gs = [] ∧ Lobby.currentPlayerIndex gs = 0%nat
        ∧ Lobby.rounds gs = 1%Z
    | Lobby.POST_TURN =>
        (Z.of_nat (length (Lobby.history gs)) ≤ Lobby_turnNumber gs + 1)%Z
    | Lobby.ROUND_LEADERBOARD =>
        (Z.of_nat (length (Lobby.history gs)) ≤ Lobby_turnNumber gs + 1)%Z
        ∧ S (Lobby.currentPlayerIndex gs) = length (Lobby.players gs)
    | Lobby.GAME_OVER =>
        (Z.of_nat (length (Lobby.history gs)) ≤ Lobby_turnNumber gs + 1)%Z
        ∧ (Lobby.currentPlayerIndex gs < length (Lobby.players gs))%nat
    | _ => (Z.of_nat (length (Lobby.history gs)) ≤ Lobby_turnNumber gs)%Z
    end.

(** ** Example matches *)

(** The draws 0, 0.5 and 0.9 (the binary64 value nearest to nine
    tenths). *)
Definition exDraws : Draws :=
  mkDraws (mkDraw 0 0) (mkDraw 1 1) (mkDraw 8106479329266893 53).

(** Scenario A of the spec in [App]: Alice and Bob, Alice draws an easy
    word, "SOLVED!" is pressed with 45 seconds left and Bob is ticked. *)
Definition App_exPool : list App.Prompt :=
  [ App.mkPrompt "cat" "Animals" App.easy;
    App.mkPrompt "robot" "Objects" App.medium;
    App.mkPrompt "gravity" "Abstract" App.hard;
    App.mkPrompt "sun" "Nature" App.easy ].

Definition App_exStart : list App.Event :=
  [ App.AddPlayer "a" "Alice"; App.AddPlayer "b" "Bob";
    App.StartMatch exDraws; App.PromptsArrived App_exPool exDraws ].

Definition App_exScoring : list App.Event :=
  App_exStart ++ [ App.Ready; App.SelectPrompt 0 ] ++ replicate 15 App.Tick
  ++ [ App.ConfirmSolved; App.ToggleGuesser 1 ].

Definition App_exInitial : App.Component :=
  App.initial App.src_ai [App.classicPack] "default".

Definition App_after (es : list App.Event) : App.Component :=
  default App_exInitial (App.run es App_exInitial).

(** The same match in [Lobby]. *)
Definition Lobby_exPool : list Lobby.Prompt :=
  [ Lobby.mkPrompt "cat" "Animals" Lobby.easy;
    Lobby.mkPrompt "robot" "Objects" Lobby.medium;
    Lobby.mkPrompt "gravity" "Abstract" Lobby.hard;
    Lobby.mkPrompt "sun" "Nature" Lobby.easy ].

Definition Lobby_exStart : list Lobby.Event :=
  [ Lobby.AddPlayer "a" "Alice"; Lobby.AddPlayer "b" "Bob";
    Lobby.StartGame; Lobby.PromptsArrived Lobby_exPool exDraws ].

Definition Lobby_exScoring : list Lobby.Event :=
  Lobby_exStart ++ [ Lobby.Ready; Lobby.ChoosePrompt 0 ]
  ++ replicate 15 Lobby.Tick ++ [ Lobby.EnterScoring; Lobby.ToggleGuesser 1 ].

Definition Lobby_after (es : list Lobby.Event) : Lobby.Component :=
  default Lobby.initial (Lobby.run es Lobby.initial).

(** The scoring screen of scenario A with the drawer's own id ticked (no
    control of the screen does that; the handler accepts it). *)
Definition App_exDrawerTicked : App.Component :=
  App.set_selectedGuesserIds {["a"]} (App_after App_exScoring).

(** Scenario A scored: Bob's guess is submitted. *)
Definition App_exScored : list App.Event := App_exScoring ++ [ App.SubmitScore ].

(** Scenario B: the same turn confirmed with 10 seconds left. *)
Definition App_exScoredLate : list App.Event :=
  App_exStart ++ [ App.Ready; App.SelectPrompt 0 ] ++ replicate 50 App.Tick
  ++ [ App.ConfirmSolved; App.ToggleGuesser 1; App.SubmitScore ].

Definition Lobby_exScoredLate : list Lobby.Event :=
  Lobby_exStart ++ [ Lobby.Ready; Lobby.ChoosePrompt 0 ]
  ++ replicate 50 Lobby.Tick
  ++ [ Lobby.EnterScoring; Lobby.ToggleGuesser 1; Lobby.FinalizeScore ].

(** Then Bob draws and skips: the last turn of round 1 is over. *)
Definition App_exRoundOver : list App.Event :=
  App_exScored
  ++ [ App.NextTurn exDraws; App.Ready; App.SelectPrompt 1; App.SkipTurn ].

(** A custom bank of exactly three words, none of them easy. *)
Definition App_exBank : App.WordSet :=
  App.mkWordSet "b" "Three words" [] ["Robot"] ["Gravity"; "Library"].

Definition App_exBankChoosing : list App.Event :=
  [ App.AddPlayer "a" "Alice"; App.AddPlayer "b" "Bob";
    App.StartMatch exDraws; App.Ready ].

Definition App_afterBank (es : list App.Event) : App.Component :=
  default (App.initial App.src_custom [App_exBank] "b")
    (App.run es (App.initial App.src_custom [App_exBank] "b")).

(** [App]: the match is started from the home screen while the settings
    modal is open, two prompts arrive, and the word source is switched
    to the custom bank in the modal; the first turn is skipped and the
    second player is about to choose. *)
Definition App_exTwoPrompts : list App.Event :=
  [ App.AddPlayer "a" "Alice"; App.AddPlayer "b" "Bob"; App.OpenSettings;
    App.StartMatch exDraws;
    App.PromptsArrived [ App.mkPrompt "cat" "Animals" App.easy;
                         App.mkPrompt "robot" "Objects" App.medium ] exDraws;
    App.SetWordSource App.src_custom;
    App.Ready; App.SelectPrompt 0; App.SkipTurn; App.NextTurn exDraws;
    App.Ready ].

(** [Lobby]: the first turn is solved by Bob, the second (Bob draws) runs
    out of time. *)
Definition Lobby_exTimeout : list Lobby.Event :=
  Lobby_exScoring
  ++ [ Lobby.FinalizeScore; Lobby.NextTurn exDraws; Lobby.Ready; Lobby.ChoosePrompt 0 ]
  ++ replicate 60 Lobby.Tick.

(** [Lobby]: the first turn is surrendered at once. *)
Definition Lobby_exSurrender : list Lobby.Event :=
  Lobby_exStart ++ [ Lobby.Ready; Lobby.ChoosePrompt 0; Lobby.Surrender ].

(** [Lobby]: the first turn with one second left. *)
Definition Lobby_exLastSecond : list Lobby.Event :=
  Lobby_exStart ++ [ Lobby.Ready; Lobby.ChoosePrompt 0 ] ++ replicate 59 Lobby.Tick.

(** A drawing screen for word [w] of the easy tier with [t] seconds left. *)
Definition Lobby_exDrawing (w : string) (t : Z) : Lobby.GameState :=
  Lobby.mkGameState [mkPlayer "a" "Alice" 0; mkPlayer "b" "Bob" 0] 0
    (Some (Lobby.mkPrompt w "Animals" Lobby.easy)) [] Lobby.DRAWING t 1
    MAX_ROUNDS [].

Definition App_exDrawing (w : string) (t : Z) : App.GameState :=
  App.mkGameState App.PLAYING (Some App.DRAWING)
    [mkPlayer "a" "Alice" 0; mkPlayer "b" "Bob" 0] 0
    (Some (App.mkPrompt w "Animals" App.easy)) [] t 1 MAX_ROUNDS App.src_ai [].

(** ** Proof steps that recur *)

Ltac split_on_vars H :=
  repeat match type of H with
  | context [match ?x with _ => _ end] =>
      is_var x; destruct x; cbn in H; try discriminate H
  end.

Ltac app_unfold H :=
  unfold App.startMatch, App.startMatch_resumed, App.selectPrompt, App.tick,
    App.confirmSolved, App.skipTurn, App.submitScore, App.nextTurn,
    App.nextRound, App.endEarly, App.restartMatch, App.exitToHome,
    App.addPlayer, App.removePlayer, App.toggleGuesser, App.failedEntry,
    App.handleCreateSet, App.handleDeleteSet, App.handleUpdateActiveName,
    App.handleUpdateActiveWords, App.mapActive, App.setupTurn,
    App.setGameState, App.clearInterval in H;
  cbn in H.

Ltac app_facts :=
  repeat match goal with
  | H : App_inv _ |- _ => unfold App_inv, App_turn_ok in H; cbn in H
  | H : _ ∧ _ |- _ => destruct H
  | H : ∃ _, _ |- _ => destruct H
  | H : False |- _ => destruct H
  end.

Ltac lobby_unfold H :=
  unfold Lobby.startGame, Lobby.startGame_resumed, Lobby.choosePrompt,
    Lobby.tick, Lobby.enterScoringPhase, Lobby.finalizeScore,
    Lobby.handleNextTurn, Lobby.proceedFromRoundLeaderboard,
    Lobby.endGameEarly, Lobby.addPlayer, Lobby.removePlayer,
    Lobby.toggleGuesser, Lobby.surrenderTurn, Lobby.startTurnSetup,
    Lobby.setGameState, Lobby.clearInterval in H;
  cbn in H.

Ltac lobby_facts :=
  repeat match goal with
  | H : Lobby_inv _ |- _ => unfold Lobby_inv, Lobby_turn_ok in H; cbn in H
  | H : _ ∧ _ |- _ => destruct H
  | H : ∃ _, _ |- _ => destruct H
  end.

(** * Properties *)

(** ** The scoring step *)

Lemma size_pos_nonempty (sel : gset string) :
  bool_decide (0 < size sel)%nat = bool_decide (sel ≠ ∅).
Proof.
  apply bool_decide_ext. split.
  - intros H ->. rewrite size_empty in H. lia.
  - intros H. destruct (decide (size sel = 0%nat)) as [E|E]; [|lia].
    apply size_empty_inv in E. fold_leibniz. done.
Qed.

Lemma App_awardPlayer_score drawer sel base t p :
  score (App.awardPlayer drawer sel base (bool_decide (SPEED_BONUS_THRESHOLD ≤ t)%Z) p)
  = (score p + (drawerAward drawer sel base p + guesserAward sel base t p))%Z.
Proof.
  unfold App.awardPlayer, drawerAward, guesserAward, speedAward.
  cbn [score with_score]. rewrite size_pos_nonempty.
  repeat case_bool_decide; simpl; first [lia | exfalso; tauto].
Qed.

Lemma Lobby_awardPlayer_score drawer sel base t p :
  score (Lobby.awardPlayer drawer sel base (bool_decide (SPEED_BONUS_THRESHOLD ≤ t)%Z) p)
  = (score p + (drawerAward drawer sel base p + guesserAward sel base t p))%Z.
Proof.
  unfold Lobby.awardPlayer, drawerAward, guesserAward, speedAward.
  cbn [score with_score]. rewrite size_pos_nonempty.
  repeat case_bool_decide; simpl; first [lia | exfalso; tauto].
Qed.

Lemma App_basePoints_pos g : (1 ≤ App.basePoints g ≤ 3)%Z.
Proof. unfold App.basePoints. destruct (App.currentPrompt g) as [[? ? []]|]; simpl; lia. Qed.

Lemma Lobby_basePoints_pos g : (1 ≤ Lobby.basePoints g ≤ 3)%Z.
Proof. unfold Lobby.basePoints. destruct (Lobby.currentPrompt g) as [[? ? []]|]; simpl; lia. Qed.

Lemma speedAward_range t : (0 ≤ speedAward t ≤ 1)%Z.
Proof. unfold speedAward. case_bool_decide; lia. Qed.

Lemma awards_nonneg drawer sel base t p :
  (0 ≤ base)%Z → (0 ≤ drawerAward drawer sel base p + guesserAward sel base t p)%Z.
Proof.
  intros Hb. pose proof (speedAward_range t).
  unfold drawerAward, guesserAward. repeat case_bool_decide; lia.
Qed.

(** What [submitScore] leaves behind, field by field. *)
Lemma App_submitScore_spec c c' :
  App.submitScore c = Some c' →
  ∃ drawer,
    App.players (App.gameState c) !! App.currentPlayerIndex (App.gameState c) = Some drawer
    ∧ App.players (App.gameState c')
      = App.awardPlayer drawer (App.selectedGuesserIds c)
          (App.basePoints (App.gameState c)) (App.isSpeedBonus (App.gameState c))
          <$> App.players (App.gameState c)
    ∧ App.history (App.gameState c')
      = App.history (App.gameState c) ++
        [History.mkEntry (name drawer)
           (from_option App.word EmptyString (App.currentPrompt (App.gameState c)))
           (bool_decide (0 < size (App.selectedGuesserIds c))%nat)
           (name <$> filter (λ p, id p ∈ App.selectedGuesserIds c)
                       (App.players (App.gameState c)))]
    ∧ App.subPhase (App.gameState c') = Some App.POST_TURN
    ∧ App.phase (App.gameState c') = App.phase (App.gameState c)
    ∧ App.currentPlayerIndex (App.gameState c') = App.currentPlayerIndex (App.gameState c)
    ∧ App.timer (App.gameState c') = App.timer (App.gameState c)
    ∧ App.rounds (App.gameState c') = App.rounds (App.gameState c).
Proof.
  unfold App.submitScore. intros H.
  destruct (App.players _ !! _) as [drawer|] eqn:Hd; simplify_eq/=.
  exists drawer. done.
Qed.

Lemma App_submitScore_total c :
  (App.currentPlayerIndex (App.gameState c) < length (App.players (App.gameState c)))%nat →
  is_Some (App.submitScore c).
Proof.
  intros H. apply lookup_lt_is_Some in H as [d Hd].
  unfold App.submitScore. rewrite Hd. simpl. eauto.
Qed.

Lemma Lobby_finalizeScore_spec c c' :
  Lobby.finalizeScore c = Some c' →
  ∃ drawer,
    Lobby.players (Lobby.gameState c) !! Lobby.currentPlayerIndex (Lobby.gameState c) = Some drawer
    ∧ Lobby.players (Lobby.gameState c')
      = Lobby.awardPlayer drawer (Lobby.selectedGuesserIds c)
          (Lobby.basePoints (Lobby.gameState c)) (Lobby.isSpeedBonus (Lobby.gameState c))
          <$> Lobby.players (Lobby.gameState c)
    ∧ Lobby.history (Lobby.gameState c')
      = Lobby.history (Lobby.gameState c) ++
        [History.mkEntry (name drawer)
           (from_option Lobby.word EmptyString (Lobby.currentPrompt (Lobby.gameState c)))
           (bool_decide (0 < size (Lobby.selectedGuesserIds c))%nat)
           (name <$> filter (λ p, id p ∈ Lobby.selectedGuesserIds c)
                       (Lobby.players (Lobby.gameState c)))]
    ∧ Lobby.phase (Lobby.gameState c') = Lobby.POST_TURN
    ∧ Lobby.currentPlayerIndex (Lobby.gameState c') = Lobby.currentPlayerIndex (Lobby.gameState c)
    ∧ Lobby.timer (Lobby.gameState c') = Lobby.timer (Lobby.gameState c)
    ∧ Lobby.rounds (Lobby.gameState c') = Lobby.rounds (Lobby.gameState c).
Proof.
  unfold Lobby.finalizeScore. intros H.
  destruct (Lobby.players _ !! _) as [drawer|] eqn:Hd; simplify_eq/=.
  exists drawer. done.
Qed.

Lemma Lobby_finalizeScore_total c :
  (Lobby.currentPlayerIndex (Lobby.gameState c) < length (Lobby.players (Lobby.gameState c)))%nat →
  is_Some (Lobby.finalizeScore c).
Proof.
  intros H. apply lookup_lt_is_Some in H as [d Hd].
  unfold Lobby.finalizeScore. rewrite Hd. simpl. eauto.
Qed.

(** ** Draws and the offer of three prompts *)

Lemma roundShift_exact m : roundShift m 0 = m.
Proof.
  unfold roundShift. rewrite Z.pow_0_r, Z.div_1_r, Z.mod_1_r.
  by rewrite bool_decide_eq_true_2 by lia.
Qed.

(** Rounding moves a number by at most half a unit of the last place,
    and never below the integer part. *)
Lemma roundShift_near m s :
  (0 ≤ s)%Z →
  (2 * (roundShift m s * 2 ^ s) ≤ 2 * m + 2 ^ s)%Z
  ∧ (m `div` 2 ^ s ≤ roundShift m s)%Z.
Proof.
  intros Hs. assert (0 < 2 ^ s)%Z as Hpos by (apply Z.pow_pos_nonneg; lia).
  pose proof (Z.div_mod m (2 ^ s) ltac:(lia)) as Hdm.
  pose proof (Z.mod_pos_bound m (2 ^ s) Hpos) as Hmod.
  unfold roundShift. repeat case_bool_decide; try destruct (Z.even _); nia.
Qed.

Lemma unit_draw_top r :
  unit_draw r → (mant r * 2 ^ 53 ≤ (2 ^ 53 - 1) * 2 ^ scale r)%Z.
Proof.
  intros ([H0 H1] & [Hk _] & Hlt).
  destruct (decide (53 ≤ scale r)%Z) as [Hge|Hlt'].
  - assert (2 ^ 53 ≤ 2 ^ scale r)%Z by (apply Z.pow_le_mono_r; lia). nia.
  - assert (2 ^ scale r ≤ 2 ^ 53)%Z by (apply Z.pow_le_mono_r; lia). nia.
Qed.

(** The floor of the rounded product stays below every bound the exact
    product stays below by one part in 2^53. *)
Lemma floor_product_lt p k B :
  (0 ≤ p)%Z → (0 ≤ k)%Z → (0 < B)%Z →
  (p * 2 ^ 53 ≤ B * (2 ^ 53 - 1) * 2 ^ k)%Z →
  (Z.shiftr (roundShift p (Z.max 0 (Z.log2 p - 52))) (k - Z.max 0 (Z.log2 p - 52)) < B)%Z.
Proof.
  intros Hp Hk HB Hle.
  assert (0 < 2 ^ k)%Z as Hk2 by (apply Z.pow_pos_nonneg; lia).
  set (s := Z.max 0 (Z.log2 p - 52)).
  assert (roundShift p s * 2 ^ s < B * 2 ^ k)%Z as Hlt.
  { destruct (decide (Z.log2 p ≤ 52)%Z) as [Hsmall|Hbig].
    - replace s with 0%Z by lia. rewrite roundShift_exact, Z.pow_0_r. nia.
    - assert (0 < p)%Z as Hp'.
      { destruct (Z.le_gt_cases p 0) as [Hz|]; [|lia].
        rewrite (Z.log2_nonpos p Hz) in Hbig. lia. }
      destruct (Z.log2_spec p Hp') as [Hlo _].
      assert (s = Z.log2 p - 52)%Z as Hs by lia.
      assert (0 < 2 ^ s)%Z as Hs2 by (apply Z.pow_pos_nonneg; lia).
      assert (2 ^ s * 2 ^ 53 ≤ 2 * p)%Z as Hulp.
      { replace (2 * p)%Z with (2 ^ 1 * p)%Z by lia.
        rewrite <- Z.pow_add_r by lia.
        replace (s + 53)%Z with (1 + Z.log2 p)%Z by lia.
        rewrite Z.pow_add_r by (pose proof (Z.log2_nonneg p); lia). nia. }
      destruct (roundShift_near p s ltac:(lia)) as [Hnear _].
      set (q := (roundShift p s * 2 ^ s)%Z) in *.
      assert (q * 2 ^ 53 ≤ p * (2 ^ 53 + 1))%Z by nia.
      assert (q * 2 ^ 53 * 2 ^ 53 ≤ B * 2 ^ k * ((2 ^ 53 - 1) * (2 ^ 53 + 1)))%Z by nia.
      nia. }
  destruct (decide (s ≤ k)%Z) as [Hsk|Hsk].
  - rewrite Z.shiftr_div_pow2 by lia.
    assert (0 < 2 ^ s)%Z as Hs2 by (apply Z.pow_pos_nonneg; lia).
    apply Z.div_lt_upper_bound; [apply Z.pow_pos_nonneg; lia|].
    replace (2 ^ k)%Z with (2 ^ (k - s) * 2 ^ s)%Z in Hlt
      by (rewrite <- Z.pow_add_r by lia; f_equal; lia).
    nia.
  - rewrite Z.shiftr_mul_pow2 by lia.
    replace (2 ^ s)%Z with (2 ^ (- (k - s)) * 2 ^ k)%Z in Hlt
      by (rewrite <- Z.pow_add_r by lia; f_equal; lia).
    nia.
Qed.

(** The floor of the rounded product is at least every integer the
    exact product is at least, as long as no bit of an integer is lost. *)
Lemma floor_product_ge p k i :
  (0 ≤ i)%Z → (0 ≤ k)%Z → (i * 2 ^ k ≤ p)%Z →
  (Z.max 0 (Z.log2 p - 52) ≤ k)%Z →
  (i ≤ Z.shiftr (roundShift p (Z.max 0 (Z.log2 p - 52))) (k - Z.max 0 (Z.log2 p - 52)))%Z.
Proof.
  intros Hi Hk Hle Hsk. set (s := Z.max 0 (Z.log2 p - 52)) in *.
  assert (0 < 2 ^ s)%Z as Hs2 by (apply Z.pow_pos_nonneg; lia).
  rewrite Z.shiftr_div_pow2 by lia.
  apply Z.div_le_lower_bound; [apply Z.pow_pos_nonneg; lia|].
  destruct (roundShift_near p s ltac:(lia)) as [_ Hfloor].
  etrans; [|apply Hfloor].
  apply Z.div_le_lower_bound; [done|].
  replace (2 ^ k)%Z with (2 ^ (k - s) * 2 ^ s)%Z in Hle
    by (rewrite <- Z.pow_add_r by lia; f_equal; lia).
  nia.
Qed.

Lemma random_index_lt r n : unit_draw r → (0 < n)%nat → (random_index r n < n)%nat.
Proof.
  intros Hr Hn. pose proof (unit_draw_top r Hr) as Htop.
  destruct Hr as ([H0 H1] & [Hk _] & Hlt). unfold random_index.
  pose proof (floor_product_lt (mant r * Z.of_nat n) (scale r) (Z.of_nat n)
                ltac:(lia) Hk ltac:(lia) ltac:(nia)).
  lia.
Qed.

(** The index a draw picks: every draw from [i / len] up to
    [(i + 1) / len], less one part in 2^53, picks index [i]. *)
Lemma random_index_interval r len i :
  unit_draw r → (i < len)%nat → (Z.of_nat len < 2 ^ 53)%Z →
  (Z.of_nat i * 2 ^ scale r ≤ mant r * Z.of_nat len)%Z →
  (mant r * Z.of_nat len * 2 ^ 53 ≤ (Z.of_nat i + 1) * (2 ^ 53 - 1) * 2 ^ scale r)%Z →
  random_index r len = i.
Proof.
  intros Hr Hi Hlen Hlo Hhi.
  destruct Hr as ([H0 H1] & [Hk _] & Hlt). unfold random_index.
  set (p := (mant r * Z.of_nat len)%Z) in *.
  assert (0 ≤ p)%Z as Hp by (unfold p; lia).
  pose proof (floor_product_lt p (scale r) (Z.of_nat i + 1) Hp Hk ltac:(lia) Hhi) as Hup.
  assert (Z.max 0 (Z.log2 p - 52) ≤ scale r)%Z as Hsk.
  { destruct (decide (p = 0%Z)) as [Hz|Hne]; [rewrite Hz; cbn; lia|].
    assert (p < 2 ^ (scale r + 53))%Z as Hpk.
    { rewrite Z.pow_add_r by lia. unfold p.
      assert (0 < 2 ^ scale r)%Z by (apply Z.pow_pos_nonneg; lia). nia. }
    apply Z.log2_lt_pow2 in Hpk; lia. }
  pose proof (floor_product_ge p (scale r) (Z.of_nat i) ltac:(lia) Hk Hlo Hsk) as Hdn.
  lia.
Qed.

(** No index of an array is out of the reach of [Math.random()]. *)
Lemma random_index_reaches i len :
  (i < len)%nat → (Z.of_nat len < 2 ^ 32)%Z →
  ∃ r, unit_draw r ∧ random_index r len = i.
Proof.
  intros Hi Hlen.
  set (n := Z.of_nat len). set (m := ((Z.of_nat i * 2 ^ 53 + n - 1) `div` n)%Z).
  assert (0 < n)%Z as Hn by (unfold n; lia).
  pose proof (Z.div_mod (Z.of_nat i * 2 ^ 53 + n - 1) n ltac:(lia)) as Hdm.
  pose proof (Z.mod_pos_bound (Z.of_nat i * 2 ^ 53 + n - 1) n Hn) as Hmod.
  fold m in Hdm.
  assert (0 ≤ m)%Z as Hm0 by (apply Z.div_pos; lia).
  assert (m < 2 ^ 53)%Z as Hm1.
  { apply Z.div_lt_upper_bound; [done|]. unfold n in *. nia. }
  exists (mkDraw m 53). split; [repeat split; cbn; lia|].
  apply random_index_interval; cbn; [repeat split; cbn; lia|done|lia|..];
    fold n; unfold n in *; nia.
Qed.

(** The index a draw picks, read on the exact product: whenever
    [r * len] lies between [i] and [i + 1] less one part in 2^53, the
    index is [i]. *)
Lemma random_index_between r len i :
  unit_draw r → (i < len)%nat → (Z.of_nat len < 2 ^ 32)%Z →
  (inject_Z (Z.of_nat i) <= value r * inject_Z (Z.of_nat len))%Q →
  (value r * inject_Z (Z.of_nat len)
   <= inject_Z (Z.of_nat i + 1) * (1 - (1 # 2 ^ 53)))%Q →
  random_index r len = i.
Proof.
  intros Hr Hi Hlen Hlo Hhi.
  assert (0 < 2 ^ scale r)%Z as Hpos.
  { destruct Hr as (_ & [? _] & _). apply Z.pow_pos_nonneg; lia. }
  apply random_index_interval; [done|done|lia|..].
  - unfold Qle, value, Qmult, inject_Z in Hlo. cbn in Hlo.
    rewrite Pos.mul_1_r, Z2Pos.id in Hlo by done. lia.
  - unfold Qle, value, Qmult, Qminus, Qplus, Qopp, inject_Z in Hhi. cbn in Hhi.
    rewrite !Pos.mul_1_r, Z2Pos.id in Hhi by done. lia.
Qed.

Lemma unit_draw_zero : unit_draw (mkDraw 0 0).
Proof. by vm_compute. Qed.

Lemma rnd_reaches {A} (arr : list A) x :
  (Z.of_nat (length arr) < 2 ^ 32)%Z → x ∈ arr →
  ∃ r, unit_draw r ∧ rnd r arr = Some x.
Proof.
  intros Hlen [i Hi]%list_elem_of_lookup_1.
  destruct (random_index_reaches i (length arr)) as (r & Hr & E).
  { by eapply lookup_lt_Some. }
  { done. }
  exists r. split; [done|]. unfold rnd. by rewrite E.
Qed.

Lemma rnd_elem_of {A} r (arr : list A) :
  unit_draw r → arr ≠ [] → ∃ x, rnd r arr = Some x ∧ x ∈ arr.
Proof.
  intros Hr Hne. unfold rnd.
  destruct (lookup_lt_is_Some_2 arr (random_index r (length arr))) as [x Hx].
  { apply random_index_lt; [done|]. destruct arr; [done|simpl; lia]. }
  exists x. split; [done|]. by eapply list_elem_of_lookup_2.
Qed.

Lemma rnd_empty {A} r : rnd r (@nil A) = None.
Proof. done. Qed.

Lemma App_orElse_elem_of {A} (arr fb : list A) x :
  x ∈ App.orElse arr fb → x ∈ arr ∨ (arr = [] ∧ x ∈ fb).
Proof. unfold App.orElse. destruct arr; simpl; auto. Qed.

Lemma App_orElse_nonempty {A} (arr fb : list A) :
  fb ≠ [] → App.orElse arr fb ≠ [].
Proof. unfold App.orElse. destruct arr; done. Qed.

Lemma Lobby_orElse_elem_of {A} (arr fb : list A) x :
  x ∈ Lobby.orElse arr fb → x ∈ arr ∨ (arr = [] ∧ x ∈ fb).
Proof. unfold Lobby.orElse. destruct arr; simpl; auto. Qed.

Lemma Lobby_orElse_nonempty {A} (arr fb : list A) :
  fb ≠ [] → Lobby.orElse arr fb ≠ [].
Proof. unfold Lobby.orElse. destruct arr; done. Qed.

(** A draw for one bucket: a prompt of the bucket, or of the whole
    pool when the bucket is empty. *)
Lemma App_draw_bucket r (b pool : list App.Prompt) :
  unit_draw r → pool ≠ [] →
  ∃ p, rnd r (App.orElse b pool) = Some p ∧ (p ∈ b ∨ (b = [] ∧ p ∈ pool)).
Proof.
  intros Hr Hne.
  destruct (rnd_elem_of r (App.orElse b pool) Hr) as (p & Hp & Hin).
  { by apply App_orElse_nonempty. }
  exists p. split; [done|]. by apply App_orElse_elem_of.
Qed.

Lemma Lobby_draw_bucket r (b pool : list Lobby.Prompt) :
  unit_draw r → pool ≠ [] →
  ∃ p, rnd r (Lobby.orElse b pool) = Some p ∧ (p ∈ b ∨ (b = [] ∧ p ∈ pool)).
Proof.
  intros Hr Hne.
  destruct (rnd_elem_of r (Lobby.orElse b pool) Hr) as (p & Hp & Hin).
  { by apply Lobby_orElse_nonempty. }
  exists p. split; [done|]. by apply Lobby_orElse_elem_of.
Qed.

Lemma App_choicesOf_length ws pool d :
  (ws = App.src_custom → (3 ≤ length pool)%nat) →
  length (App.choicesOf ws pool d) = 3%nat.
Proof.
  intros H. unfold App.choicesOf. case_bool_decide as Hc; [done|].
  rewrite length_fmap, length_take. destruct ws; [tauto|]. specialize (H eq_refl). lia.
Qed.

Lemma Lobby_choicesOf_length pool d : length (Lobby.choicesOf pool d) = 3%nat.
Proof. done. Qed.

(** ** The screen invariants are kept by every event *)

Lemma App_inv_initial ws sets sel : App_inv (App.initial ws sets sel).
Proof. done. Qed.

(** A control of the settings modal leaves the turn where it is: it
    writes the word source, the banks, the selection and the modal's own
    flag, and nothing the screens' invariants speak of. *)
Lemma App_onSettings_frame e c c1 :
  App.onSettings e c = Some c1 →
  ∃ ws sets sid open,
    c1 = App.mkComponent (App.set_wordSource ws (App.gameState c))
           (App.allPrompts c) (App.selectedGuesserIds c) open sets sid
           (App.timerInterval c).
Proof.
  intros Hd. destruct c as [[ph sp ps cur cp pcs t r mr ws h] pool sel open sets sid ti].
  destruct e; cbn in Hd; try discriminate Hd;
    repeat case_bool_decide; simplify_eq; try (by repeat eexists).
  - unfold App.handleDeleteSet. cbn. repeat case_bool_decide; by repeat eexists.
  - destruct d; simplify_eq/=; by repeat eexists.
Qed.

Lemma App_onSettings_inv e c c1 :
  App.onSettings e c = Some c1 → App_inv c → App_inv (App.timerEffect c c1).
Proof.
  intros Hd Hinv. destruct (App_onSettings_frame _ _ _ Hd) as (ws & sets & sid & open & ->).
  unfold App.timerEffect. cbn. rewrite bool_decide_eq_true_2 by done.
  by destruct c as [[]].
Qed.

Lemma offered_remove ps cur (sel : gset string) y :
  (∀ x, x ∈ sel → offered ps cur x) → ∀ x, x ∈ sel ∖ {[y]} → offered ps cur x.
Proof. intros H x [Hx _]%elem_of_difference. auto. Qed.

Lemma offered_add ps cur (sel : gset string) i p :
  i ≠ cur → ps !! i = Some p →
  (∀ x, x ∈ sel → offered ps cur x) → ∀ x, x ∈ sel ∪ {[id p]} → offered ps cur x.
Proof.
  intros Hi Hp H x [Hx|Hx]%elem_of_union; [auto|].
  apply elem_of_singleton in Hx as ->. by exists i, p.
Qed.

Lemma App_step_inv e c c' : App.step e c = Some c' → App_inv c → App_inv c'.
Proof.
  unfold App.step. destruct (App.validDraws e) eqn:Hv; [|done].
  intros Hs Hinv. destruct (App.dispatch e c) as [c1|] eqn:Hd; simplify_eq/=.
  destruct (App.isSettingsControl e) eqn:Hctl.
  { destruct e; try discriminate Hctl; unfold App.dispatch in Hd;
      cbn [App.isSettingsControl] in Hd;
      destruct (App.isSettingsOpen c); try discriminate Hd;
      by eapply App_onSettings_inv. }
  destruct c as [[ph sp ps cur cp pcs t r mr ws h] pool sel open sets sid ti].
  destruct ph, sp as [[]|]; app_facts;
    destruct e; try discriminate Hctl; subst;
    unfold App.dispatch, App.onScreen in Hd; cbn in Hd;
    try discriminate Hd; try (apply bool_decide_eq_true in Hv); app_unfold Hd.
  all: repeat (case_bool_decide; destruct_and?; simplify_eq);
       try (split_on_vars Hd; try discriminate Hd).
  all: simplify_option_eq.
  all: repeat match goal with
       | |- context [match ?x with _ => _ end] => is_var x; destruct x; cbn
       end.
  all: unfold App_inv, App_turn_ok, App.timerEffect; cbn.
  all: repeat (case_bool_decide; destruct_and?; simplify_eq); cbn.
  all: repeat split; rewrite ?length_fmap; try done; try lia;
       eauto using offered_remove, offered_add.
  all: try (apply Nat.mod_upper_bound; lia).
  all: exfalso; match goal with H : ¬ _ |- _ => apply H end;
       unfold DEFAULT_TIME in *; split; [done | lia].
Qed.

Lemma Lobby_inv_initial : Lobby_inv Lobby.initial.
Proof. done. Qed.

Lemma Lobby_step_inv e c c' :
  Lobby.step e c = Some c' → Lobby_inv c → Lobby_inv c'.
Proof.
  unfold Lobby.step. destruct (Lobby.validDraws e) eqn:Hv; [|done].
  intros Hs Hinv. destruct (Lobby.dispatch e c) as [c1|] eqn:Hd; simplify_eq/=.
  destruct c as [[ps cur cp pcs ph t r mr h] pool sel ti].
  destruct ph; lobby_facts;
    destruct e; subst; unfold Lobby.dispatch, Lobby.onScreen in Hd; cbn in Hd;
    try discriminate Hd; try (apply bool_decide_eq_true in Hv); lobby_unfold Hd.
  all: repeat (case_bool_decide; destruct_and?; simplify_eq).
  all: simplify_option_eq.
  all: unfold Lobby_inv, Lobby_turn_ok, Lobby.timerEffect; cbn.
  all: repeat (case_bool_decide; destruct_and?; simplify_eq); cbn.
  all: repeat split; rewrite ?length_fmap; try done; try lia;
       eauto using offered_remove, offered_add.
  all: try (apply Nat.mod_upper_bound; lia).
  all: exfalso; match goal with H : ¬ _ |- _ => apply H end;
       unfold DEFAULT_TIME in *; split; [done | lia].
Qed.

(** ** Every reachable state satisfies its screen's invariant *)

Lemma App_run_inv es : ∀ c c', App.run es c = Some c' → App_inv c → App_inv c'.
Proof.
  induction es as [|e es IH]; intros c c' Hrun Hinv; simplify_eq/=; [done|].
  destruct (App.step e c) as [c1|] eqn:Hs; simplify_eq/=.
  eauto using App_step_inv.
Qed.

Lemma App_reachable_inv c : App.reachable c → App_inv c.
Proof.
  intros (ws & sets & sel & es & Hrun).
  eapply App_run_inv; [done|apply App_inv_initial].
Qed.

Lemma Lobby_run_inv es :
  ∀ c c', Lobby.run es c = Some c' → Lobby_inv c → Lobby_inv c'.
Proof.
  induction es as [|e es IH]; intros c c' Hrun Hinv; simplify_eq/=; [done|].
  destruct (Lobby.step e c) as [c1|] eqn:Hs; simplify_eq/=.
  eauto using Lobby_step_inv.
Qed.

Lemma Lobby_reachable_inv c : Lobby.reachable c → Lobby_inv c.
Proof.
  intros (es & Hrun). eapply Lobby_run_inv; [done|apply Lobby_inv_initial].
Qed.

(** The effect of the re-render only touches the interval. *)
Lemma App_timerEffect_gameState c c1 :
  App.gameState (App.timerEffect c c1) = App.gameState c1.
Proof. unfold App.timerEffect. by case_bool_decide. Qed.

Lemma Lobby_timerEffect_gameState c c1 :
  Lobby.gameState (Lobby.timerEffect c c1) = Lobby.gameState c1.
Proof. unfold Lobby.timerEffect. by case_bool_decide. Qed.

(** The invariant, read off on the screens the claims speak of. *)
Lemma App_inv_subPhase c sp :
  App_inv c → App.subPhase (App.gameState c) = Some sp →
  App.phase (App.gameState c) = App.PLAYING.
Proof.
  unfold App_inv, App_turn_ok. intros Hinv Hsp. rewrite Hsp in Hinv.
  by destruct (App.phase _), sp.
Qed.

Lemma App_inv_turn c sp :
  App_inv c → App.subPhase (App.gameState c) = Some sp →
  sp ≠ App.GETTING_PROMPTS → App_turn_ok c.
Proof.
  unfold App_inv. intros Hinv Hsp Hne. rewrite Hsp in Hinv.
  destruct (App.phase _), sp; try done; tauto.
Qed.

Lemma App_inv_confirm c :
  App_inv c → App.subPhase (App.gameState c) = Some App.CONFIRM_SCORE →
  (1 ≤ App.timer (App.gameState c) ≤ DEFAULT_TIME)%Z
  ∧ ∀ x, x ∈ App.selectedGuesserIds c →
      offered (App.players (App.gameState c))
        (App.currentPlayerIndex (App.gameState c)) x.
Proof.
  unfold App_inv. intros Hinv Hsp. rewrite Hsp in Hinv.
  destruct (App.phase _); try done; tauto.
Qed.

Lemma Lobby_inv_turn c :
  Lobby_inv c →
  Lobby.phase (Lobby.gameState c) ≠ Lobby.LOBBY →
  Lobby.phase (Lobby.gameState c) ≠ Lobby.GETTING_PROMPTS →
  Lobby.phase (Lobby.gameState c) ≠ Lobby.GAME_OVER →
  Lobby_turn_ok c.
Proof.
  unfold Lobby_inv. intros Hinv H1 H2 H3.
  destruct (Lobby.phase _); try done; tauto.
Qed.

Lemma Lobby_inv_confirm c :
  Lobby_inv c → Lobby.phase (Lobby.gameState c) = Lobby.CONFIRM_SCORE →
  (1 ≤ Lobby.timer (Lobby.gameState c) ≤ DEFAULT_TIME)%Z
  ∧ ∀ x, x ∈ Lobby.selectedGuesserIds c →
      offered (Lobby.players (Lobby.gameState c))
        (Lobby.currentPlayerIndex (Lobby.gameState c)) x.
Proof. unfold Lobby_inv. intros Hinv Hsp. rewrite Hsp in Hinv. tauto. Qed.

(** On the scoring screen the submit control runs the scoring handler. *)
Lemma App_step_SubmitScore c :
  App.phase (App.gameState c) = App.PLAYING →
  App.subPhase (App.gameState c) = Some App.CONFIRM_SCORE →
  App.step App.SubmitScore c = App.timerEffect c <$> App.submitScore c.
Proof.
  intros Hp Hs. unfold App.step, App.dispatch, App.onScreen. cbn.
  rewrite Hp, Hs. by destruct (App.submitScore c).
Qed.

Lemma Lobby_step_FinalizeScore c :
  Lobby.phase (Lobby.gameState c) = Lobby.CONFIRM_SCORE →
  Lobby.step Lobby.FinalizeScore c = Lobby.timerEffect c <$> Lobby.finalizeScore c.
Proof.
  intros Hp. unfold Lobby.step, Lobby.dispatch, Lobby.onScreen. cbn.
  rewrite Hp. by destruct (Lobby.finalizeScore c).
Qed.

(** ** The awards of one scored turn *)

(** With distinct ids, a player the scoring screen offers is not the
    drawer. *)
Lemma offered_not_drawer ps cur drawer i p :
  NoDup (id <$> ps) → ps !! cur = Some drawer → ps !! i = Some p →
  offered ps cur (id p) → id p ≠ id drawer.
Proof.
  intros Hnd Hd Hp (j & q & Hj & Hq & Hid) Heq.
  assert (i = j) as ->.
  { eapply NoDup_lookup; [exact Hnd| |]; rewrite list_lookup_fmap.
    - by rewrite Hp.
    - rewrite Hq. simpl. by rewrite Hid. }
  apply Hj. eapply NoDup_lookup; [exact Hnd| |]; rewrite list_lookup_fmap.
  - by rewrite Hp.
  - rewrite Hd. simpl. by rewrite Heq.
Qed.

Lemma drawerAward_drawer drawer sel base :
  drawerAward drawer sel base drawer = if bool_decide (sel ≠ ∅) then base else 0%Z.
Proof. unfold drawerAward. repeat case_bool_decide; first [done | exfalso; tauto]. Qed.

Lemma drawerAward_other drawer sel base p :
  id p ≠ id drawer → drawerAward drawer sel base p = 0%Z.
Proof. intros H. unfold drawerAward. case_bool_decide; [exfalso; tauto|done]. Qed.

Lemma guesserAward_in sel base t p :
  id p ∈ sel → guesserAward sel base t p = (base + speedAward t)%Z.
Proof. intros H. unfold guesserAward. by rewrite bool_decide_eq_true_2. Qed.

Lemma guesserAward_out sel base t p :
  id p ∉ sel → guesserAward sel base t p = 0%Z.
Proof. intros H. unfold guesserAward. by rewrite bool_decide_eq_false_2. Qed.

(** [submitScore], player by player: every row keeps its id and name and
    gains the sum of the two awards. *)
Lemma App_submitScore_player c c' drawer i p :
  App.submitScore c = Some c' →
  App.players (App.gameState c) !! App.currentPlayerIndex (App.gameState c)
    = Some drawer →
  App.players (App.gameState c) !! i = Some p →
  ∃ p', App.players (App.gameState c') !! i = Some p'
        ∧ id p' = id p ∧ name p' = name p
        ∧ score p' = (score p
            + (drawerAward drawer (App.selectedGuesserIds c)
                 (App.basePoints (App.gameState c)) p
               + guesserAward (App.selectedGuesserIds c)
                   (App.basePoints (App.gameState c))
                   (App.timer (App.gameState c)) p))%Z.
Proof.
  intros Hs Hd Hp. apply App_submitScore_spec in Hs as (d & Hd' & Hps & _).
  simplify_eq. eexists. rewrite Hps, list_lookup_fmap, Hp. simpl.
  split; [done|]. split; [done|]. split; [done|].
  apply App_awardPlayer_score.
Qed.

Lemma Lobby_finalizeScore_player c c' drawer i p :
  Lobby.finalizeScore c = Some c' →
  Lobby.players (Lobby.gameState c) !! Lobby.currentPlayerIndex (Lobby.gameState c)
    = Some drawer →
  Lobby.players (Lobby.gameState c) !! i = Some p →
  ∃ p', Lobby.players (Lobby.gameState c') !! i = Some p'
        ∧ id p' = id p ∧ name p' = name p
        ∧ score p' = (score p
            + (drawerAward drawer (Lobby.selectedGuesserIds c)
                 (Lobby.basePoints (Lobby.gameState c)) p
               + guesserAward (Lobby.selectedGuesserIds c)
                   (Lobby.basePoints (Lobby.gameState c))
                   (Lobby.timer (Lobby.gameState c)) p))%Z.
Proof.
  intros Hs Hd Hp. apply Lobby_finalizeScore_spec in Hs as (d & Hd' & Hps & _).
  simplify_eq. eexists. rewrite Hps, list_lookup_fmap, Hp. simpl.
  split; [done|]. split; [done|]. split; [done|].
  apply Lobby_awardPlayer_score.
Qed.

(** The scoring step of a reachable scoring screen: it goes through, and
    leaves the roster [submitScore] computes. *)
Lemma App_scored_turn c :
  App.reachable c →
  App.subPhase (App.gameState c) = Some App.CONFIRM_SCORE →
  ∃ c1 drawer,
    App.submitScore c = Some c1
    ∧ App.step App.SubmitScore c = Some (App.timerEffect c c1)
    ∧ App.players (App.gameState c) !! App.currentPlayerIndex (App.gameState c)
      = Some drawer
    ∧ ∀ x, x ∈ App.selectedGuesserIds c →
        offered (App.players (App.gameState c))
          (App.currentPlayerIndex (App.gameState c)) x.
Proof.
  intros Hr Hsp. apply App_reachable_inv in Hr.
  pose proof (App_inv_subPhase _ _ Hr Hsp) as Hp.
  destruct (App_inv_turn _ _ Hr Hsp) as (_ & Hcur & _); [done|].
  destruct (App_inv_confirm _ Hr Hsp) as [_ Hoff].
  destruct (App_submitScore_total c Hcur) as [c1 Hc1].
  destruct (App_submitScore_spec _ _ Hc1) as (drawer & Hd & _).
  exists c1, drawer. rewrite App_step_SubmitScore, Hc1 by done. done.
Qed.

Lemma Lobby_scored_turn c :
  Lobby.reachable c →
  Lobby.phase (Lobby.gameState c) = Lobby.CONFIRM_SCORE →
  ∃ c1 drawer,
    Lobby.finalizeScore c = Some c1
    ∧ Lobby.step Lobby.FinalizeScore c = Some (Lobby.timerEffect c c1)
    ∧ Lobby.players (Lobby.gameState c) !! Lobby.currentPlayerIndex (Lobby.gameState c)
      = Some drawer
    ∧ ∀ x, x ∈ Lobby.selectedGuesserIds c →
        offered (Lobby.players (Lobby.gameState c))
          (Lobby.currentPlayerIndex (Lobby.gameState c)) x.
Proof.
  intros Hr Hsp. apply Lobby_reachable_inv in Hr.
  destruct (Lobby_inv_turn _ Hr) as (_ & Hcur & _); [by rewrite Hsp..|].
  destruct (Lobby_inv_confirm _ Hr Hsp) as [_ Hoff].
  destruct (Lobby_finalizeScore_total c Hcur) as [c1 Hc1].
  destruct (Lobby_finalizeScore_spec _ _ Hc1) as (drawer & Hd & _).
  exists c1, drawer. rewrite Lobby_step_FinalizeScore, Hc1 by done. done.
Qed.

Lemma speedAward_bonus t : (SPEED_BONUS_THRESHOLD ≤ t)%Z → speedAward t = 1%Z.
Proof. intros H. unfold speedAward. by rewrite bool_decide_eq_true_2. Qed.

Lemma speedAward_none t : (t < SPEED_BONUS_THRESHOLD)%Z → speedAward t = 0%Z.
Proof. intros H. unfold speedAward. rewrite bool_decide_eq_false_2; [done|lia]. Qed.

Lemma App_guesser_gain c :
  App.reachable c →
  NoDup (id <$> App.players (App.gameState c)) →
  App.subPhase (App.gameState c) = Some App.CONFIRM_SCORE →
  ∃ c', App.step App.SubmitScore c = Some c'
    ∧ ∀ i p, App.players (App.gameState c) !! i = Some p →
        id p ∈ App.selectedGuesserIds c →
        ∃ p', App.players (App.gameState c') !! i = Some p'
          ∧ id p' = id p
          ∧ score p' = (score p + (App.basePoints (App.gameState c)
                                   + speedAward (App.timer (App.gameState c))))%Z.
Proof.
  intros Hr Hnd Hsp.
  destruct (App_scored_turn c Hr Hsp) as (c1 & drawer & Hc1 & Hstep & Hd & Hoff).
  eexists. split; [exact Hstep|]. intros i p Hp Hin.
  destruct (App_submitScore_player _ _ _ _ _ Hc1 Hd Hp) as (p' & Hp' & Hid & _ & Hsc).
  exists p'. rewrite App_timerEffect_gameState. split; [done|]. split; [done|].
  rewrite Hsc, drawerAward_other, guesserAward_in; [lia|done|].
  eapply offered_not_drawer; eauto.
Qed.

Lemma Lobby_guesser_gain c :
  Lobby.reachable c →
  NoDup (id <$> Lobby.players (Lobby.gameState c)) →
  Lobby.phase (Lobby.gameState c) = Lobby.CONFIRM_SCORE →
  ∃ c', Lobby.step Lobby.FinalizeScore c = Some c'
    ∧ ∀ i p, Lobby.players (Lobby.gameState c) !! i = Some p →
        id p ∈ Lobby.selectedGuesserIds c →
        ∃ p', Lobby.players (Lobby.gameState c') !! i = Some p'
          ∧ id p' = id p
          ∧ score p' = (score p + (Lobby.basePoints (Lobby.gameState c)
                                   + speedAward (Lobby.timer (Lobby.gameState c))))%Z.
Proof.
  intros Hr Hnd Hsp.
  destruct (Lobby_scored_turn c Hr Hsp) as (c1 & drawer & Hc1 & Hstep & Hd & Hoff).
  eexists. split; [exact Hstep|]. intros i p Hp Hin.
  destruct (Lobby_finalizeScore_player _ _ _ _ _ Hc1 Hd Hp) as (p' & Hp' & Hid & _ & Hsc).
  exists p'. rewrite Lobby_timerEffect_gameState. split; [done|]. split; [done|].
  rewrite Hsc, drawerAward_other, guesserAward_in; [lia|done|].
  eapply offered_not_drawer; eauto.
Qed.

Lemma App_drawer_gain c :
  App.reachable c →
  NoDup (id <$> App.players (App.gameState c)) →
  App.subPhase (App.gameState c) = Some App.CONFIRM_SCORE →
  ∃ c' drawer drawer',
    App.step App.SubmitScore c = Some c'
    ∧ App.players (App.gameState c) !! App.currentPlayerIndex (App.gameState c)
      = Some drawer
    ∧ App.players (App.gameState c') !! App.currentPlayerIndex (App.gameState c)
      = Some drawer'
    ∧ score drawer' = (score drawer
        + if bool_decide (App.selectedGuesserIds c ≠ ∅)
          then App.basePoints (App.gameState c) else 0)%Z.
Proof.
  intros Hr Hnd Hsp.
  destruct (App_scored_turn c Hr Hsp) as (c1 & drawer & Hc1 & Hstep & Hd & Hoff).
  destruct (App_submitScore_player _ _ _ _ _ Hc1 Hd Hd) as (p' & Hp' & Hid & _ & Hsc).
  exists (App.timerEffect c c1), drawer, p'. rewrite App_timerEffect_gameState.
  split; [done|]. split; [done|]. split; [done|].
  rewrite Hsc, drawerAward_drawer, guesserAward_out; [lia|].
  intros Hin. by eapply (offered_not_drawer _ _ drawer _ drawer); eauto.
Qed.

Lemma Lobby_drawer_gain c :
  Lobby.reachable c →
  NoDup (id <$> Lobby.players (Lobby.gameState c)) →
  Lobby.phase (Lobby.gameState c) = Lobby.CONFIRM_SCORE →
  ∃ c' drawer drawer',
    Lobby.step Lobby.FinalizeScore c = Some c'
    ∧ Lobby.players (Lobby.gameState c) !! Lobby.currentPlayerIndex (Lobby.gameState c)
      = Some drawer
    ∧ Lobby.players (Lobby.gameState c') !! Lobby.currentPlayerIndex (Lobby.gameState c)
      = Some drawer'
    ∧ score drawer' = (score drawer
        + if bool_decide (Lobby.selectedGuesserIds c ≠ ∅)
          then Lobby.basePoints (Lobby.gameState c) else 0)%Z.
Proof.
  intros Hr Hnd Hsp.
  destruct (Lobby_scored_turn c Hr Hsp) as (c1 & drawer & Hc1 & Hstep & Hd & Hoff).
  destruct (Lobby_finalizeScore_player _ _ _ _ _ Hc1 Hd Hd) as (p' & Hp' & Hid & _ & Hsc).
  exists (Lobby.timerEffect c c1), drawer, p'. rewrite Lobby_timerEffect_gameState.
  split; [done|]. split; [done|]. split; [done|].
  rewrite Hsc, drawerAward_drawer, guesserAward_out; [lia|].
  intros Hin. by eapply (offered_not_drawer _ _ drawer _ drawer); eauto.
Qed.

(** ** Speed bonus, drawer reward, and the drawer among the guessers *)

(** C1.  Speed bonus.  On every scoring screen a match can reach (the
    roster's ids being distinct), submitting the score goes through, and
    every player whose id is in [selectedGuesserIds] gains
    [basePoints + 1] when the timer stands at 30 or more, and exactly
    [basePoints] when it stands below 30.  Both components.  On the
    handlers alone, for any state: a selected player whose id is not the
    drawer's gains [basePoints] plus the speed award. *)
Theorem C1_speed_bonus :
  (∀ c, App.reachable c →
     NoDup (id <$> App.players (App.gameState c)) →
     App.subPhase (App.gameState c) = Some App.CONFIRM_SCORE →
     ∃ c', App.step App.SubmitScore c = Some c'
       ∧ ∀ i p, App.players (App.gameState c) !! i = Some p →
           id p ∈ App.selectedGuesserIds c →
           ∃ p', App.players (App.gameState c') !! i = Some p'
             ∧ id p' = id p
             ∧ ((30 ≤ App.timer (App.gameState c))%Z →
                score p' = (score p + (App.basePoints (App.gameState c) + 1))%Z)
             ∧ ((App.timer (App.gameState c) < 30)%Z →
                score p' = (score p + App.basePoints (App.gameState c))%Z))
  ∧ (∀ c, Lobby.reachable c →
     NoDup (id <$> Lobby.players (Lobby.gameState c)) →
     Lobby.phase (Lobby.gameState c) = Lobby.CONFIRM_SCORE →
     ∃ c', Lobby.step Lobby.FinalizeScore c = Some c'
       ∧ ∀ i p, Lobby.players (Lobby.gameState c) !! i = Some p →
           id p ∈ Lobby.selectedGuesserIds c →
           ∃ p', Lobby.players (Lobby.gameState c') !! i = Some p'
             ∧ id p' = id p
             ∧ ((30 ≤ Lobby.timer (Lobby.gameState c))%Z →
                score p' = (score p + (Lobby.basePoints (Lobby.gameState c) + 1))%Z)
             ∧ ((Lobby.timer (Lobby.gameState c) < 30)%Z →
                score p' = (score p + Lobby.basePoints (Lobby.gameState c))%Z))
  ∧ (∀ c c' drawer i p, App.submitScore c = Some c' →
       App.players (App.gameState c) !! App.currentPlayerIndex (App.gameState c)
         = Some drawer →
       App.players (App.gameState c) !! i = Some p →
       id p ∈ App.selectedGuesserIds c → id p ≠ id drawer →
       ∃ p', App.players (App.gameState c') !! i = Some p'
         ∧ score p' = (score p + (App.basePoints (App.gameState c)
                                  + speedAward (App.timer (App.gameState c))))%Z)
  ∧ (∀ c c' drawer i p, Lobby.finalizeScore c = Some c' →
       Lobby.players (Lobby.gameState c) !! Lobby.currentPlayerIndex (Lobby.gameState c)
         = Some drawer →
       Lobby.players (Lobby.gameState c) !! i = Some p →
       id p ∈ Lobby.selectedGuesserIds c → id p ≠ id drawer →
       ∃ p', Lobby.players (Lobby.gameState c') !! i = Some p'
         ∧ score p' = (score p + (Lobby.basePoints (Lobby.gameState c)
                                  + speedAward (Lobby.timer (Lobby.gameState c))))%Z).
Proof.
  split; [|split; [|split]]; [intros c Hr Hnd Hsp..| |].
  - destruct (App_guesser_gain c Hr Hnd Hsp) as (c' & Hstep & Hgain).
    exists c'. split; [done|]. intros i p Hp Hin.
    destruct (Hgain i p Hp Hin) as (p' & Hp' & Hid & Hsc).
    exists p'. split; [done|]. split; [done|].
    split; intros Ht; rewrite Hsc.
    + by rewrite speedAward_bonus.
    + rewrite speedAward_none; [lia|done].
  - destruct (Lobby_guesser_gain c Hr Hnd Hsp) as (c' & Hstep & Hgain).
    exists c'. split; [done|]. intros i p Hp Hin.
    destruct (Hgain i p Hp Hin) as (p' & Hp' & Hid & Hsc).
    exists p'. split; [done|]. split; [done|].
    split; intros Ht; rewrite Hsc.
    + by rewrite speedAward_bonus.
    + rewrite speedAward_none; [lia|done].
  - intros c c' drawer i p Hs Hd Hp Hin Hne.
    destruct (App_submitScore_player _ _ _ _ _ Hs Hd Hp) as (p' & Hp' & _ & _ & Hsc).
    exists p'. split; [done|].
    rewrite Hsc, drawerAward_other, guesserAward_in by done. lia.
  - intros c c' drawer i p Hs Hd Hp Hin Hne.
    destruct (Lobby_finalizeScore_player _ _ _ _ _ Hs Hd Hp) as (p' & Hp' & _ & _ & Hsc).
    exists p'. split; [done|].
    rewrite Hsc, drawerAward_other, guesserAward_in by done. lia.
Qed.

Lemma C1_speed_bonus_witness :
  App.reachable (App_after App_exScoring)
  ∧ NoDup (id <$> App.players (App.gameState (App_after App_exScoring)))
  ∧ App.subPhase (App.gameState (App_after App_exScoring)) = Some App.CONFIRM_SCORE
  ∧ ∃ c', App.step App.SubmitScore (App_after App_exScoring) = Some c'
      ∧ ∀ i p,
          App.players (App.gameState (App_after App_exScoring)) !! i = Some p →
          id p ∈ App.selectedGuesserIds (App_after App_exScoring) →
          ∃ p', App.players (App.gameState c') !! i = Some p'
            ∧ id p' = id p
            ∧ ((30 ≤ App.timer (App.gameState (App_after App_exScoring)))%Z →
               score p' = (score p
                 + (App.basePoints (App.gameState (App_after App_exScoring)) + 1))%Z)
            ∧ ((App.timer (App.gameState (App_after App_exScoring)) < 30)%Z →
               score p' = (score p
                 + App.basePoints (App.gameState (App_after App_exScoring)))%Z).
Proof.
  assert (App.reachable (App_after App_exScoring)) as Hr.
  { exists App.src_ai, [App.classicPack], "default"%string, App_exScoring.
    vm_compute. reflexivity. }
  assert (NoDup (id <$> App.players (App.gameState (App_after App_exScoring)))) as Hnd.
  { refine (bool_decide_unpack _ _). vm_compute. exact I. }
  assert (App.subPhase (App.gameState (App_after App_exScoring))
          = Some App.CONFIRM_SCORE) as Hsp.
  { vm_compute. reflexivity. }
  split; [exact Hr|]. split; [exact Hnd|]. split; [exact Hsp|].
  exact (proj1 C1_speed_bonus (App_after App_exScoring) Hr Hnd Hsp).
Defined.

(** C2.  Drawer reward.  On every scoring screen a match can reach (ids
    distinct), submitting the score raises the drawer's score iff
    [selectedGuesserIds] is not empty, and then by exactly [basePoints]:
    the timer, and so the speed bonus, plays no part.  Both components.
    On the handlers alone, for any state whose drawer is not selected:
    the drawer gains [basePoints] if somebody is selected, else 0. *)
Theorem C2_drawer_reward :
  (∀ c, App.reachable c →
     NoDup (id <$> App.players (App.gameState c)) →
     App.subPhase (App.gameState c) = Some App.CONFIRM_SCORE →
     ∃ c' drawer drawer',
       App.step App.SubmitScore c = Some c'
       ∧ App.players (App.gameState c) !! App.currentPlayerIndex (App.gameState c)
         = Some drawer
       ∧ App.players (App.gameState c') !! App.currentPlayerIndex (App.gameState c)
         = Some drawer'
       ∧ ((score drawer < score drawer')%Z ↔ App.selectedGuesserIds c ≠ ∅)
       ∧ (App.selectedGuesserIds c ≠ ∅ →
          score drawer' = (score drawer + App.basePoints (App.gameState c))%Z)
       ∧ (App.selectedGuesserIds c = ∅ → score drawer' = score drawer))
  ∧ (∀ c, Lobby.reachable c →
     NoDup (id <$> Lobby.players (Lobby.gameState c)) →
     Lobby.phase (Lobby.gameState c) = Lobby.CONFIRM_SCORE →
     ∃ c' drawer drawer',
       Lobby.step Lobby.FinalizeScore c = Some c'
       ∧ Lobby.players (Lobby.gameState c) !! Lobby.currentPlayerIndex (Lobby.gameState c)
         = Some drawer
       ∧ Lobby.players (Lobby.gameState c') !! Lobby.currentPlayerIndex (Lobby.gameState c)
         = Some drawer'
       ∧ ((score drawer < score drawer')%Z ↔ Lobby.selectedGuesserIds c ≠ ∅)
       ∧ (Lobby.selectedGuesserIds c ≠ ∅ →
          score drawer' = (score drawer + Lobby.basePoints (Lobby.gameState c))%Z)
       ∧ (Lobby.selectedGuesserIds c = ∅ → score drawer' = score drawer))
  ∧ (∀ c c' drawer, App.submitScore c = Some c' →
       App.players (App.gameState c) !! App.currentPlayerIndex (App.gameState c)
         = Some drawer →
       id drawer ∉ App.selectedGuesserIds c →
       ∃ drawer',
         App.players (App.gameState c') !! App.currentPlayerIndex (App.gameState c)
           = Some drawer'
         ∧ score drawer' = (score drawer
             + if bool_decide (App.selectedGuesserIds c ≠ ∅)
               then App.basePoints (App.gameState c) else 0)%Z)
  ∧ (∀ c c' drawer, Lobby.finalizeScore c = Some c' →
       Lobby.players (Lobby.gameState c) !! Lobby.currentPlayerIndex (Lobby.gameState c)
         = Some drawer →
       id drawer ∉ Lobby.selectedGuesserIds c →
       ∃ drawer',
         Lobby.players (Lobby.gameState c') !! Lobby.currentPlayerIndex (Lobby.gameState c)
           = Some drawer'
         ∧ score drawer' = (score drawer
             + if bool_decide (Lobby.selectedGuesserIds c ≠ ∅)
               then Lobby.basePoints (Lobby.gameState c) else 0)%Z).
Proof.
  split; [|split; [|split]]; [intros c Hr Hnd Hsp..| |].
  - destruct (App_drawer_gain c Hr Hnd Hsp) as (c' & d & d' & Hstep & Hd & Hd' & Hsc).
    pose proof (App_basePoints_pos (App.gameState c)) as Hb.
    exists c', d, d'. repeat split; try done; revert Hsc; case_bool_decide; intros; try lia;
      first [done | exfalso; tauto | subst; tauto].
  - destruct (Lobby_drawer_gain c Hr Hnd Hsp) as (c' & d & d' & Hstep & Hd & Hd' & Hsc).
    pose proof (Lobby_basePoints_pos (Lobby.gameState c)) as Hb.
    exists c', d, d'. repeat split; try done; revert Hsc; case_bool_decide; intros; try lia;
      first [done | exfalso; tauto | subst; tauto].
  - intros c c' drawer Hs Hd Hout.
    destruct (App_submitScore_player _ _ _ _ _ Hs Hd Hd) as (d' & Hd' & _ & _ & Hsc).
    exists d'. split; [done|].
    rewrite Hsc, drawerAward_drawer, guesserAward_out by done. lia.
  - intros c c' drawer Hs Hd Hout.
    destruct (Lobby_finalizeScore_player _ _ _ _ _ Hs Hd Hd) as (d' & Hd' & _ & _ & Hsc).
    exists d'. split; [done|].
    rewrite Hsc, drawerAward_drawer, guesserAward_out by done. lia.
Qed.

Lemma C2_drawer_reward_witness :
  Lobby.reachable (Lobby_after Lobby_exScoring)
  ∧ NoDup (id <$> Lobby.players (Lobby.gameState (Lobby_after Lobby_exScoring)))
  ∧ Lobby.phase (Lobby.gameState (Lobby_after Lobby_exScoring)) = Lobby.CONFIRM_SCORE
  ∧ ∃ c' drawer drawer',
      Lobby.step Lobby.FinalizeScore (Lobby_after Lobby_exScoring) = Some c'
      ∧ Lobby.players (Lobby.gameState (Lobby_after Lobby_exScoring))
          !! Lobby.currentPlayerIndex (Lobby.gameState (Lobby_after Lobby_exScoring))
        = Some drawer
      ∧ Lobby.players (Lobby.gameState c')
          !! Lobby.currentPlayerIndex (Lobby.gameState (Lobby_after Lobby_exScoring))
        = Some drawer'
      ∧ ((score drawer < score drawer')%Z
         ↔ Lobby.selectedGuesserIds (Lobby_after Lobby_exScoring) ≠ ∅)
      ∧ (Lobby.selectedGuesserIds (Lobby_after Lobby_exScoring) ≠ ∅ →
         score drawer' = (score drawer
           + Lobby.basePoints (Lobby.gameState (Lobby_after Lobby_exScoring)))%Z)
      ∧ (Lobby.selectedGuesserIds (Lobby_after Lobby_exScoring) = ∅ →
         score drawer' = score drawer).
Proof.
  assert (Lobby.reachable (Lobby_after Lobby_exScoring)) as Hr.
  { exists Lobby_exScoring. vm_compute. reflexivity. }
  assert (NoDup (id <$> Lobby.players (Lobby.gameState (Lobby_after Lobby_exScoring))))
    as Hnd.
  { refine (bool_decide_unpack _ _). vm_compute. exact I. }
  assert (Lobby.phase (Lobby.gameState (Lobby_after Lobby_exScoring))
          = Lobby.CONFIRM_SCORE) as Hsp.
  { vm_compute. reflexivity. }
  split; [exact Hr|]. split; [exact Hnd|]. split; [exact Hsp|].
  exact (proj1 (proj2 C2_drawer_reward) (Lobby_after Lobby_exScoring) Hr Hnd Hsp).
Defined.

Lemma selected_nonempty (sel : gset string) x : x ∈ sel → sel ≠ ∅.
Proof. intros H ->. by apply not_elem_of_empty in H. Qed.

(** The winners of a scored turn hold the name of every roster row whose
    id is selected. *)
Lemma winners_hold (ps : list Player) (sel : gset string) i p :
  ps !! i = Some p → id p ∈ sel →
  name p ∈ name <$> filter (λ q, id q ∈ sel) ps.
Proof.
  intros Hp Hin. apply list_elem_of_fmap. exists p. split; [done|].
  apply list_elem_of_filter. split; [done|]. by eapply list_elem_of_lookup_2.
Qed.

(** C10.  The scoring handler adds a drawer award and a guesser award
    independently and does not take the drawer's id out of the guesser
    set: whenever the drawer's own id is in [selectedGuesserIds], the
    handler raises the drawer's score by [2 * basePoints], plus 1 when
    the speed bonus applies, and the drawer's name is among the winners
    of the history entry it appends.  Both components. *)
Theorem C10_drawer_among_guessers :
  (∀ c drawer,
     App.players (App.gameState c) !! App.currentPlayerIndex (App.gameState c)
       = Some drawer →
     id drawer ∈ App.selectedGuesserIds c →
     ∃ c' drawer' entry,
       App.submitScore c = Some c'
       ∧ App.players (App.gameState c') !! App.currentPlayerIndex (App.gameState c)
         = Some drawer'
       ∧ score drawer' = (score drawer
           + (2 * App.basePoints (App.gameState c)
              + speedAward (App.timer (App.gameState c))))%Z
       ∧ last (App.history (App.gameState c')) = Some entry
       ∧ name drawer ∈ History.winners entry
       ∧ ∀ i p, App.players (App.gameState c) !! i = Some p →
           ∃ p', App.players (App.gameState c') !! i = Some p'
             ∧ score p' = (score p
                 + (drawerAward drawer (App.selectedGuesserIds c)
                      (App.basePoints (App.gameState c)) p
                    + guesserAward (App.selectedGuesserIds c)
                        (App.basePoints (App.gameState c))
                        (App.timer (App.gameState c)) p))%Z)
  ∧ (∀ c drawer,
     Lobby.players (Lobby.gameState c) !! Lobby.currentPlayerIndex (Lobby.gameState c)
       = Some drawer →
     id drawer ∈ Lobby.selectedGuesserIds c →
     ∃ c' drawer' entry,
       Lobby.finalizeScore c = Some c'
       ∧ Lobby.players (Lobby.gameState c') !! Lobby.currentPlayerIndex (Lobby.gameState c)
         = Some drawer'
       ∧ score drawer' = (score drawer
           + (2 * Lobby.basePoints (Lobby.gameState c)
              + speedAward (Lobby.timer (Lobby.gameState c))))%Z
       ∧ last (Lobby.history (Lobby.gameState c')) = Some entry
       ∧ name drawer ∈ History.winners entry
       ∧ ∀ i p, Lobby.players (Lobby.gameState c) !! i = Some p →
           ∃ p', Lobby.players (Lobby.gameState c') !! i = Some p'
             ∧ score p' = (score p
                 + (drawerAward drawer (Lobby.selectedGuesserIds c)
                      (Lobby.basePoints (Lobby.gameState c)) p
                    + guesserAward (Lobby.selectedGuesserIds c)
                        (Lobby.basePoints (Lobby.gameState c))
                        (Lobby.timer (Lobby.gameState c)) p))%Z).
Proof.
  split; intros c drawer Hd Hin.
  - destruct (App_submitScore_total c) as [c' Hc']; [by eapply lookup_lt_Some|].
    destruct (App_submitScore_player _ _ _ _ _ Hc' Hd Hd) as (d' & Hd' & _ & _ & Hsc).
    destruct (App_submitScore_spec _ _ Hc') as (d0 & Hd0 & _ & Hh & _). simplify_eq.
    eexists c', d', _. split; [done|]. split; [done|]. split.
    { rewrite Hsc, drawerAward_drawer, guesserAward_in by done.
      rewrite bool_decide_eq_true_2; [lia|by eapply selected_nonempty]. }
    split; [by rewrite Hh, last_snoc|]. split; [by eapply winners_hold|].
    intros i p Hp.
    destruct (App_submitScore_player _ _ _ _ _ Hc' Hd Hp) as (p' & ? & _ & _ & ?).
    eauto.
  - destruct (Lobby_finalizeScore_total c) as [c' Hc']; [by eapply lookup_lt_Some|].
    destruct (Lobby_finalizeScore_player _ _ _ _ _ Hc' Hd Hd) as (d' & Hd' & _ & _ & Hsc).
    destruct (Lobby_finalizeScore_spec _ _ Hc') as (d0 & Hd0 & _ & Hh & _). simplify_eq.
    eexists c', d', _. split; [done|]. split; [done|]. split.
    { rewrite Hsc, drawerAward_drawer, guesserAward_in by done.
      rewrite bool_decide_eq_true_2; [lia|by eapply selected_nonempty]. }
    split; [by rewrite Hh, last_snoc|]. split; [by eapply winners_hold|].
    intros i p Hp.
    destruct (Lobby_finalizeScore_player _ _ _ _ _ Hc' Hd Hp) as (p' & ? & _ & _ & ?).
    eauto.
Qed.

(** ** Round wrap, refused start, and scores that only grow *)

(** C7.  Round wrap.  With at least two players, [nextTurn] at the last
    player index answers with the round leaderboard (so not with the
    next PRE_TURN) and changes nothing else; proceeding from the
    leaderboard when [rounds] equals [maxRounds] ends the game and leaves
    [rounds] as it is.  Both components. *)
Theorem C7_round_wrap :
  (∀ c d,
     (2 ≤ length (App.players (App.gameState c)))%nat →
     App.currentPlayerIndex (App.gameState c)
       = (length (App.players (App.gameState c)) - 1)%nat →
     ∃ c', App.nextTurn d c = Some c'
       ∧ App.subPhase (App.gameState c') = Some App.ROUND_LEADERBOARD
       ∧ App.subPhase (App.gameState c') ≠ Some App.PRE_TURN
       ∧ c' = App.setGameState (App.set_subPhase (Some App.ROUND_LEADERBOARD)) c)
  ∧ (∀ c d,
     App.rounds (App.gameState c) = App.maxRounds (App.gameState c) →
     App.phase (App.gameState (App.nextRound d c)) = App.GAME_OVER
     ∧ App.rounds (App.gameState (App.nextRound d c)) = App.rounds (App.gameState c))
  ∧ (∀ c d,
     (2 ≤ length (Lobby.players (Lobby.gameState c)))%nat →
     Lobby.currentPlayerIndex (Lobby.gameState c)
       = (length (Lobby.players (Lobby.gameState c)) - 1)%nat →
     ∃ c', Lobby.handleNextTurn d c = Some c'
       ∧ Lobby.phase (Lobby.gameState c') = Lobby.ROUND_LEADERBOARD
       ∧ Lobby.phase (Lobby.gameState c') ≠ Lobby.PRE_TURN
       ∧ c' = Lobby.setGameState (Lobby.set_phase Lobby.ROUND_LEADERBOARD) c)
  ∧ (∀ c d,
     Lobby.rounds (Lobby.gameState c) = Lobby.maxRounds (Lobby.gameState c) →
     Lobby.phase (Lobby.gameState (Lobby.proceedFromRoundLeaderboard d c))
       = Lobby.GAME_OVER
     ∧ Lobby.rounds (Lobby.gameState (Lobby.proceedFromRoundLeaderboard d c))
       = Lobby.rounds (Lobby.gameState c)).
Proof.
  split; [|split; [|split]].
  - intros c d Hn Hcur. unfold App.nextTurn. rewrite Hcur.
    rewrite bool_decide_eq_false_2 by lia.
    replace (length (App.players (App.gameState c)) - 1 + 1)%nat
      with (length (App.players (App.gameState c))) by lia.
    rewrite Nat.Div0.mod_same, bool_decide_eq_true_2 by done.
    eexists. split; [done|]. done.
  - intros c d Hr. unfold App.nextRound.
    rewrite bool_decide_eq_true_2 by lia. done.
  - intros c d Hn Hcur. unfold Lobby.handleNextTurn. rewrite Hcur.
    rewrite bool_decide_eq_false_2 by lia.
    replace (length (Lobby.players (Lobby.gameState c)) - 1 + 1)%nat
      with (length (Lobby.players (Lobby.gameState c))) by lia.
    rewrite Nat.Div0.mod_same, bool_decide_eq_true_2 by done.
    eexists. split; [done|]. done.
  - intros c d Hr. unfold Lobby.proceedFromRoundLeaderboard.
    rewrite bool_decide_eq_true_2 by lia. done.
Qed.

(** C9.  Starting with fewer than two players is refused in silence:
    [startMatch] returns the component as it was and asks nothing of
    the outside (no prompt request, no alert), and the start control
    leaves every state it can be pressed in unchanged.  Both
    components. *)
Theorem C9_start_refused :
  (∀ c d, (length (App.players (App.gameState c)) < 2)%nat →
     App.startMatch d c = (c, [])
     ∧ ∀ c', App.step (App.StartMatch d) c = Some c' → c' = c)
  ∧ (∀ c, (length (Lobby.players (Lobby.gameState c)) < 2)%nat →
     Lobby.startGame c = (c, None)
     ∧ ∀ c', Lobby.step Lobby.StartGame c = Some c' → c' = c).
Proof.
  split.
  - intros c d Hn.
    assert (App.startMatch d c = (c, [])) as Hs.
    { unfold App.startMatch. by rewrite bool_decide_eq_true_2. }
    split; [done|]. intros c'. unfold App.step, App.dispatch, App.onScreen.
    destruct (App.validDraws _); [|done].
    cbn [App.isSettingsControl]. cbn zeta.
    destruct (App.phase (App.gameState c)),
      (App.subPhase (App.gameState c)) as [[]|]; simpl; try done;
      rewrite Hs; simpl; unfold App.timerEffect;
      rewrite bool_decide_eq_true_2 by done; congruence.
  - intros c Hn.
    assert (Lobby.startGame c = (c, None)) as Hs.
    { unfold Lobby.startGame. by rewrite bool_decide_eq_true_2. }
    split; [done|]. intros c'. unfold Lobby.step, Lobby.dispatch, Lobby.onScreen.
    cbn. destruct (Lobby.phase (Lobby.gameState c)); simpl; try done.
    rewrite Hs. simpl. unfold Lobby.timerEffect.
    rewrite bool_decide_eq_true_2 by done. congruence.
Qed.

(** *** Scores *)

Lemma scores_grow_refl ps : scores_grow ps ps.
Proof. apply Forall_Forall2_diag, Forall_forall. intros p _. repeat split. lia. Qed.

Lemma scores_grow_trans ps1 ps2 ps3 :
  scores_grow ps1 ps2 → scores_grow ps2 ps3 → scores_grow ps1 ps3.
Proof.
  unfold scores_grow. intros H12 H23.
  eapply Forall2_trans; [|exact H12|exact H23].
  intros p q r' (? & ? & ?) (? & ? & ?). repeat split; [congruence..|lia].
Qed.

(** The scoring step adds a delta that is never negative. *)
Lemma App_submitScore_grow c c' :
  App.submitScore c = Some c' →
  scores_grow (App.players (App.gameState c)) (App.players (App.gameState c')).
Proof.
  intros Hs. apply App_submitScore_spec in Hs as (d & _ & -> & _).
  apply Forall2_fmap_r, Forall_Forall2_diag, Forall_forall. intros p _.
  split; [done|]. split; [done|].
  unfold App.isSpeedBonus. rewrite App_awardPlayer_score.
  pose proof (App_basePoints_pos (App.gameState c)).
  pose proof (awards_nonneg d (App.selectedGuesserIds c)
                (App.basePoints (App.gameState c)) (App.timer (App.gameState c)) p).
  lia.
Qed.

Lemma Lobby_finalizeScore_grow c c' :
  Lobby.finalizeScore c = Some c' →
  scores_grow (Lobby.players (Lobby.gameState c)) (Lobby.players (Lobby.gameState c')).
Proof.
  intros Hs. apply Lobby_finalizeScore_spec in Hs as (d & _ & -> & _).
  apply Forall2_fmap_r, Forall_Forall2_diag, Forall_forall. intros p _.
  split; [done|]. split; [done|].
  unfold Lobby.isSpeedBonus. rewrite Lobby_awardPlayer_score.
  pose proof (Lobby_basePoints_pos (Lobby.gameState c)).
  pose proof (awards_nonneg d (Lobby.selectedGuesserIds c)
                (Lobby.basePoints (Lobby.gameState c)) (Lobby.timer (Lobby.gameState c)) p).
  lia.
Qed.

(** During a match the only event that writes a score is the scoring
    step. *)
Lemma App_step_players e c c' :
  App.phase (App.gameState c) = App.PLAYING →
  App.step e c = Some c' →
  App.players (App.gameState c') = App.players (App.gameState c)
  ∨ ∃ c1, App.submitScore c = Some c1
          ∧ App.players (App.gameState c') = App.players (App.gameState c1).
Proof.
  unfold App.step. destruct (App.validDraws e); [|done].
  intros Hp Hs. destruct (App.dispatch e c) as [c1|] eqn:Hd; simplify_eq/=.
  rewrite App_timerEffect_gameState.
  destruct c as [[ph sp ps cur cp pcs t r mr ws h] pool sel open sets sid ti].
  cbn in Hp; subst ph.
  destruct e; unfold App.dispatch, App.onSettings, App.onScreen in Hd; cbn in Hd;
    try done; split_on_vars Hd; try (right; by eexists); left; app_unfold Hd;
    repeat (case_bool_decide; destruct_and?; simplify_eq);
    simplify_option_eq; try done.
  destruct d; by simplify_eq.
Qed.

Lemma Lobby_step_players e c c' :
  Lobby.inMatch (Lobby.gameState c) →
  Lobby.step e c = Some c' →
  Lobby.players (Lobby.gameState c') = Lobby.players (Lobby.gameState c)
  ∨ ∃ c1, Lobby.finalizeScore c = Some c1
          ∧ Lobby.players (Lobby.gameState c') = Lobby.players (Lobby.gameState c1).
Proof.
  unfold Lobby.step. destruct (Lobby.validDraws e); [|done].
  intros [Hp1 Hp2] Hs. destruct (Lobby.dispatch e c) as [c1|] eqn:Hd; simplify_eq/=.
  rewrite Lobby_timerEffect_gameState.
  destruct c as [[ps cur cp pcs ph t r mr h] pool sel ti]. cbn in Hp1, Hp2.
  destruct e; unfold Lobby.dispatch, Lobby.onScreen in Hd; cbn in Hd;
    try done; split_on_vars Hd; try congruence; try (right; by eexists); left;
    lobby_unfold Hd; repeat (case_bool_decide; destruct_and?; simplify_eq);
    by simplify_option_eq.
Qed.

Lemma App_runMatch_grow es :
  ∀ c c', App.runMatch es c = Some c' →
    scores_grow (App.players (App.gameState c)) (App.players (App.gameState c')).
Proof.
  induction es as [|e es IH]; intros c c' Hrun; simplify_eq/=.
  { apply scores_grow_refl. }
  case_bool_decide as Hp; [|done].
  destruct (App.step e c) as [c1|] eqn:Hs; simplify_eq/=.
  eapply scores_grow_trans; [|by apply IH].
  destruct (App_step_players _ _ _ Hp Hs) as [->|(c2 & Hc2 & ->)].
  - apply scores_grow_refl.
  - by apply App_submitScore_grow.
Qed.

Lemma Lobby_runMatch_grow es :
  ∀ c c', Lobby.runMatch es c = Some c' →
    scores_grow (Lobby.players (Lobby.gameState c)) (Lobby.players (Lobby.gameState c')).
Proof.
  induction es as [|e es IH]; intros c c' Hrun; simplify_eq/=.
  { apply scores_grow_refl. }
  case_bool_decide as Hp; [|done].
  destruct (Lobby.step e c) as [c1|] eqn:Hs; simplify_eq/=.
  eapply scores_grow_trans; [|by apply IH].
  destruct (Lobby_step_players _ _ _ Hp Hs) as [->|(c2 & Hc2 & ->)].
  - apply scores_grow_refl.
  - by apply Lobby_finalizeScore_grow.
Qed.

(** C8.  Monotone scores.  Along every sequence of events taken during
    a match (in [App] while the phase is PLAYING, in [Lobby] between the
    lobby and GAME_OVER) the roster keeps its rows, ids and names, and no
    row's score is lower at the end than at the start; the one handler
    that writes a score adds a drawer award and a guesser award, both
    non-negative.  Both components. *)
Theorem C8_scores_never_decrease :
  (∀ es c c', App.runMatch es c = Some c' →
     scores_grow (App.players (App.gameState c)) (App.players (App.gameState c')))
  ∧ (∀ es c c', Lobby.runMatch es c = Some c' →
     scores_grow (Lobby.players (Lobby.gameState c)) (Lobby.players (Lobby.gameState c')))
  ∧ (∀ drawer sel base t p, (0 ≤ base)%Z →
     (0 ≤ drawerAward drawer sel base p + guesserAward sel base t p)%Z)
  ∧ (∀ g, (0 ≤ App.basePoints g)%Z) ∧ (∀ g, (0 ≤ Lobby.basePoints g)%Z).
Proof.
  split; [|split; [|split; [|split]]].
  - intros es c c'. apply App_runMatch_grow.
  - intros es c c'. apply Lobby_runMatch_grow.
  - intros. by apply awards_nonneg.
  - intros g. pose proof (App_basePoints_pos g). lia.
  - intros g. pose proof (Lobby_basePoints_pos g). lia.
Qed.

(** ** The offer of three prompts *)

Lemma App_choicesOf_sampled ws pool d :
  unit_draws d → pool ≠ [] → ws = App.src_ai ∨ (3 < length pool)%nat →
  ∃ p1 p2 p3,
    App.choicesOf ws pool d = [Some p1; Some p2; Some p3]
    ∧ drawnFrom (App.easyBucket pool) pool p1
    ∧ drawnFrom (App.mediumBucket pool) pool p2
    ∧ drawnFrom (App.hardBucket pool) pool p3.
Proof.
  intros (H1 & H2 & H3) Hne Hb. unfold App.choicesOf.
  rewrite bool_decide_eq_true_2 by done. cbn zeta.
  destruct (App_draw_bucket _ (App.easyBucket pool) pool H1 Hne) as (p1 & -> & ?).
  destruct (App_draw_bucket _ (App.mediumBucket pool) pool H2 Hne) as (p2 & -> & ?).
  destruct (App_draw_bucket _ (App.hardBucket pool) pool H3 Hne) as (p3 & -> & ?).
  by exists p1, p2, p3.
Qed.

Lemma App_choicesOf_small pool d :
  (length pool ≤ 3)%nat →
  App.choicesOf App.src_custom pool d = Some <$> pool.
Proof.
  intros H. unfold App.choicesOf.
  rewrite bool_decide_eq_false_2.
  - by rewrite take_ge.
  - intros [?|?]; [done|lia].
Qed.

Lemma Lobby_choicesOf_sampled pool d :
  unit_draws d → pool ≠ [] →
  ∃ p1 p2 p3,
    Lobby.choicesOf pool d = [Some p1; Some p2; Some p3]
    ∧ drawnFrom (Lobby.bucket Lobby.easy pool) pool p1
    ∧ drawnFrom (Lobby.bucket Lobby.medium pool) pool p2
    ∧ drawnFrom (Lobby.bucket Lobby.hard pool) pool p3.
Proof.
  intros (H1 & H2 & H3) Hne. unfold Lobby.choicesOf. cbn zeta.
  destruct (Lobby_draw_bucket _ (Lobby.bucket Lobby.easy pool) pool H1 Hne)
    as (p1 & -> & ?).
  destruct (Lobby_draw_bucket _ (Lobby.bucket Lobby.medium pool) pool H2 Hne)
    as (p2 & -> & ?).
  destruct (Lobby_draw_bucket _ (Lobby.bucket Lobby.hard pool) pool H3 Hne)
    as (p3 & -> & ?).
  by exists p1, p2, p3.
Qed.

(** What [setupTurn] offers: three draws, or the pool as it is. *)
Lemma App_choicesOf_cases ws pool d :
  unit_draws d →
  (length (App.choicesOf ws pool d) = 3%nat
   ∧ (pool ≠ [] →
      ∃ p1 p2 p3,
        App.choicesOf ws pool d = [Some p1; Some p2; Some p3]
        ∧ drawnFrom (App.easyBucket pool) pool p1
        ∧ drawnFrom (App.mediumBucket pool) pool p2
        ∧ drawnFrom (App.hardBucket pool) pool p3))
  ∨ (ws = App.src_custom ∧ (length pool ≤ 3)%nat
     ∧ App.choicesOf ws pool d = Some <$> pool).
Proof.
  intros Hd. destruct (decide (ws = App.src_ai ∨ (3 < length pool)%nat)) as [Hb|Hb].
  - left. split.
    + unfold App.choicesOf. by rewrite bool_decide_eq_true_2.
    + intros Hne. by apply App_choicesOf_sampled.
  - right. assert (length pool ≤ 3)%nat by lia.
    destruct ws; [tauto|]. split; [done|]. split; [done|].
    by apply App_choicesOf_small.
Qed.

(** The offer on the prompt-choosing screen of [App]: what [setupTurn]
    computed from the pool, under the word source of the render that
    set the turn up. *)
Lemma App_offer c :
  App.reachable c →
  App.subPhase (App.gameState c) = Some App.CHOOSE_PROMPT →
  ∃ ws d,
    unit_draws d
    ∧ App.promptChoices (App.gameState c) = App.choicesOf ws (App.allPrompts c) d
    ∧ ((length (App.promptChoices (App.gameState c)) = 3%nat
        ∧ (App.allPrompts c ≠ [] →
           ∃ p1 p2 p3,
             App.promptChoices (App.gameState c) = [Some p1; Some p2; Some p3]
             ∧ drawnFrom (App.easyBucket (App.allPrompts c)) (App.allPrompts c) p1
             ∧ drawnFrom (App.mediumBucket (App.allPrompts c)) (App.allPrompts c) p2
             ∧ drawnFrom (App.hardBucket (App.allPrompts c)) (App.allPrompts c) p3))
       ∨ (ws = App.src_custom ∧ (length (App.allPrompts c) ≤ 3)%nat
          ∧ App.promptChoices (App.gameState c) = Some <$> App.allPrompts c)).
Proof.
  intros Hr Hsp. apply App_reachable_inv in Hr.
  destruct (App_inv_turn _ _ Hr Hsp) as (_ & _ & ws & d & Hd & Hch); [done|].
  exists ws, d. split; [done|]. split; [done|].
  rewrite Hch. by apply App_choicesOf_cases.
Qed.

Lemma Lobby_offer c :
  Lobby.reachable c →
  Lobby.phase (Lobby.gameState c) = Lobby.CHOOSE_PROMPT →
  length (Lobby.promptChoices (Lobby.gameState c)) = 3%nat
  ∧ (Lobby.allPrompts c ≠ [] →
     ∃ p1 p2 p3,
       Lobby.promptChoices (Lobby.gameState c) = [Some p1; Some p2; Some p3]
       ∧ drawnFrom (Lobby.bucket Lobby.easy (Lobby.allPrompts c)) (Lobby.allPrompts c) p1
       ∧ drawnFrom (Lobby.bucket Lobby.medium (Lobby.allPrompts c)) (Lobby.allPrompts c) p2
       ∧ drawnFrom (Lobby.bucket Lobby.hard (Lobby.allPrompts c)) (Lobby.allPrompts c) p3).
Proof.
  intros Hr Hsp. apply Lobby_reachable_inv in Hr.
  destruct (Lobby_inv_turn _ Hr) as (_ & _ & d & Hd & Hch); [by rewrite Hsp..|].
  rewrite Hch. split; [done|]. intros Hne. by apply Lobby_choicesOf_sampled.
Qed.

(** C4, as the code has it.  On every prompt-choosing screen a match can
    reach, [promptChoices] is what the turn setup computed from the
    pool.  In part_000 it has exactly 3 entries and, the pool not being
    empty, each is a prompt drawn for its difficulty bucket, or from the
    whole pool when the bucket is empty.  In [App] (which counts
    'custom' prompts in the easy bucket) the same holds unless the turn
    was set up by the other branch of [setupTurn], taken when the word
    source is not 'ai' and the pool has at most 3 prompts: the offer is
    then the pool itself, in pool order and of the pool's length, with
    no draw.  On the handlers: [setupTurn] draws three whenever the
    source is 'ai' or the pool has more than 3 prompts and copies a
    pool of at most 3 otherwise; [startTurnSetup] always draws three.  A
    draw is uniform as far as [Math.random()] is: whichever the index
    [i], the draws whose product with the length lies between [i] and
    [i + 1], less one part in 2^53 for the rounding of the product, pick
    the element at index [i]. *)
Theorem C4_three_choices :
  (∀ c, Lobby.reachable c →
     Lobby.phase (Lobby.gameState c) = Lobby.CHOOSE_PROMPT →
     length (Lobby.promptChoices (Lobby.gameState c)) = 3%nat
     ∧ (Lobby.allPrompts c ≠ [] →
        ∃ p1 p2 p3,
          Lobby.promptChoices (Lobby.gameState c) = [Some p1; Some p2; Some p3]
          ∧ drawnFrom (Lobby.bucket Lobby.easy (Lobby.allPrompts c))
              (Lobby.allPrompts c) p1
          ∧ drawnFrom (Lobby.bucket Lobby.medium (Lobby.allPrompts c))
              (Lobby.allPrompts c) p2
          ∧ drawnFrom (Lobby.bucket Lobby.hard (Lobby.allPrompts c))
              (Lobby.allPrompts c) p3))
  ∧ (∀ c, App.reachable c →
     App.subPhase (App.gameState c) = Some App.CHOOSE_PROMPT →
     ∃ ws d,
       unit_draws d
       ∧ App.promptChoices (App.gameState c)
         = App.choicesOf ws (App.allPrompts c) d
       ∧ ((length (App.promptChoices (App.gameState c)) = 3%nat
           ∧ (App.allPrompts c ≠ [] →
              ∃ p1 p2 p3,
                App.promptChoices (App.gameState c) = [Some p1; Some p2; Some p3]
                ∧ drawnFrom (App.easyBucket (App.allPrompts c)) (App.allPrompts c) p1
                ∧ drawnFrom (App.mediumBucket (App.allPrompts c)) (App.allPrompts c) p2
                ∧ drawnFrom (App.hardBucket (App.allPrompts c)) (App.allPrompts c) p3))
          ∨ (ws = App.src_custom ∧ (length (App.allPrompts c) ≤ 3)%nat
             ∧ App.promptChoices (App.gameState c) = Some <$> App.allPrompts c)))
  ∧ (∀ ws pool d,
     unit_draws d → pool ≠ [] → ws = App.src_ai ∨ (3 < length pool)%nat →
     ∃ p1 p2 p3,
       App.choicesOf ws pool d = [Some p1; Some p2; Some p3]
       ∧ drawnFrom (App.easyBucket pool) pool p1
       ∧ drawnFrom (App.mediumBucket pool) pool p2
       ∧ drawnFrom (App.hardBucket pool) pool p3)
  ∧ (∀ pool d, (length pool ≤ 3)%nat →
     App.choicesOf App.src_custom pool d = Some <$> pool)
  ∧ (∀ pool d,
     unit_draws d → pool ≠ [] →
     ∃ p1 p2 p3,
       Lobby.choicesOf pool d = [Some p1; Some p2; Some p3]
       ∧ drawnFrom (Lobby.bucket Lobby.easy pool) pool p1
       ∧ drawnFrom (Lobby.bucket Lobby.medium pool) pool p2
       ∧ drawnFrom (Lobby.bucket Lobby.hard pool) pool p3)
  ∧ (∀ (A : Type) (arr : list A) i r,
     unit_draw r → (i < length arr)%nat → (Z.of_nat (length arr) < 2 ^ 32)%Z →
     (inject_Z (Z.of_nat i) <= value r * inject_Z (Z.of_nat (length arr)))%Q →
     (value r * inject_Z (Z.of_nat (length arr))
      <= inject_Z (Z.of_nat i + 1) * (1 - (1 # 2 ^ 53)))%Q →
     rnd r arr = arr !! i).
Proof.
  split; [apply Lobby_offer|]. split; [apply App_offer|].
  split; [apply App_choicesOf_sampled|]. split; [apply App_choicesOf_small|].
  split; [apply Lobby_choicesOf_sampled|].
  intros A arr i r Hr Hi Hlen Hlo Hhi. unfold rnd.
  by rewrite (random_index_between r (length arr) i).
Qed.

(** ** The hint row *)

Lemma Lobby_hintCells_lookup tr w t i ch :
  String.list_ascii_of_string w !! i = Some ch →
  Lobby.hintCells tr w t !! i
  = Some (if bool_decide (ch = space) then Gap
          else if Lobby.isRevealed tr (length (String.list_ascii_of_string w)) t i
               then Revealed (toUpperCase ch) else Hidden).
Proof. intros H. unfold Lobby.hintCells. by rewrite list_lookup_imap, H. Qed.

Lemma App_hintCells_lookup w t i ch :
  String.list_ascii_of_string w !! i = Some ch →
  App.hintCells w t !! i
  = Some (if bool_decide (ch = space) then Gap
          else if App.isRevealed (length (String.list_ascii_of_string w)) t i
               then Revealed (toUpperCase ch) else Hidden).
Proof. intros H. unfold App.hintCells. by rewrite list_lookup_imap, H. Qed.

Lemma Lobby_isRevealed_easy len t i :
  (0 ≤ t)%Z →
  Lobby.isRevealed (Lobby.triggers Lobby.easy) len t i = true
  ↔ (i = 0%nat ∧ (t < 20)%Z) ∨ (i = (len / 2)%nat ∧ (t < 10)%Z).
Proof.
  intros Ht. unfold Lobby.isRevealed. cbn.
  repeat case_bool_decide; cbn; split; intros; try done; try lia;
    first [left; split; [done|lia] | right; split; [done|lia] | idtac].
  all: match goal with H : _ ∨ _ |- _ => destruct H as [[??]|[??]]; lia end.
Qed.

Lemma App_isRevealed_iff len t i :
  App.isRevealed len t i = true
  ↔ (i = 0%nat ∧ (t ≤ 50)%Z) ∨ (i = (len / 2)%nat ∧ (t ≤ 35)%Z)
    ∨ (i = (len - 1)%nat ∧ (t ≤ 20)%Z).
Proof.
  unfold App.isRevealed, App.reveal1, App.reveal2, App.reveal3.
  rewrite !orb_true_iff, !andb_true_iff, !bool_decide_eq_true. tauto.
Qed.

(** What the row shows at position [i] holding character [ch]. *)
Lemma Lobby_revealedAt_easy g p i ch :
  Lobby.currentPrompt g = Some p → Lobby.difficulty p = Lobby.easy →
  (0 ≤ Lobby.timer g)%Z →
  String.list_ascii_of_string (Lobby.word p) !! i = Some ch →
  revealedAt (Lobby.hintDisplay g) i
  ↔ ch ≠ space
    ∧ ((i = 0%nat ∧ (Lobby.timer g < 20)%Z)
       ∨ (i = (length (String.list_ascii_of_string (Lobby.word p)) / 2)%nat
          ∧ (Lobby.timer g < 10)%Z)).
Proof.
  intros Hp Hd Ht Hch. unfold revealedAt, Lobby.hintDisplay.
  rewrite Hp. cbn [from_option]. rewrite Hd.
  rewrite <- Lobby_isRevealed_easy by done.
  unfold Lobby.showLengthHint. cbn [Lobby.lengthTrigger Lobby.triggers].
  split.
  - intros (cells & ch' & Hc & Hl). case_bool_decide; [|done]. simplify_eq.
    rewrite (Lobby_hintCells_lookup _ _ _ _ _ Hch) in Hl.
    case_bool_decide; [done|].
    by destruct (Lobby.isRevealed _ _ _ _).
  - intros [Hsp Hrev].
    assert (Lobby.timer g ≤ 30)%Z as Hle.
    { apply Lobby_isRevealed_easy in Hrev; [lia|done]. }
    rewrite bool_decide_eq_true_2 by done.
    eexists _, _. split; [done|].
    rewrite (Lobby_hintCells_lookup _ _ _ _ _ Hch).
    by rewrite bool_decide_eq_false_2, Hrev.
Qed.

Lemma App_revealedAt g p i ch :
  App.currentPrompt g = Some p →
  String.list_ascii_of_string (App.word p) !! i = Some ch →
  revealedAt (App.hintDisplay g) i
  ↔ ch ≠ space
    ∧ ((i = 0%nat ∧ (App.timer g ≤ 50)%Z)
       ∨ (i = (length (String.list_ascii_of_string (App.word p)) / 2)%nat
          ∧ (App.timer g ≤ 35)%Z)
       ∨ (i = (length (String.list_ascii_of_string (App.word p)) - 1)%nat
          ∧ (App.timer g ≤ 20)%Z)).
Proof.
  intros Hp Hch. unfold revealedAt, App.hintDisplay.
  rewrite Hp. cbn [from_option]. rewrite <- App_isRevealed_iff.
  unfold App.revealLen. split.
  - intros (cells & ch' & Hc & Hl). case_bool_decide; [|done]. simplify_eq.
    rewrite (App_hintCells_lookup _ _ _ _ Hch) in Hl.
    case_bool_decide; [done|].
    by destruct (App.isRevealed _ _ _).
  - intros [Hsp Hrev].
    assert (App.timer g ≤ 58)%Z as Hle.
    { apply App_isRevealed_iff in Hrev. lia. }
    rewrite bool_decide_eq_true_2 by done.
    eexists _, _. split; [done|].
    rewrite (App_hintCells_lookup _ _ _ _ Hch).
    by rewrite bool_decide_eq_false_2, Hrev.
Qed.

Lemma middle_index len :
  ((2 ≤ len → 0 < len / 2) ∧ (3 ≤ len → len / 2 < len - 1))%nat.
Proof.
  pose proof (Nat.div_mod_eq len 2) as Hd.
  pose proof (Nat.mod_upper_bound len 2). lia.
Qed.

(** C5, as the code has it.  In [Lobby], for an easy prompt and a timer
    that is not negative: the hint row is on screen iff timer <= 30; a
    character that is not a space is revealed iff its index is 0 and
    timer < 20, or its index is floor(length / 2) and timer < 10
    (strictly: at 20 and at 10 the letters are still hidden).  Index by
    index, of the characters that are not spaces: the one at index 0 is
    revealed iff timer < 20; the one at index floor(length / 2) iff
    timer < 10, in a word of two or more characters; the one at index
    length - 1 never, in a word of three or more (in shorter words these
    indices coincide); a space is drawn as a gap and never revealed.  In
    [App] the thresholds do not depend on the difficulty: the row is on
    screen iff timer <= 58, and a character that is not a space is
    revealed iff its index is 0 and timer <= 50, or floor(length / 2)
    and timer <= 35, or length - 1 and timer <= 20; index by index, with
    the same provisos: index 0 iff timer <= 50, the middle iff
    timer <= 35, the last iff timer <= 20. *)
Theorem C5_easy_hint_schedule :
  (∀ g p, Lobby.currentPrompt g = Some p → Lobby.difficulty p = Lobby.easy →
     (0 ≤ Lobby.timer g)%Z →
     (is_Some (Lobby.hintDisplay g) ↔ (Lobby.timer g ≤ 30)%Z)
     ∧ (∀ i ch, String.list_ascii_of_string (Lobby.word p) !! i = Some ch →
          revealedAt (Lobby.hintDisplay g) i
          ↔ ch ≠ space
            ∧ ((i = 0%nat ∧ (Lobby.timer g < 20)%Z)
               ∨ (i = (length (String.list_ascii_of_string (Lobby.word p)) / 2)%nat
                  ∧ (Lobby.timer g < 10)%Z)))
     ∧ (∀ ch, String.list_ascii_of_string (Lobby.word p) !! 0%nat = Some ch →
          ch ≠ space →
          revealedAt (Lobby.hintDisplay g) 0 ↔ (Lobby.timer g < 20)%Z)
     ∧ (∀ ch, (2 ≤ length (String.list_ascii_of_string (Lobby.word p)))%nat →
          String.list_ascii_of_string (Lobby.word p)
            !! (length (String.list_ascii_of_string (Lobby.word p)) / 2)%nat
          = Some ch →
          ch ≠ space →
          revealedAt (Lobby.hintDisplay g)
            (length (String.list_ascii_of_string (Lobby.word p)) / 2)
          ↔ (Lobby.timer g < 10)%Z)
     ∧ ((3 ≤ length (String.list_ascii_of_string (Lobby.word p)))%nat →
        ¬ revealedAt (Lobby.hintDisplay g)
            (length (String.list_ascii_of_string (Lobby.word p)) - 1))
     ∧ (∀ i, String.list_ascii_of_string (Lobby.word p) !! i = Some space →
          ¬ revealedAt (Lobby.hintDisplay g) i))
  ∧ (∀ g p, App.currentPrompt g = Some p →
     (is_Some (App.hintDisplay g) ↔ (App.timer g ≤ 58)%Z)
     ∧ (∀ i ch, String.list_ascii_of_string (App.word p) !! i = Some ch →
          revealedAt (App.hintDisplay g) i
          ↔ ch ≠ space
            ∧ ((i = 0%nat ∧ (App.timer g ≤ 50)%Z)
               ∨ (i = (length (String.list_ascii_of_string (App.word p)) / 2)%nat
                  ∧ (App.timer g ≤ 35)%Z)
               ∨ (i = (length (String.list_ascii_of_string (App.word p)) - 1)%nat
                  ∧ (App.timer g ≤ 20)%Z)))
     ∧ (∀ ch, String.list_ascii_of_string (App.word p) !! 0%nat = Some ch →
          ch ≠ space →
          revealedAt (App.hintDisplay g) 0 ↔ (App.timer g ≤ 50)%Z)
     ∧ (∀ ch, (2 ≤ length (String.list_ascii_of_string (App.word p)))%nat →
          String.list_ascii_of_string (App.word p)
            !! (length (String.list_ascii_of_string (App.word p)) / 2)%nat
          = Some ch →
          ch ≠ space →
          revealedAt (App.hintDisplay g)
            (length (String.list_ascii_of_string (App.word p)) / 2)
          ↔ (App.timer g ≤ 35)%Z)
     ∧ (∀ ch, (3 ≤ length (String.list_ascii_of_string (App.word p)))%nat →
          String.list_ascii_of_string (App.word p)
            !! (length (String.list_ascii_of_string (App.word p)) - 1)%nat
          = Some ch →
          ch ≠ space →
          revealedAt (App.hintDisplay g)
            (length (String.list_ascii_of_string (App.word p)) - 1)
          ↔ (App.timer g ≤ 20)%Z)
     ∧ (∀ i, String.list_ascii_of_string (App.word p) !! i = Some space →
          ¬ revealedAt (App.hintDisplay g) i)).
Proof.
  split.
  - intros g p Hp Hd Ht.
    pose proof (middle_index (length (String.list_ascii_of_string (Lobby.word p))))
      as [Hm2 Hm3].
    split; [|split; [|split; [|split; [|split]]]].
    + unfold Lobby.hintDisplay, Lobby.showLengthHint. rewrite Hp. cbn [from_option].
      rewrite Hd. cbn [Lobby.lengthTrigger Lobby.triggers].
      case_bool_decide; split; intros H';
        first [done | by eexists | by destruct H'].
    + intros i ch Hch. by apply Lobby_revealedAt_easy.
    + intros ch Hch Hsp.
      rewrite (Lobby_revealedAt_easy g p _ ch Hp Hd Ht Hch). intuition lia.
    + intros ch Hlen Hch Hsp.
      rewrite (Lobby_revealedAt_easy g p _ ch Hp Hd Ht Hch). intuition lia.
    + intros Hlen Hrev.
      destruct (lookup_lt_is_Some_2 (String.list_ascii_of_string (Lobby.word p))
                  (length (String.list_ascii_of_string (Lobby.word p)) - 1))
        as [ch Hch]; [lia|].
      apply (Lobby_revealedAt_easy g p _ ch Hp Hd Ht Hch) in Hrev.
      intuition lia.
    + intros i Hch Hrev.
      apply (Lobby_revealedAt_easy g p _ _ Hp Hd Ht Hch) in Hrev. tauto.
  - intros g p Hp.
    pose proof (middle_index (length (String.list_ascii_of_string (App.word p))))
      as [Hm2 Hm3].
    split; [|split; [|split; [|split; [|split]]]].
    + unfold App.hintDisplay, App.revealLen. rewrite Hp.
      case_bool_decide; split; intros H';
        first [done | by eexists | by destruct H'].
    + intros i ch Hch. by apply App_revealedAt.
    + intros ch Hch Hsp. rewrite (App_revealedAt g p _ ch Hp Hch). intuition lia.
    + intros ch Hlen Hch Hsp. rewrite (App_revealedAt g p _ ch Hp Hch). intuition lia.
    + intros ch Hlen Hch Hsp. rewrite (App_revealedAt g p _ ch Hp Hch). intuition lia.
    + intros i Hch Hrev. apply (App_revealedAt g p _ _ Hp Hch) in Hrev. tauto.
Qed.

(** ** Turns that end without a guess *)

(** C3 on [Lobby].  The interval callback and the surrender control of
    the LOBBY-based component never write the history.  In the example
    match the first turn is solved by Bob and the second runs out of
    time: the game is on the post-turn screen with timer 0, two turns are
    over, the history holds the first turn's entry only, and the screen
    reads that entry ("Point Awarded!", winner Bob) for a turn nobody
    solved.  A turn surrendered at once ends with an empty history. *)
Theorem C3_lobby_turn_without_history_entry :
  (∀ c, Lobby.history (Lobby.gameState (Lobby.tick c))
        = Lobby.history (Lobby.gameState c))
  ∧ (∀ c, Lobby.history (Lobby.gameState (Lobby.surrenderTurn c))
          = Lobby.history (Lobby.gameState c))
  ∧ Lobby.run Lobby_exTimeout Lobby.initial = Some (Lobby_after Lobby_exTimeout)
  ∧ Lobby.phase (Lobby.gameState (Lobby_after Lobby_exTimeout)) = Lobby.POST_TURN
  ∧ Lobby.timer (Lobby.gameState (Lobby_after Lobby_exTimeout)) = 0%Z
  ∧ Lobby.history (Lobby.gameState (Lobby_after Lobby_exTimeout))
    = [History.mkEntry "Alice" "cat" true ["Bob"]]
  ∧ Lobby.postTurnHeadline (Lobby.gameState (Lobby_after Lobby_exTimeout))
    = "Point Awarded!"
  ∧ Lobby.postTurnWinners (Lobby.gameState (Lobby_after Lobby_exTimeout))
    = Some ["Bob"]
  ∧ Lobby.run Lobby_exSurrender Lobby.initial = Some (Lobby_after Lobby_exSurrender)
  ∧ Lobby.phase (Lobby.gameState (Lobby_after Lobby_exSurrender)) = Lobby.POST_TURN
  ∧ Lobby.history (Lobby.gameState (Lobby_after Lobby_exSurrender)) = [].
Proof.
  split; [|split].
  - intros c. unfold Lobby.tick. by case_bool_decide.
  - done.
  - vm_compute. repeat split.
Qed.

(** C6 on [Lobby].  With one second left on the drawing screen, the tick
    sets the timer to 0 and the phase to POST_TURN in one update, and
    that update leaves the history as it was (empty): no timeout entry
    is appended. *)
Theorem C6_lobby_last_tick_appends_nothing :
  Lobby.run Lobby_exLastSecond Lobby.initial = Some (Lobby_after Lobby_exLastSecond)
  ∧ Lobby.phase (Lobby.gameState (Lobby_after Lobby_exLastSecond)) = Lobby.DRAWING
  ∧ Lobby.timer (Lobby.gameState (Lobby_after Lobby_exLastSecond)) = 1%Z
  ∧ Lobby.history (Lobby.gameState (Lobby_after Lobby_exLastSecond)) = []
  ∧ Lobby.step Lobby.Tick (Lobby_after Lobby_exLastSecond)
    = Some (Lobby_after (Lobby_exLastSecond ++ [Lobby.Tick]))
  ∧ Lobby.timer (Lobby.gameState (Lobby_after (Lobby_exLastSecond ++ [Lobby.Tick])))
    = 0%Z
  ∧ Lobby.phase (Lobby.gameState (Lobby_after (Lobby_exLastSecond ++ [Lobby.Tick])))
    = Lobby.POST_TURN
  ∧ Lobby.history (Lobby.gameState (Lobby_after (Lobby_exLastSecond ++ [Lobby.Tick])))
    = [].
Proof. vm_compute. repeat split. Qed.

(** ** Concrete matches *)

(** C4 as stated fails in [App]: the match is started while the
    settings modal is open, a pool of two prompts arrives, and the word
    source is switched to the custom bank; the turn set up next offers
    the pool itself, and the prompt-choosing screen shows 2 entries from
    a pool that is not empty. *)
Lemma C4_three_choices_counterexample :
  App.run App_exTwoPrompts App_exInitial = Some (App_after App_exTwoPrompts)
  ∧ App.subPhase (App.gameState (App_after App_exTwoPrompts))
    = Some App.CHOOSE_PROMPT
  ∧ App.allPrompts (App_after App_exTwoPrompts)
    = [ App.mkPrompt "cat" "Animals" App.easy;
        App.mkPrompt "robot" "Objects" App.medium ]
  ∧ App.promptChoices (App.gameState (App_after App_exTwoPrompts))
    = [ Some (App.mkPrompt "cat" "Animals" App.easy);
        Some (App.mkPrompt "robot" "Objects" App.medium) ]
  ∧ length (App.promptChoices (App.gameState (App_after App_exTwoPrompts)))
    = 2%nat.
Proof. vm_compute. repeat split. Qed.

Lemma C4_three_choices_witness :
  App.reachable (App_after App_exTwoPrompts)
  ∧ App.subPhase (App.gameState (App_after App_exTwoPrompts))
    = Some App.CHOOSE_PROMPT
  ∧ ∃ ws d,
      unit_draws d
      ∧ App.promptChoices (App.gameState (App_after App_exTwoPrompts))
        = App.choicesOf ws (App.allPrompts (App_after App_exTwoPrompts)) d.
Proof.
  assert (App.reachable (App_after App_exTwoPrompts)) as Hr.
  { exists App.src_ai, [App.classicPack], "default"%string, App_exTwoPrompts.
    vm_compute. reflexivity. }
  assert (App.subPhase (App.gameState (App_after App_exTwoPrompts))
          = Some App.CHOOSE_PROMPT) as Hsp.
  { vm_compute. reflexivity. }
  split; [exact Hr|]. split; [exact Hsp|].
  destruct (proj1 (proj2 C4_three_choices) _ Hr Hsp) as (ws & d & Hd & Hch & _).
  exists ws, d. split; [exact Hd|exact Hch].
Defined.

(** C5 as stated fails.  In [Lobby], for the easy word "cat": with 20
    seconds left no letter is shown yet, with 10 seconds left only the
    first; for the easy word "at" with 5 seconds left the last letter is
    shown (it is the middle one).  In [App], for the easy word "cat" with
    45 seconds left the row is on screen and shows the first letter, and
    with 20 seconds left it shows the last letter too. *)
Lemma C5_easy_hint_schedule_counterexample :
  Lobby.hintDisplay (Lobby_exDrawing "cat" 20) = Some [Hidden; Hidden; Hidden]
  ∧ Lobby.hintDisplay (Lobby_exDrawing "cat" 10)
    = Some [Revealed (codeUnits "C"); Hidden; Hidden]
  ∧ Lobby.hintDisplay (Lobby_exDrawing "at" 5)
    = Some [Revealed (codeUnits "A"); Revealed (codeUnits "T")]
  ∧ App.hintDisplay (App_exDrawing "cat" 45)
    = Some [Revealed (codeUnits "C"); Hidden; Hidden]
  ∧ App.hintDisplay (App_exDrawing "cat" 20)
    = Some [Revealed (codeUnits "C"); Revealed (codeUnits "A"); Revealed (codeUnits "T")].
Proof. vm_compute. repeat split. Qed.

Lemma C5_easy_hint_schedule_witness :
  Lobby.currentPrompt (Lobby_exDrawing "cat" 15)
  = Some (Lobby.mkPrompt "cat" "Animals" Lobby.easy)
  ∧ (0 ≤ Lobby.timer (Lobby_exDrawing "cat" 15))%Z
  ∧ (is_Some (Lobby.hintDisplay (Lobby_exDrawing "cat" 15))
     ↔ (Lobby.timer (Lobby_exDrawing "cat" 15) ≤ 30)%Z).
Proof.
  assert (0 ≤ Lobby.timer (Lobby_exDrawing "cat" 15))%Z as Ht by (simpl; lia).
  split; [reflexivity|]. split; [exact Ht|].
  exact (proj1 (proj1 C5_easy_hint_schedule (Lobby_exDrawing "cat" 15)
                  (Lobby.mkPrompt "cat" "Animals" Lobby.easy) eq_refl eq_refl Ht)).
Defined.

Lemma C7_round_wrap_witness :
  (2 ≤ length (App.players (App.gameState (App_after App_exRoundOver))))%nat
  ∧ App.currentPlayerIndex (App.gameState (App_after App_exRoundOver))
    = (length (App.players (App.gameState (App_after App_exRoundOver))) - 1)%nat
  ∧ ∃ c', App.nextTurn exDraws (App_after App_exRoundOver) = Some c'
        ∧ App.subPhase (App.gameState c') = Some App.ROUND_LEADERBOARD.
Proof.
  assert (2 ≤ length (App.players (App.gameState (App_after App_exRoundOver))))%nat
    as Hn.
  { vm_compute. lia. }
  assert (App.currentPlayerIndex (App.gameState (App_after App_exRoundOver))
          = (length (App.players (App.gameState (App_after App_exRoundOver))) - 1)%nat)
    as Hcur.
  { vm_compute. reflexivity. }
  split; [exact Hn|]. split; [exact Hcur|].
  destruct (proj1 C7_round_wrap (App_after App_exRoundOver) exDraws Hn Hcur)
    as (c' & H1 & H2 & _).
  exists c'. split; [exact H1|exact H2].
Defined.

Lemma C8_scores_never_decrease_witness :
  App.runMatch [App.SubmitScore] (App_after App_exScoring)
  = Some (App_after App_exScored)
  ∧ scores_grow (App.players (App.gameState (App_after App_exScoring)))
      (App.players (App.gameState (App_after App_exScored))).
Proof.
  assert (App.runMatch [App.SubmitScore] (App_after App_exScoring)
          = Some (App_after App_exScored)) as Hrun.
  { vm_compute. reflexivity. }
  split; [exact Hrun|].
  exact (proj1 C8_scores_never_decrease _ _ _ Hrun).
Defined.

Lemma C9_start_refused_witness :
  (length (App.players (App.gameState App_exInitial)) < 2)%nat
  ∧ App.startMatch exDraws App_exInitial = (App_exInitial, []).
Proof.
  assert (length (App.players (App.gameState App_exInitial)) < 2)%nat as Hn.
  { simpl. lia. }
  split; [exact Hn|].
  exact (proj1 (proj1 C9_start_refused App_exInitial exDraws Hn)).
Defined.

Lemma C10_drawer_among_guessers_witness :
  App.players (App.gameState App_exDrawerTicked)
    !! App.currentPlayerIndex (App.gameState App_exDrawerTicked)
  = Some (mkPlayer "a" "Alice" 0)
  ∧ id (mkPlayer "a" "Alice" 0) ∈ App.selectedGuesserIds App_exDrawerTicked
  ∧ ∃ c' drawer',
      App.submitScore App_exDrawerTicked = Some c'
      ∧ App.players (App.gameState c')
          !! App.currentPlayerIndex (App.gameState App_exDrawerTicked)
        = Some drawer'
      ∧ score drawer' = (score (mkPlayer "a" "Alice" 0)
          + (2 * App.basePoints (App.gameState App_exDrawerTicked)
             + speedAward (App.timer (App.gameState App_exDrawerTicked))))%Z.
Proof.
  assert (App.players (App.gameState App_exDrawerTicked)
            !! App.currentPlayerIndex (App.gameState App_exDrawerTicked)
          = Some (mkPlayer "a" "Alice" 0)) as Hd.
  { vm_compute. reflexivity. }
  assert (id (mkPlayer "a" "Alice" 0) ∈ App.selectedGuesserIds App_exDrawerTicked)
    as Hin.
  { refine (bool_decide_unpack _ _). vm_compute. exact I. }
  split; [exact Hd|]. split; [exact Hin|].
  destruct (proj1 C10_drawer_among_guessers App_exDrawerTicked _ Hd Hin)
    as (c' & drawer' & entry & H1 & H2 & H3 & _).
  exists c', drawer'. split; [exact H1|]. split; [exact H2|exact H3].
Defined.

(** ** The countdown *)

(** X1.  On no screen a match can reach is the timer at 0 while the game is
    still drawing: on the drawing screen it stands between 1 and 60 and
    the interval is live, and the interval is live on no other screen.
    Both components. *)
Theorem countdown_never_zero_while_drawing :
  (∀ c, App.reachable c →
     (App.subPhase (App.gameState c) = Some App.DRAWING →
      (1 ≤ App.timer (App.gameState c) ≤ 60)%Z)
     ∧ (App.timerInterval c = true
        ↔ App.subPhase (App.gameState c) = Some App.DRAWING))
  ∧ (∀ c, Lobby.reachable c →
     (Lobby.phase (Lobby.gameState c) = Lobby.DRAWING →
      (1 ≤ Lobby.timer (Lobby.gameState c) ≤ 60)%Z)
     ∧ (Lobby.timerInterval c = true
        ↔ Lobby.phase (Lobby.gameState c) = Lobby.DRAWING)).
Proof.
  split; intros c Hr.
  - apply App_reachable_inv in Hr. unfold App_inv, App_turn_ok in Hr.
    destruct (App.phase (App.gameState c)),
      (App.subPhase (App.gameState c)) as [[]|]; try done;
      destruct_and?; (split; [intros [=]; try done|split; intros; congruence]).
  - apply Lobby_reachable_inv in Hr. unfold Lobby_inv, Lobby_turn_ok in Hr.
    destruct (Lobby.phase (Lobby.gameState c)); try done;
      destruct_and?; (split; [intros [=]; try done|split; intros; congruence]).
Qed.

Lemma countdown_never_zero_while_drawing_witness :
  App.reachable (App_after (App_exStart ++ [App.Ready; App.SelectPrompt 0]))
  ∧ (App.timerInterval (App_after (App_exStart ++ [App.Ready; App.SelectPrompt 0]))
     = true
     ↔ App.subPhase
         (App.gameState (App_after (App_exStart ++ [App.Ready; App.SelectPrompt 0])))
       = Some App.DRAWING).
Proof.
  assert (App.reachable (App_after (App_exStart ++ [App.Ready; App.SelectPrompt 0])))
    as Hr.
  { exists App.src_ai, [App.classicPack], "default"%string,
      (App_exStart ++ [App.Ready; App.SelectPrompt 0]).
    vm_compute. reflexivity. }
  split; [exact Hr|].
  exact (proj2 (proj1 countdown_never_zero_while_drawing _ Hr)).
Defined.

(** X2.  In [App], the tick that finds at most one second left on a reachable
    drawing screen goes through and, in one update, sets the timer to 0,
    appends the entry of a failed turn (the drawer's name, the word, not
    correct, no winners) and shows the post-turn screen; the roster is
    untouched. *)
Theorem App_timeout_appends_failed_entry :
  ∀ c, App.reachable c →
    App.subPhase (App.gameState c) = Some App.DRAWING →
    (App.timer (App.gameState c) ≤ 1)%Z →
    ∃ c' drawer,
      App.step App.Tick c = Some c'
      ∧ App.players (App.gameState c) !! App.currentPlayerIndex (App.gameState c)
        = Some drawer
      ∧ App.timer (App.gameState c') = 0%Z
      ∧ App.subPhase (App.gameState c') = Some App.POST_TURN
      ∧ App.history (App.gameState c')
        = App.history (App.gameState c)
          ++ [History.mkEntry (name drawer)
                (from_option App.word EmptyString (App.currentPrompt (App.gameState c)))
                false []]
      ∧ App.players (App.gameState c') = App.players (App.gameState c)
      ∧ App.timerInterval c' = false.
Proof.
  intros c Hr Hsp Ht. apply App_reachable_inv in Hr.
  pose proof (App_inv_subPhase _ _ Hr Hsp) as Hp.
  destruct (App_inv_turn _ _ Hr Hsp) as (_ & Hcur & _); [done|].
  apply lookup_lt_is_Some in Hcur as [drawer Hd].
  unfold App_inv in Hr. rewrite Hp, Hsp in Hr. destruct Hr as (_ & Hti & _).
  unfold App.step, App.dispatch, App.tick, App.failedEntry. cbn.
  rewrite Hti, bool_decide_eq_true_2, Hd by done. cbn.
  eexists _, drawer. split; [done|]. unfold App.timerEffect. cbn.
  rewrite Hsp. by rewrite bool_decide_eq_false_2.
Qed.

Lemma App_timeout_appends_failed_entry_witness :
  App.reachable
    (App_after (App_exStart ++ [App.Ready; App.SelectPrompt 0] ++ replicate 59 App.Tick))
  ∧ ∃ c',
      App.step App.Tick
        (App_after (App_exStart ++ [App.Ready; App.SelectPrompt 0]
                    ++ replicate 59 App.Tick)) = Some c'
      ∧ App.timer (App.gameState c') = 0%Z.
Proof.
  assert (App.reachable
            (App_after (App_exStart ++ [App.Ready; App.SelectPrompt 0]
                        ++ replicate 59 App.Tick))) as Hr.
  { exists App.src_ai, [App.classicPack], "default"%string,
      (App_exStart ++ [App.Ready; App.SelectPrompt 0] ++ replicate 59 App.Tick).
    vm_compute. reflexivity. }
  split; [exact Hr|].
  destruct (App_timeout_appends_failed_entry _ Hr) as (c' & d & H1 & _ & H2 & _).
  - vm_compute. reflexivity.
  - vm_compute. discriminate.
  - exists c'. split; [exact H1|exact H2].
Defined.

(** X3.  In [App], "Skip Turn" on a reachable drawing screen goes through at
    any remaining time: it appends the entry of a failed turn, shows the
    post-turn screen, and leaves the roster and the timer untouched. *)
Theorem App_skip_appends_failed_entry :
  ∀ c, App.reachable c →
    App.subPhase (App.gameState c) = Some App.DRAWING →
    ∃ c' drawer,
      App.step App.SkipTurn c = Some c'
      ∧ App.players (App.gameState c) !! App.currentPlayerIndex (App.gameState c)
        = Some drawer
      ∧ App.subPhase (App.gameState c') = Some App.POST_TURN
      ∧ App.history (App.gameState c')
        = App.history (App.gameState c)
          ++ [History.mkEntry (name drawer)
                (from_option App.word EmptyString (App.currentPrompt (App.gameState c)))
                false []]
      ∧ App.players (App.gameState c') = App.players (App.gameState c)
      ∧ App.timer (App.gameState c') = App.timer (App.gameState c)
      ∧ App.timerInterval c' = false.
Proof.
  intros c Hr Hsp. apply App_reachable_inv in Hr.
  pose proof (App_inv_subPhase _ _ Hr Hsp) as Hp.
  destruct (App_inv_turn _ _ Hr Hsp) as (_ & Hcur & _); [done|].
  apply lookup_lt_is_Some in Hcur as [drawer Hd].
  unfold App.step, App.dispatch, App.onScreen, App.skipTurn, App.failedEntry. cbn.
  rewrite Hp, Hsp. cbn. rewrite Hd. cbn.
  eexists _, drawer. split; [done|]. unfold App.timerEffect. cbn.
  rewrite Hsp. by rewrite bool_decide_eq_false_2.
Qed.

Lemma App_skip_appends_failed_entry_witness :
  App.reachable (App_after (App_exStart ++ [App.Ready; App.SelectPrompt 0]))
  ∧ ∃ c',
      App.step App.SkipTurn (App_after (App_exStart ++ [App.Ready; App.SelectPrompt 0]))
      = Some c'
      ∧ App.subPhase (App.gameState c') = Some App.POST_TURN.
Proof.
  assert (App.reachable (App_after (App_exStart ++ [App.Ready; App.SelectPrompt 0])))
    as Hr.
  { exists App.src_ai, [App.classicPack], "default"%string,
      (App_exStart ++ [App.Ready; App.SelectPrompt 0]).
    vm_compute. reflexivity. }
  split; [exact Hr|].
  destruct (App_skip_appends_failed_entry _ Hr) as (c' & d & H1 & _ & H2 & _).
  - vm_compute. reflexivity.
  - exists c'. split; [exact H1|exact H2].
Defined.

(** ** One history entry per completed turn ([App]) *)

(** X4.  In [App], an event taken during a match appends exactly one
    entry to the history when it ends a turn (the post-turn screen is
    entered), and leaves the history as it was otherwise. *)
Theorem App_one_entry_per_turn :
  ∀ e c c',
    App.reachable c →
    App.phase (App.gameState c) = App.PLAYING →
    App.step e c = Some c' →
    (App.subPhase (App.gameState c') = Some App.POST_TURN
     ∧ App.subPhase (App.gameState c) ≠ Some App.POST_TURN
     ∧ ∃ entry, App.history (App.gameState c')
                = App.history (App.gameState c) ++ [entry])
    ∨ ((App.subPhase (App.gameState c') = Some App.POST_TURN →
        App.subPhase (App.gameState c) = Some App.POST_TURN)
       ∧ App.history (App.gameState c') = App.history (App.gameState c)).
Proof.
  intros e c c' Hr Hp. apply App_reachable_inv in Hr.
  unfold App.step. destruct (App.validDraws e); [|done].
  intros Hs. destruct (App.dispatch e c) as [c1|] eqn:Hd; simplify_eq/=.
  rewrite App_timerEffect_gameState.
  destruct c as [[ph sp ps cur cp pcs t r mr ws h] pool sel open sets sid ti].
  cbn in Hp; subst ph. destruct sp as [[]|]; app_facts; subst.
  all: destruct e; unfold App.dispatch, App.onSettings, App.onScreen in Hd; cbn in Hd;
    try done; split_on_vars Hd; app_unfold Hd;
    repeat (case_bool_decide; destruct_and?; simplify_eq);
    simplify_option_eq; try (destruct d; simplify_eq);
    first [ left; split; [done|]; split; [done|]; by eexists
          | right; split; [first [done | by intros [=]]|done] ].
Qed.

Lemma App_one_entry_per_turn_witness :
  App.reachable (App_after App_exScoring)
  ∧ App.phase (App.gameState (App_after App_exScoring)) = App.PLAYING
  ∧ App.step App.SubmitScore (App_after App_exScoring)
    = Some (App_after App_exScored)
  ∧ ((App.subPhase (App.gameState (App_after App_exScored)) = Some App.POST_TURN
      ∧ App.subPhase (App.gameState (App_after App_exScoring)) ≠ Some App.POST_TURN
      ∧ ∃ entry, App.history (App.gameState (App_after App_exScored))
                 = App.history (App.gameState (App_after App_exScoring)) ++ [entry])
     ∨ ((App.subPhase (App.gameState (App_after App_exScored)) = Some App.POST_TURN →
         App.subPhase (App.gameState (App_after App_exScoring)) = Some App.POST_TURN)
        ∧ App.history (App.gameState (App_after App_exScored))
          = App.history (App.gameState (App_after App_exScoring)))).
Proof.
  assert (App.reachable (App_after App_exScoring)) as Hr.
  { exists App.src_ai, [App.classicPack], "default"%string, App_exScoring.
    vm_compute. reflexivity. }
  assert (App.phase (App.gameState (App_after App_exScoring)) = App.PLAYING) as Hp.
  { vm_compute. reflexivity. }
  assert (App.step App.SubmitScore (App_after App_exScoring)
          = Some (App_after App_exScored)) as Hs.
  { vm_compute. reflexivity. }
  split; [exact Hr|]. split; [exact Hp|]. split; [exact Hs|].
  exact (App_one_entry_per_turn _ _ _ Hr Hp Hs).
Defined.

(** ** The scenarios of the spec, run on both components *)

(** Scenarios A and B.  Alice and Bob, Alice draws an easy word
    (1 point).  Bob marked as guesser with 45 seconds left: Alice +1,
    Bob +2, one history entry (Alice, correct, winner Bob).  With 10
    seconds left: Alice +1, Bob +1. *)
Theorem scenarios_A_and_B :
  App.players (App.gameState (App_after App_exScored))
  = [mkPlayer "a" "Alice" 1; mkPlayer "b" "Bob" 2]
  ∧ App.history (App.gameState (App_after App_exScored))
    = [History.mkEntry "Alice" "cat" true ["Bob"]]
  ∧ App.players (App.gameState (App_after App_exScoredLate))
    = [mkPlayer "a" "Alice" 1; mkPlayer "b" "Bob" 1]
  ∧ Lobby.players (Lobby.gameState (Lobby_after (Lobby_exScoring ++ [Lobby.FinalizeScore])))
    = [mkPlayer "a" "Alice" 1; mkPlayer "b" "Bob" 2]
  ∧ Lobby.history (Lobby.gameState (Lobby_after (Lobby_exScoring ++ [Lobby.FinalizeScore])))
    = [History.mkEntry "Alice" "cat" true ["Bob"]]
  ∧ Lobby.players (Lobby.gameState (Lobby_after Lobby_exScoredLate))
    = [mkPlayer "a" "Alice" 1; mkPlayer "b" "Bob" 1].
Proof. vm_compute. repeat split. Qed.

(** ** The word lists of the bank editor *)

Lemma list_ascii_of_string_app s1 s2 :
  String.list_ascii_of_string (s1 +:+ s2)
  = String.list_ascii_of_string s1 ++ String.list_ascii_of_string s2.
Proof.
  induction s1 as [|ch s1 IH]; [done|].
  cbn [String.list_ascii_of_string app]. rewrite <- IH. reflexivity.
Qed.

Lemma wordsOfText_tokens text :
  App.wordsOfText text
  = String.string_of_list_ascii <$> tokens (String.list_ascii_of_string text).
Proof. done. Qed.

Lemma splitRuns_nonempty chars : App.splitRuns chars ≠ [].
Proof.
  induction chars as [|ch rest IH]; cbn; [done|].
  destruct (App.isSeparator ch); [by destruct (from_option _ _ _)|].
  by destruct (App.splitRuns rest).
Qed.

Lemma splitRuns_cons_word ch rest :
  App.isSeparator ch = false →
  ∃ piece pieces,
    App.splitRuns rest = piece :: pieces
    ∧ App.splitRuns (ch :: rest) = (ch :: piece) :: pieces.
Proof.
  intros Hch. cbn. rewrite Hch.
  destruct (App.splitRuns rest) as [|piece pieces] eqn:E.
  - by apply splitRuns_nonempty in E.
  - by exists piece, pieces.
Qed.

Lemma splitRuns_no_separator chars :
  Forall (Forall (λ ch, App.isSeparator ch = false)) (App.splitRuns chars).
Proof.
  induction chars as [|ch rest IH]; cbn; [by repeat constructor|].
  destruct (App.isSeparator ch) eqn:Hch.
  - destruct (from_option _ _ _); [done|by constructor].
  - destruct (App.splitRuns rest) as [|piece pieces]; [by repeat constructor|].
    inversion_clear IH. by repeat constructor.
Qed.

Lemma splitRuns_app_word w rest :
  Forall (λ ch, App.isSeparator ch = false) w →
  ∃ piece pieces,
    App.splitRuns rest = piece :: pieces
    ∧ App.splitRuns (w ++ rest) = (w ++ piece) :: pieces.
Proof.
  induction 1 as [|ch w Hch Hw (piece & pieces & E1 & E2)]; cbn [app].
  - destruct (App.splitRuns rest) as [|piece pieces] eqn:E.
    + by apply splitRuns_nonempty in E.
    + by exists piece, pieces.
  - exists piece, pieces. split; [done|]. cbn. by rewrite Hch, E2.
Qed.

(** A separator typed at the end opens an empty piece, unless the text
    already ends in a separator. *)
Lemma splitRuns_snoc_separator chars c :
  App.isSeparator c = true →
  App.splitRuns (chars ++ [c])
  = if from_option App.isSeparator false (last chars)
    then App.splitRuns chars else App.splitRuns chars ++ [[]].
Proof.
  intros Hc. induction chars as [|ch rest IH]; cbn [app].
  - cbn. by rewrite Hc.
  - destruct rest as [|r rs].
    + cbn. rewrite Hc. cbn. destruct (App.isSeparator ch) eqn:Hch; by cbn.
    + change (last (ch :: r :: rs)) with (last (r :: rs)).
      cbn [app] in *. cbn [App.splitRuns head from_option].
      cbn [App.splitRuns head from_option] in IH. rewrite IH.
      destruct (App.isSeparator ch) eqn:Hch.
      * destruct (App.isSeparator r), (from_option App.isSeparator false (last (r :: rs)));
          done.
      * destruct (from_option App.isSeparator false (last (r :: rs))); [done|].
        match goal with
        | |- context [match ?x ++ _ with _ => _ end] => destruct x eqn:E
        end; [|done].
        exfalso. revert E. apply (splitRuns_nonempty (r :: rs)).
Qed.

(** Any other character typed at the end joins the last piece. *)
Lemma splitRuns_snoc_word chars c :
  App.isSeparator c = false →
  ∃ init piece,
    App.splitRuns chars = init ++ [piece]
    ∧ App.splitRuns (chars ++ [c]) = init ++ [piece ++ [c]].
Proof.
  intros Hc. induction chars as [|ch rest (init & piece & E1 & E2)]; cbn [app].
  - exists [], []. cbn. by rewrite Hc.
  - assert (from_option App.isSeparator false (head (rest ++ [c]))
            = from_option App.isSeparator false (head rest)) as Hla.
    { destruct rest; cbn; [done|done]. }
    cbn [App.splitRuns]. rewrite Hla, E1, E2.
    destruct (App.isSeparator ch).
    + destruct (from_option App.isSeparator false (head rest)).
      * by exists init, piece.
      * by exists ([] :: init), piece.
    + destruct init as [|i0 init]; cbn.
      * by exists [], (ch :: piece).
      * by exists ((ch :: i0) :: init), piece.
Qed.

(** *** [trim] *)

Lemma trimStart_spec chars :
  ∃ pre, chars = pre ++ App.trimStart chars
    ∧ Forall (λ ch, App.isWhiteSpace ch = true) pre
    ∧ from_option App.isWhiteSpace false (head (App.trimStart chars)) = false.
Proof.
  induction chars as [|ch rest (pre & E & Hpre & Hh)]; cbn.
  - by exists [].
  - destruct (App.isWhiteSpace ch) eqn:Hch.
    + exists (ch :: pre). cbn. rewrite <- E. by repeat constructor.
    + exists []. by cbn.
Qed.

Lemma trimStart_blank pre chars :
  Forall (λ ch, App.isWhiteSpace ch = true) pre →
  App.trimStart (pre ++ chars) = App.trimStart chars.
Proof. induction 1 as [|ch pre Hch _ IH]; cbn; [done|]. by rewrite Hch. Qed.

Lemma trimStart_inked chars :
  from_option App.isWhiteSpace false (head chars) = false →
  App.trimStart chars = chars.
Proof. destruct chars as [|ch rest]; cbn; [done|]. by intros ->. Qed.

Lemma head_reverse {A} (l : list A) : head (reverse l) = last l.
Proof.
  induction l as [|x l IH] using rev_ind; [done|].
  by rewrite reverse_snoc, last_snoc.
Qed.

Lemma last_reverse {A} (l : list A) : last (reverse l) = head l.
Proof. by rewrite <- head_reverse, reverse_involutive. Qed.

Lemma trim_eq pre m post :
  Forall (λ ch, App.isWhiteSpace ch = true) pre →
  Forall (λ ch, App.isWhiteSpace ch = true) post →
  from_option App.isWhiteSpace false (head m) = false →
  from_option App.isWhiteSpace false (last m) = false →
  App.trim (pre ++ m ++ post) = m.
Proof.
  intros Hpre Hpost Hh Hl. unfold App.trim. rewrite trimStart_blank by done.
  destruct m as [|ch m].
  - cbn [app]. rewrite <- (app_nil_r post), trimStart_blank by done. by cbn.
  - rewrite (trimStart_inked ((ch :: m) ++ post)) by done.
    rewrite reverse_app, trimStart_blank by (by apply Forall_reverse).
    rewrite trimStart_inked by (by rewrite head_reverse).
    apply reverse_involutive.
Qed.

Lemma trim_spec chars :
  ∃ pre post,
    chars = pre ++ App.trim chars ++ post
    ∧ Forall (λ ch, App.isWhiteSpace ch = true) pre
    ∧ Forall (λ ch, App.isWhiteSpace ch = true) post
    ∧ from_option App.isWhiteSpace false (head (App.trim chars)) = false
    ∧ from_option App.isWhiteSpace false (last (App.trim chars)) = false.
Proof.
  unfold App.trim.
  destruct (trimStart_spec chars) as (pre & E1 & Hpre & Hh1).
  destruct (trimStart_spec (reverse (App.trimStart chars))) as (pre2 & E2 & Hpre2 & Hh2).
  set (m := App.trimStart chars) in *.
  set (m2 := App.trimStart (reverse m)) in *.
  assert (m = reverse m2 ++ reverse pre2) as Em.
  { by rewrite <- reverse_app, <- E2, reverse_involutive. }
  exists pre, (reverse pre2). repeat split.
  - by rewrite <- Em.
  - done.
  - by apply Forall_reverse.
  - destruct (reverse m2) as [|ch r] eqn:Er; [done|].
    rewrite Em in Hh1. by cbn in *.
  - by rewrite last_reverse.
Qed.

Lemma trim_snoc_blank chars c :
  App.isWhiteSpace c = true → App.trim (chars ++ [c]) = App.trim chars.
Proof.
  intros Hc. destruct (trim_spec chars) as (pre & post & E & Hpre & Hpost & Hh & Hl).
  rewrite E at 1. rewrite <- !app_assoc. apply trim_eq; try done.
  apply Forall_app. by repeat constructor.
Qed.

Lemma trim_no_separator chars :
  Forall (λ ch, App.isSeparator ch = false) chars →
  Forall (λ ch, App.isSeparator ch = false) (App.trim chars).
Proof.
  intros H. destruct (trim_spec chars) as (pre & post & E & _).
  rewrite E in H. by apply Forall_app in H as [_ [H _]%Forall_app].
Qed.

(** *** What the editor stores *)

Lemma tokens_clean chars w : w ∈ tokens chars → cleanChars w.
Proof.
  unfold tokens. intros [Hlen Hw]%list_elem_of_filter.
  apply list_elem_of_fmap in Hw as (piece & -> & Hp).
  pose proof (splitRuns_no_separator chars) as Hs.
  rewrite Forall_forall in Hs. specialize (Hs _ Hp).
  destruct (trim_spec piece) as (pre & post & E & _ & _ & Hh & Hl).
  repeat split; try done.
  - intros Hnil. rewrite Hnil in Hlen. cbn in Hlen. lia.
  - by apply trim_no_separator.
Qed.

Lemma blank_char_cases c :
  App.isSeparator c = true ∨ App.isWhiteSpace c = true →
  App.isSeparator c = true ∨ (App.isSeparator c = false ∧ App.isWhiteSpace c = true).
Proof. destruct (App.isSeparator c); [by left|]. intros [|]; [done|by right]. Qed.

Lemma tokens_snoc_blank chars c :
  App.isSeparator c = true ∨ App.isWhiteSpace c = true →
  tokens (chars ++ [c]) = tokens chars.
Proof.
  intros [Hc|[Hc Hw]]%blank_char_cases; unfold tokens.
  - rewrite splitRuns_snoc_separator by done.
    destruct (from_option _ _ _); [done|].
    rewrite fmap_app, filter_app.
    change (filter _ (App.trim <$> [[]])) with (@nil (list ascii)).
    by rewrite app_nil_r.
  - destruct (splitRuns_snoc_word chars c Hc) as (init & piece & -> & ->).
    rewrite !fmap_app, !filter_app. cbn. by rewrite trim_snoc_blank.
Qed.

Lemma tokens_app_blank chars suffix :
  blankChars suffix → tokens (chars ++ suffix) = tokens chars.
Proof.
  unfold blankChars. induction suffix as [|c suffix IH] using rev_ind; intros H.
  - by rewrite app_nil_r.
  - apply Forall_app in H as [H1 H2]. inversion_clear H2.
    rewrite app_assoc, tokens_snoc_blank by done. auto.
Qed.

Lemma splitRuns_comma_space rest :
  ∃ piece pieces,
    App.splitRuns rest = piece :: pieces
    ∧ App.splitRuns (String.list_ascii_of_string ", " ++ rest)
      = [] :: (" "%char :: piece) :: pieces.
Proof.
  destruct (splitRuns_cons_word " "%char rest eq_refl) as (piece & pieces & E1 & E2).
  exists piece, pieces. split; [done|].
  change (String.list_ascii_of_string ", " ++ rest)
    with (","%char :: " "%char :: rest).
  change (App.splitRuns (","%char :: " "%char :: rest))
    with ([] :: App.splitRuns (" "%char :: rest)).
  by rewrite E2.
Qed.

Lemma splitRuns_join (ws : list string) :
  Forall cleanWord ws →
  App.splitRuns (String.list_ascii_of_string (String.concat ", " ws))
  = spaced (String.list_ascii_of_string <$> ws).
Proof.
  induction 1 as [|w ws Hw Hws IH]; [done|].
  destruct Hw as (_ & Hsep & _).
  destruct ws as [|w2 ws].
  - cbn. destruct (splitRuns_app_word (String.list_ascii_of_string w) [] Hsep)
      as (piece & pieces & E1 & E2).
    cbn in E1. simplify_eq. by rewrite !app_nil_r in E2.
  - change (String.concat ", " (w :: w2 :: ws))
      with (w +:+ ", " +:+ String.concat ", " (w2 :: ws)).
    rewrite !list_ascii_of_string_app.
    set (rest := String.list_ascii_of_string (String.concat ", " (w2 :: ws))) in *.
    destruct (splitRuns_app_word (String.list_ascii_of_string w)
                (String.list_ascii_of_string ", " ++ rest) Hsep)
      as (piece & pieces & E1 & E2).
    rewrite E2.
    destruct (splitRuns_comma_space rest) as (p2 & ps2 & E3 & E4).
    rewrite E4 in E1. rewrite IH in E3. cbn in E3. simplify_eq.
    cbn. by rewrite app_nil_r.
Qed.

Lemma trim_clean w : cleanChars w → App.trim w = w.
Proof.
  intros (_ & _ & Hh & Hl).
  rewrite <- (app_nil_r w) at 1. by apply (trim_eq [] w []).
Qed.

Lemma trim_spaced_clean w : cleanChars w → App.trim (" "%char :: w) = w.
Proof.
  intros (_ & _ & Hh & Hl).
  rewrite <- (app_nil_r w) at 1. apply (trim_eq [" "%char] w []); try done.
  by repeat constructor.
Qed.

Lemma cleanChars_length w : cleanChars w → (0 < length w)%nat.
Proof. intros [Hne _]. destruct w; [done|cbn; lia]. Qed.

Lemma tokens_join (ws : list string) :
  Forall cleanWord ws →
  tokens (String.list_ascii_of_string (String.concat ", " ws))
  = String.list_ascii_of_string <$> ws.
Proof.
  intros Hws. unfold tokens. rewrite splitRuns_join by done.
  destruct Hws as [|w ws Hw Hws]; [done|].
  rewrite fmap_cons. unfold spaced. rewrite fmap_cons, trim_clean by done.
  rewrite filter_cons_True by (by apply cleanChars_length).
  f_equal. induction Hws as [|w2 ws Hw2 Hws IH]; [done|].
  rewrite !fmap_cons, trim_spaced_clean by done.
  rewrite filter_cons_True by (by apply cleanChars_length).
  by f_equal.
Qed.

Lemma string_of_list_ascii_fmap (ws : list string) :
  String.string_of_list_ascii <$> (String.list_ascii_of_string <$> ws) = ws.
Proof.
  induction ws as [|w ws IH]; cbn; [done|].
  by rewrite String.string_of_list_ascii_of_string, IH.
Qed.

(** ** What the bank editor stores of a typed text *)

(** X6.  The round trip of the bank editor ([handleUpdateActiveWords]
    and the textareas of [renderSettings], App.tsx).  Whatever text a
    textarea carries, every word cut from it is clean: not empty, without
    a comma or a line break, and with no white space at either end; and
    joining the words with [', '], as the textarea shows them, and
    cutting again gives the same words.  The other way round, a list of
    clean words, shown joined by [', '], is read back from that text
    unchanged. *)
Theorem bank_words_round_trip :
  (∀ text,
     Forall cleanWord (App.wordsOfText text)
     ∧ App.wordsOfText (String.concat ", " (App.wordsOfText text))
       = App.wordsOfText text)
  ∧ (∀ ws : list string,
     Forall cleanWord ws → App.wordsOfText (String.concat ", " ws) = ws).
Proof.
  assert (∀ ws : list string,
            Forall cleanWord ws → App.wordsOfText (String.concat ", " ws) = ws)
    as Hback.
  { intros ws Hws. rewrite wordsOfText_tokens, tokens_join by done.
    apply string_of_list_ascii_fmap. }
  split; [|done]. intros text.
  assert (Forall cleanWord (App.wordsOfText text)) as Hclean.
  { rewrite wordsOfText_tokens. apply Forall_fmap, Forall_forall.
    intros w Hw. unfold cleanWord. cbn.
    rewrite String.list_ascii_of_string_of_list_ascii. by eapply tokens_clean. }
  split; [done|]. by apply Hback.
Qed.

Lemma bank_words_round_trip_witness :
  Forall cleanWord (App.ws_easy App.classicPack)
  ∧ App.wordsOfText "Cat, Sun, House, Apple, Pizza"
    = ["Cat"; "Sun"; "House"; "Apple"; "Pizza"]%string.
Proof.
  assert (Forall cleanWord (App.ws_easy App.classicPack)) as H.
  { refine (bool_decide_unpack _ _). vm_compute. exact I. }
  split; [exact H|]. exact (proj2 bank_words_round_trip _ H).
Defined.

(** X7.  [handleUpdateActiveWords] (App.tsx): commas, line breaks and
    white space added at the end of a text change nothing of the words
    cut from it; the list the textarea then shows is the one it showed
    before. *)
Theorem bank_words_ignore_trailing_blanks :
  ∀ text suffix : string,
    blankChars (String.list_ascii_of_string suffix) →
    App.wordsOfText (text +:+ suffix) = App.wordsOfText text.
Proof.
  intros text suffix H.
  by rewrite !wordsOfText_tokens, list_ascii_of_string_app, tokens_app_blank.
Qed.

Lemma bank_words_ignore_trailing_blanks_witness :
  blankChars (String.list_ascii_of_string ", ")
  ∧ App.wordsOfText ("Cat, Sun" +:+ ", ") = App.wordsOfText "Cat, Sun".
Proof.
  assert (blankChars (String.list_ascii_of_string ", ")) as H.
  { unfold blankChars. cbn. repeat constructor; vm_compute; tauto. }
  split; [exact H|]. exact (bank_words_ignore_trailing_blanks _ _ H).
Defined.

(** ** The banks of the settings modal *)

Lemma find_selected sel (sets : list App.WordSet) :
  sel ∈ App.ws_id <$> sets →
  ∃ s, List.find (λ s, bool_decide (App.ws_id s = sel)) sets = Some s
       ∧ s ∈ sets ∧ App.ws_id s = sel.
Proof.
  induction sets as [|s0 sets IH]; [by intros ?%elem_of_nil|].
  rewrite fmap_cons. cbn [List.find]. case_bool_decide as E.
  - intros _. exists s0. split; [done|]. split; [by left|done].
  - intros [?|Hin]%elem_of_cons; [done|].
    destruct (IH Hin) as (s & F & Hs & Hid). exists s. split; [done|].
    split; [by right|done].
Qed.

Lemma find_stale sel (sets : list App.WordSet) :
  sel ∉ App.ws_id <$> sets →
  List.find (λ s, bool_decide (App.ws_id s = sel)) sets = None.
Proof.
  induction sets as [|s0 sets IH]; [done|].
  rewrite fmap_cons, not_elem_of_cons. intros [Hne Hin]. cbn [List.find].
  rewrite bool_decide_eq_false_2 by done. auto.
Qed.

Lemma activeSet_selected c :
  App.selectedSetId c ∈ bankIds c →
  App.activeSet c ∈ App.wordSets c
  ∧ App.ws_id (App.activeSet c) = App.selectedSetId c.
Proof.
  intros (s & F & Hs & Hid)%find_selected. unfold App.activeSet. by rewrite F.
Qed.

Lemma activeSet_stale c :
  App.selectedSetId c ∉ bankIds c →
  App.activeSet c = default App.emptySet (head (App.wordSets c)).
Proof. intros F%find_stale. unfold App.activeSet. by rewrite F. Qed.

Lemma find_fmap_selected sel (f : App.WordSet → App.WordSet) sets :
  (∀ s, App.ws_id (f s) = App.ws_id s) →
  List.find (λ s, bool_decide (App.ws_id s = sel))
    ((λ s, if bool_decide (App.ws_id s = sel) then f s else s) <$> sets)
  = f <$> List.find (λ s, bool_decide (App.ws_id s = sel)) sets.
Proof.
  intros Hf. induction sets as [|s0 sets IH]; [done|].
  rewrite fmap_cons. cbn [List.find].
  destruct (decide (App.ws_id s0 = sel)) as [E|E].
  - rewrite (bool_decide_eq_true_2 _ E), Hf. by rewrite (bool_decide_eq_true_2 _ E).
  - by rewrite !(bool_decide_eq_false_2 _ E).
Qed.

Lemma mapActive_ids f c :
  (∀ s, App.ws_id (f s) = App.ws_id s) → bankIds (App.mapActive f c) = bankIds c.
Proof.
  intros Hf. unfold bankIds, App.mapActive. cbn.
  rewrite <- list_fmap_compose. apply list_fmap_ext. intros i s _. cbn.
  case_bool_decide; [apply Hf|done].
Qed.

Lemma activeSet_mapActive f c :
  (∀ s, App.ws_id (f s) = App.ws_id s) →
  App.selectedSetId c ∈ bankIds c →
  App.activeSet (App.mapActive f c) = f (App.activeSet c).
Proof.
  intros Hf (s & F & _)%find_selected. unfold App.activeSet, App.mapActive. cbn.
  by rewrite find_fmap_selected, F.
Qed.

Lemma mapActive_others f c i s :
  App.wordSets c !! i = Some s → App.ws_id s ≠ App.selectedSetId c →
  App.wordSets (App.mapActive f c) !! i = Some s.
Proof.
  intros Hi Hne. unfold App.mapActive. cbn.
  rewrite list_lookup_fmap, Hi. cbn. by rewrite bool_decide_eq_false_2.
Qed.

Lemma set_wordSets_same c : App.set_wordSets (App.wordSets c) c = c.
Proof. by destruct c. Qed.

Lemma mapActive_stale f c :
  App.selectedSetId c ∉ bankIds c → App.mapActive f c = c.
Proof.
  intros Hs. unfold App.mapActive.
  rewrite <- (set_wordSets_same c) at 3. f_equal.
  rewrite <- (list_fmap_id (App.wordSets c)) at 2.
  apply list_fmap_ext. intros i s Hi. cbn.
  rewrite bool_decide_eq_false_2; [done|]. intros E. apply Hs.
  unfold bankIds. rewrite <- E. eapply list_elem_of_fmap_2, list_elem_of_lookup_2, Hi.
Qed.

Lemma find_filter_other sel sid (sets : list App.WordSet) :
  sel ≠ sid →
  List.find (λ s, bool_decide (App.ws_id s = sel))
    (filter (λ s, App.ws_id s ≠ sid) sets)
  = List.find (λ s, bool_decide (App.ws_id s = sel)) sets.
Proof.
  intros Hne. induction sets as [|s0 sets IH]; [done|].
  rewrite filter_cons. case_decide as E.
  - cbn [List.find]. by rewrite IH.
  - cbn [List.find]. rewrite bool_decide_eq_false_2; [done|].
    congruence.
Qed.

Lemma handleDeleteSet_other sid c :
  sid ≠ App.selectedSetId c →
  App.handleDeleteSet sid c
  = if bool_decide (length (App.wordSets c) ≤ 1)%nat then c
    else App.set_wordSets (filter (λ s, App.ws_id s ≠ sid) (App.wordSets c)) c.
Proof.
  intros Hne. unfold App.handleDeleteSet. case_bool_decide; [done|].
  by rewrite (bool_decide_eq_false_2 (App.selectedSetId c = sid)).
Qed.

Lemma handleDeleteSet_selection sid c :
  sid ≠ App.selectedSetId c →
  App.selectedSetId c ∈ bankIds c →
  App.selectedSetId (App.handleDeleteSet sid c) = App.selectedSetId c
  ∧ App.selectedSetId c ∈ bankIds (App.handleDeleteSet sid c)
  ∧ App.activeSet (App.handleDeleteSet sid c) = App.activeSet c.
Proof.
  intros Hne Hs. rewrite handleDeleteSet_other by done.
  case_bool_decide; [done|]. split; [done|]. split.
  - unfold bankIds in *. cbn.
    apply list_elem_of_fmap in Hs as (s & E & Hin).
    apply list_elem_of_fmap. exists s. split; [done|].
    apply list_elem_of_filter. split; [congruence|done].
  - unfold App.activeSet. cbn. rewrite find_filter_other by done.
    apply find_selected in Hs as (s & -> & _). done.
Qed.

(** Outside the settings modal no event touches the banks. *)
Lemma App_onScreen_banks e c c1 :
  App.onScreen e c = Some c1 →
  App.wordSets c1 = App.wordSets c ∧ App.selectedSetId c1 = App.selectedSetId c.
Proof.
  intros Hd. destruct c as [[ph sp ps cur cp pcs t r mr ws h] pool sel open sets sid ti].
  destruct e; unfold App.onScreen in Hd; cbn in Hd; try done;
    split_on_vars Hd; app_unfold Hd;
    repeat (case_bool_decide; destruct_and?; simplify_eq);
    simplify_option_eq; try done.
  all: by destruct ws.
Qed.

Lemma App_timerEffect_banks c c1 :
  App.wordSets (App.timerEffect c c1) = App.wordSets c1
  ∧ App.selectedSetId (App.timerEffect c c1) = App.selectedSetId c1.
Proof. unfold App.timerEffect. by case_bool_decide. Qed.

Lemma App_step_selection e c c' :
  App.step e c = Some c' →
  App.selectedSetId c ∈ bankIds c → App.selectedSetId c' ∈ bankIds c'.
Proof.
  unfold App.step. destruct (App.validDraws e); [|done].
  intros Hs Hsel. destruct (App.dispatch e c) as [c1|] eqn:Hd; simplify_eq/=.
  unfold bankIds. destruct (App_timerEffect_banks c c1) as [-> ->].
  fold (bankIds c1).
  assert (App.wordSets c1 = App.wordSets c ∧ App.selectedSetId c1 = App.selectedSetId c
          → App.selectedSetId c1 ∈ bankIds c1) as Hsame.
  { unfold bankIds. by intros [-> ->]. }
  unfold App.dispatch in Hd.
  destruct e; cbn [App.isSettingsControl] in Hd;
    try (by apply Hsame, (App_onScreen_banks _ _ _ Hd));
    try (destruct (App.isSettingsOpen c); [|done]);
    cbn in Hd; try done;
    repeat case_bool_decide; destruct_and?; simplify_eq; try (by apply Hsame).
  - (* handleCreateSet *)
    unfold bankIds. cbn. rewrite fmap_app. apply elem_of_app. right. by left.
  - (* a bank is clicked *)
    done.
  - (* handleDeleteSet *)
    destruct (handleDeleteSet_selection sid c) as (-> & ? & _); done.
  - (* handleUpdateActiveWords *)
    destruct d; simplify_eq/=; by rewrite mapActive_ids.
  - (* handleUpdateActiveName *)
    unfold App.handleUpdateActiveName. by rewrite mapActive_ids.
  - (* the interval fires *)
    destruct (App.timerInterval c); [|done]. apply Hsame.
    unfold App.tick in Hd. case_bool_decide; simplify_option_eq; done.
Qed.

Lemma App_run_selection es :
  ∀ c c', App.run es c = Some c' →
    App.selectedSetId c ∈ bankIds c → App.selectedSetId c' ∈ bankIds c'.
Proof.
  induction es as [|e es IH]; intros c c' Hrun Hsel; simplify_eq/=; [done|].
  destruct (App.step e c) as [c1|] eqn:Hs; simplify_eq/=.
  eauto using App_step_selection.
Qed.

Lemma customPrompts_length s : length (App.customPrompts s) = App.wordCount s.
Proof.
  unfold App.customPrompts, App.wordCount.
  rewrite !length_app, !length_fmap. lia.
Qed.

Lemma handleUpdateActiveWords_mapActive d words c c' :
  App.handleUpdateActiveWords d words c = Some c' →
  ∃ f, c' = App.mapActive f c
       ∧ (∀ s, App.ws_id (f s) = App.ws_id s)
       ∧ (∀ s, App.ws_name (f s) = App.ws_name s)
       ∧ (∀ s, App.bankWords d (f s) = Some words)
       ∧ (∀ s d', d' ≠ d → App.bankWords d' (f s) = App.bankWords d' s).
Proof.
  destruct d; intros [= <-]; eexists; (split; [reflexivity|]);
    repeat split; try done; intros s []; done.
Qed.

Lemma find_app_stale sel (sets more : list App.WordSet) :
  sel ∉ App.ws_id <$> sets →
  List.find (λ s, bool_decide (App.ws_id s = sel)) (sets ++ more)
  = List.find (λ s, bool_decide (App.ws_id s = sel)) more.
Proof.
  induction sets as [|s0 sets IH]; [done|].
  rewrite fmap_cons, not_elem_of_cons. intros [Hne Hin]. cbn [app List.find].
  rewrite bool_decide_eq_false_2 by done. auto.
Qed.

(** ** The banks: what holds after every event *)

(** X8.  The bank selection of App.tsx ([selectedSetId], [activeSet],
    [handleCreateSet], [handleDeleteSet] and the editor's handlers): if
    the selected id names a bank when the component mounts, it names one
    after every sequence of events; the active bank then is a bank of
    the list and carries the selected id. *)
Theorem bank_selection_stays_valid :
  ∀ es c c',
    App.selectedSetId c ∈ bankIds c →
    App.run es c = Some c' →
    App.selectedSetId c' ∈ bankIds c'
    ∧ App.activeSet c' ∈ App.wordSets c'
    ∧ App.ws_id (App.activeSet c') = App.selectedSetId c'.
Proof.
  intros es c c' Hsel Hrun.
  pose proof (App_run_selection es c c' Hrun Hsel) as H.
  split; [done|]. by apply activeSet_selected.
Qed.

Lemma bank_selection_stays_valid_witness :
  App.selectedSetId
    (App_after [App.OpenSettings; App.CreateSet "x"; App.SelectSet "default";
                App.DeleteSet "x"; App.CloseSettings])
  ∈ bankIds
      (App_after [App.OpenSettings; App.CreateSet "x"; App.SelectSet "default";
                  App.DeleteSet "x"; App.CloseSettings]).
Proof.
  refine (proj1 (bank_selection_stays_valid
    [App.OpenSettings; App.CreateSet "x"; App.SelectSet "default";
     App.DeleteSet "x"; App.CloseSettings] App_exInitial _ _ _)).
  - refine (bool_decide_unpack _ _). vm_compute. exact I.
  - vm_compute. reflexivity.
Defined.

(** X9.  [handleCreateSet] (App.tsx): a bank created under an id no
    bank carries is appended to the list, becomes the selected and the
    active bank, is named after the new number of banks and holds no
    word. *)
Theorem new_bank_is_selected_and_empty :
  ∀ newId c,
    newId ∉ bankIds c →
    App.activeSet (App.handleCreateSet newId c)
    = App.mkWordSet newId
        ("Custom Bank " +:+ pretty (length (App.wordSets c) + 1)%nat) [] [] []
    ∧ App.wordSets (App.handleCreateSet newId c)
      = App.wordSets c ++ [App.activeSet (App.handleCreateSet newId c)]
    ∧ App.selectedSetId (App.handleCreateSet newId c) = newId
    ∧ App.wordCount (App.activeSet (App.handleCreateSet newId c)) = 0%nat.
Proof.
  intros newId c Hfresh.
  assert (App.activeSet (App.handleCreateSet newId c)
          = App.mkWordSet newId
              ("Custom Bank " +:+ pretty (length (App.wordSets c) + 1)%nat) [] [] [])
    as E.
  { unfold App.activeSet, App.handleCreateSet. cbn.
    rewrite find_app_stale by done. cbn. by rewrite bool_decide_eq_true_2. }
  rewrite E. done.
Qed.

Lemma new_bank_is_selected_and_empty_witness :
("x"%string ∉ bankIds App_exInitial)
  ∧ App.activeSet (App.handleCreateSet "x" App_exInitial)
    = App.mkWordSet "x" "Custom Bank 2" [] [] [].
Proof.
  assert ("x"%string ∉ bankIds App_exInitial) as H.
  { refine (bool_decide_unpack _ _). vm_compute. exact I. }
  split; [exact H|].
  exact (proj1 (new_bank_is_selected_and_empty "x" App_exInitial H)).
Defined.

(** X10.  [startMatch] with the custom word source (App.tsx): the words
    of the active bank become the prompt pool, as many prompts as the
    bank's card counts words.  With fewer than three the match does not
    start: the alert is raised, the settings modal is opened, the game
    state is left as it was and no prompt is requested.  With three or
    more the first turn is set up at once, for the first player, in
    round 1, with 60 seconds and three choices, again without a
    request. *)
Theorem custom_start_needs_three_words :
  ∀ d c,
    (2 ≤ length (App.players (App.gameState c)))%nat →
    App.wordSource (App.gameState c) = App.src_custom →
    length (App.customPrompts (App.activeSet c)) = App.wordCount (App.activeSet c)
    ∧ ((App.wordCount (App.activeSet c) < 3)%nat →
       App.startMatch d c
       = (App.set_isSettingsOpen true c,
          [App.Alert "This bank needs more words! Categorize them into Easy, Medium, and Hard in settings."]))
    ∧ ((3 ≤ App.wordCount (App.activeSet c))%nat →
       ∃ c', App.startMatch d c = (c', [])
         ∧ App.allPrompts c' = App.customPrompts (App.activeSet c)
         ∧ App.phase (App.gameState c') = App.PLAYING
         ∧ App.subPhase (App.gameState c') = Some App.PRE_TURN
         ∧ App.currentPlayerIndex (App.gameState c') = 0%nat
         ∧ App.rounds (App.gameState c') = 1%Z
         ∧ App.timer (App.gameState c') = 60%Z
         ∧ length (App.promptChoices (App.gameState c')) = 3%nat
         ∧ App.players (App.gameState c') = App.players (App.gameState c)
         ∧ App.history (App.gameState c') = App.history (App.gameState c)).
Proof.
  intros d c Hn Hws. split; [apply customPrompts_length|].
  unfold App.startMatch. rewrite Hws, bool_decide_eq_false_2 by lia.
  rewrite customPrompts_length. split; intros Hc.
  - by rewrite bool_decide_eq_true_2.
  - rewrite bool_decide_eq_false_2 by lia. eexists. split; [reflexivity|].
    cbn. repeat split. apply App_choicesOf_length.
    intros _. rewrite customPrompts_length. lia.
Qed.

Lemma custom_start_needs_three_words_witness :
  (App.wordCount
     (App.activeSet (App_afterBank [App.AddPlayer "a" "Alice"; App.AddPlayer "b" "Bob"]))
   = 3)%nat
  ∧ ∃ c', App.startMatch exDraws
            (App_afterBank [App.AddPlayer "a" "Alice"; App.AddPlayer "b" "Bob"])
          = (c', [])
          ∧ App.subPhase (App.gameState c') = Some App.PRE_TURN.
Proof.
  split; [vm_compute; reflexivity|].
  destruct (custom_start_needs_three_words exDraws
    (App_afterBank [App.AddPlayer "a" "Alice"; App.AddPlayer "b" "Bob"]))
    as (_ & _ & H).
  - vm_compute. lia.
  - vm_compute. reflexivity.
  - destruct H as (c' & E & _ & _ & Hs & _).
    + vm_compute. lia.
    + exists c'. split; [exact E|exact Hs].
Defined.

(** X11.  [handleDeleteSet] (App.tsx), on a bank other than the selected
    one (the only banks that show the delete button): a single bank is
    never deleted; otherwise exactly the banks with that id leave the
    list, and, the selected id naming a bank, the selection and the
    active bank stay as they were. *)
Theorem delete_keeps_the_active_bank :
  ∀ sid c,
    sid ≠ App.selectedSetId c →
    App.selectedSetId c ∈ bankIds c →
    App.selectedSetId (App.handleDeleteSet sid c) = App.selectedSetId c
    ∧ App.activeSet (App.handleDeleteSet sid c) = App.activeSet c
    ∧ App.gameState (App.handleDeleteSet sid c) = App.gameState c
    ∧ ((length (App.wordSets c) ≤ 1)%nat → App.handleDeleteSet sid c = c)
    ∧ ((2 ≤ length (App.wordSets c))%nat →
       App.wordSets (App.handleDeleteSet sid c)
       = filter (λ s, App.ws_id s ≠ sid) (App.wordSets c)
       ∧ sid ∉ bankIds (App.handleDeleteSet sid c)).
Proof.
  intros sid c Hne Hsel.
  destruct (handleDeleteSet_selection sid c Hne Hsel) as (E1 & _ & E2).
  split; [done|]. split; [done|].
  rewrite handleDeleteSet_other by done. split; [by case_bool_decide|].
  split; intros Hlen.
  - by rewrite bool_decide_eq_true_2.
  - rewrite bool_decide_eq_false_2 by lia. split; [done|].
    unfold bankIds. cbn. intros (s & E & [Hs _]%list_elem_of_filter)%list_elem_of_fmap.
    congruence.
Qed.

Lemma delete_keeps_the_active_bank_witness :
  App.activeSet
    (App.handleDeleteSet "x" (App_after [App.OpenSettings; App.CreateSet "x";
                                         App.SelectSet "default"]))
  = App.classicPack.
Proof.
  refine (eq_trans (proj1 (proj2 (delete_keeps_the_active_bank "x"
    (App_after [App.OpenSettings; App.CreateSet "x"; App.SelectSet "default"])
    _ _))) _).
  - vm_compute. discriminate.
  - refine (bool_decide_unpack _ _). vm_compute. exact I.
  - vm_compute. reflexivity.
Defined.

(** X12.  [handleUpdateActiveWords] and [handleUpdateActiveName]
    (App.tsx), the selected id naming a bank: the list written is the
    list the active bank then holds for that difficulty; its other two
    lists, its name and its id stay, the ids of all banks stay, and a
    bank with another id is left as it was.  A new name is the name the
    active bank then has, and its three lists stay. *)
Theorem bank_edit_is_read_back :
  ∀ c,
    App.selectedSetId c ∈ bankIds c →
    (∀ d words c',
       App.handleUpdateActiveWords d words c = Some c' →
       App.bankWords d (App.activeSet c') = Some words
       ∧ (∀ d', d' ≠ d →
            App.bankWords d' (App.activeSet c') = App.bankWords d' (App.activeSet c))
       ∧ App.ws_name (App.activeSet c') = App.ws_name (App.activeSet c)
       ∧ bankIds c' = bankIds c
       ∧ App.selectedSetId c' = App.selectedSetId c
       ∧ ∀ i s, App.wordSets c !! i = Some s →
           App.ws_id s ≠ App.selectedSetId c → App.wordSets c' !! i = Some s)
    ∧ (∀ n,
       App.ws_name (App.activeSet (App.handleUpdateActiveName n c)) = n
       ∧ (∀ d, App.bankWords d (App.activeSet (App.handleUpdateActiveName n c))
               = App.bankWords d (App.activeSet c))
       ∧ bankIds (App.handleUpdateActiveName n c) = bankIds c).
Proof.
  intros c Hsel. split.
  - intros d words c' (f & -> & Hid & Hname & Hd & Hd')%handleUpdateActiveWords_mapActive.
    rewrite activeSet_mapActive by done.
    repeat split; auto using mapActive_ids, mapActive_others.
  - intros n. unfold App.handleUpdateActiveName.
    rewrite activeSet_mapActive, mapActive_ids by done.
    repeat split; by intros.
Qed.

Lemma bank_edit_is_read_back_witness :
  App.bankWords App.easy
    (App.activeSet
       (default App_exInitial
          (App.handleUpdateActiveWords App.easy ["Dog"; "Moon"] App_exInitial)))
  = Some ["Dog"; "Moon"]%string.
Proof.
  refine (proj1 (proj1 (bank_edit_is_read_back App_exInitial _)
                   App.easy ["Dog"; "Moon"]%string _ _)).
  - refine (bool_decide_unpack _ _). vm_compute. exact I.
  - vm_compute. reflexivity.
Defined.

(** X13.  The bank editor of App.tsx under a selected id that no bank
    carries: [activeSet] falls back to the first bank, which the editor
    then shows, but [handleUpdateActiveWords] and
    [handleUpdateActiveName] match banks by the selected id, so every
    edit leaves the component as it was. *)
Theorem stale_selection_drops_edits :
  ∀ c first rest,
    App.wordSets c = first :: rest →
    App.selectedSetId c ∉ bankIds c →
    App.activeSet c = first
    ∧ (∀ n, App.handleUpdateActiveName n c = c)
    ∧ (∀ d words, d ≠ App.custom →
         App.handleUpdateActiveWords d words c = Some c).
Proof.
  intros c first rest Hsets Hstale. split.
  - by rewrite activeSet_stale, Hsets.
  - split.
    + intros n. unfold App.handleUpdateActiveName. by apply mapActive_stale.
    + intros [] words Hd; try done; unfold App.handleUpdateActiveWords;
        by rewrite mapActive_stale.
Qed.

Lemma stale_selection_drops_edits_witness :
  App.activeSet (App.initial App.src_custom [App_exBank] "gone") = App_exBank
  ∧ App.handleUpdateActiveWords App.easy ["Dog"]
      (App.initial App.src_custom [App_exBank] "gone")
    = Some (App.initial App.src_custom [App_exBank] "gone").
Proof.
  destruct (stale_selection_drops_edits
              (App.initial App.src_custom [App_exBank] "gone") App_exBank [])
    as (H1 & _ & H2).
  - reflexivity.
  - refine (bool_decide_unpack _ _). vm_compute. exact I.
  - split; [exact H1|]. apply H2. discriminate.
Defined.

(** ** The roster *)

Lemma filter_id_fresh (ps : list Player) x :
  x ∉ id <$> ps → filter (λ q, id q ≠ x) ps = ps.
Proof.
  induction ps as [|q ps IH]; [done|].
  rewrite fmap_cons, not_elem_of_cons. intros [Hne Hin].
  rewrite filter_cons_True by done. by rewrite IH.
Qed.

Lemma filter_id_exact (ps : list Player) i p :
  NoDup (id <$> ps) → ps !! i = Some p →
  filter (λ q, id q ≠ id p) ps = delete i ps.
Proof.
  revert i. induction ps as [|q ps IH]; intros i Hnd Hi; [done|].
  rewrite fmap_cons in Hnd. apply NoDup_cons in Hnd as [Hq Hnd].
  destruct i as [|i]; simplify_eq/=.
  - rewrite filter_cons_False by (intros H; by apply H).
    by apply filter_id_fresh.
  - rewrite filter_cons_True.
    + by rewrite (IH i).
    + intros E. apply Hq. rewrite E.
      eapply list_elem_of_fmap_2, list_elem_of_lookup_2, Hi.
Qed.

Lemma App_set_players_same g : App.set_players (App.players g) g = g.
Proof. by destruct g. Qed.

Lemma App_set_gameState_same c : App.set_gameState (App.gameState c) c = c.
Proof. by destruct c. Qed.

Lemma Lobby_set_players_same g : Lobby.set_players (Lobby.players g) g = g.
Proof. by destruct g. Qed.

Lemma Lobby_set_gameState_same c : Lobby.set_gameState (Lobby.gameState c) c = c.
Proof. by destruct c. Qed.

(** X14.  [addPlayer] and [removePlayer] (App.tsx; [addPlayer] and the
    remove button of [renderLobby] in part_000): a blank name adds
    nobody; any other name enters at the end of the roster with score 0
    and leaves the rows before it as they were; removing an id no row
    carries changes nothing, so removing the id just added restores the
    component; and on a roster of distinct ids, removing the id of the
    row at index [i] deletes that row and no other. *)
Theorem roster_add_and_remove :
  (∀ c newId newName,
     App.addPlayer newId EmptyString c = c
     ∧ (newName ≠ EmptyString →
        App.players (App.gameState (App.addPlayer newId newName c))
        = App.players (App.gameState c) ++ [mkPlayer newId newName 0])
     ∧ (newName ≠ EmptyString →
        newId ∉ id <$> App.players (App.gameState c) →
        App.removePlayer newId (App.addPlayer newId newName c) = c)
     ∧ (∀ i p,
        NoDup (id <$> App.players (App.gameState c)) →
        App.players (App.gameState c) !! i = Some p →
        App.players (App.gameState (App.removePlayer (id p) c))
        = delete i (App.players (App.gameState c))))
  ∧ (∀ c newId newName,
     Lobby.addPlayer newId EmptyString c = c
     ∧ (newName ≠ EmptyString →
        Lobby.players (Lobby.gameState (Lobby.addPlayer newId newName c))
        = Lobby.players (Lobby.gameState c) ++ [mkPlayer newId newName 0])
     ∧ (newName ≠ EmptyString →
        newId ∉ id <$> Lobby.players (Lobby.gameState c) →
        Lobby.removePlayer newId (Lobby.addPlayer newId newName c) = c)
     ∧ (∀ i p,
        NoDup (id <$> Lobby.players (Lobby.gameState c)) →
        Lobby.players (Lobby.gameState c) !! i = Some p →
        Lobby.players (Lobby.gameState (Lobby.removePlayer (id p) c))
        = delete i (Lobby.players (Lobby.gameState c)))).
Proof.
  split; intros c newId newName.
  - split; [done|]. split; [|split].
    + intros Hn. unfold App.addPlayer. by rewrite bool_decide_eq_false_2.
    + intros Hn Hfresh. unfold App.addPlayer, App.removePlayer, App.setGameState.
      rewrite bool_decide_eq_false_2 by done. cbn.
      rewrite filter_app, filter_id_fresh by done.
      rewrite filter_cons_False by (intros H; by apply H).
      rewrite filter_nil, app_nil_r.
      destruct c as [[] ?]; done.
    + intros i p Hnd Hi. cbn. by apply filter_id_exact.
  - split; [done|]. split; [|split].
    + intros Hn. unfold Lobby.addPlayer. by rewrite bool_decide_eq_false_2.
    + intros Hn Hfresh.
      unfold Lobby.addPlayer, Lobby.removePlayer, Lobby.setGameState.
      rewrite bool_decide_eq_false_2 by done. cbn.
      rewrite filter_app, filter_id_fresh by done.
      rewrite filter_cons_False by (intros H; by apply H).
      rewrite filter_nil, app_nil_r.
      destruct c as [[] ?]; done.
    + intros i p Hnd Hi. cbn. by apply filter_id_exact.
Qed.

Lemma roster_add_and_remove_witness :
  App.removePlayer "c" (App.addPlayer "c" "Carol" (App_after App_exStart))
  = App_after App_exStart
  ∧ Lobby.players
      (Lobby.gameState (Lobby.removePlayer "a" (Lobby_after Lobby_exStart)))
    = [mkPlayer "b" "Bob" 0].
Proof.
  split.
  - refine (proj1 (proj2 (proj2 (proj1 roster_add_and_remove
      (App_after App_exStart) "c"%string "Carol"%string))) _ _).
    + discriminate.
    + refine (bool_decide_unpack _ _). vm_compute. exact I.
  - refine (proj2 (proj2 (proj2 (proj2 roster_add_and_remove
      (Lobby_after Lobby_exStart) "c"%string "Carol"%string))) 0%nat
      (mkPlayer "a" "Alice" 0) _ _).
    + refine (bool_decide_unpack _ _). vm_compute. exact I.
    + vm_compute. reflexivity.
Defined.

(** ** Ticking guessers *)

Lemma toggle_twice (sel : gset string) x :
  (if bool_decide (x ∈ (if bool_decide (x ∈ sel) then sel ∖ {[x]} else sel ∪ {[x]}))
   then (if bool_decide (x ∈ sel) then sel ∖ {[x]} else sel ∪ {[x]}) ∖ {[x]}
   else (if bool_decide (x ∈ sel) then sel ∖ {[x]} else sel ∪ {[x]}) ∪ {[x]})
  = sel.
Proof.
  destruct (decide (x ∈ sel)) as [Hx|Hx].
  - rewrite !(bool_decide_eq_true_2 _ Hx).
    rewrite bool_decide_eq_false_2
      by (rewrite elem_of_difference, elem_of_singleton; tauto).
    apply set_eq. intros y.
    rewrite elem_of_union, elem_of_difference, !elem_of_singleton.
    destruct (decide (y = x)) as [->|]; tauto.
  - rewrite !(bool_decide_eq_false_2 _ Hx).
    rewrite bool_decide_eq_true_2
      by (rewrite elem_of_union, elem_of_singleton; tauto).
    apply set_eq. intros y.
    rewrite elem_of_difference, elem_of_union, !elem_of_singleton.
    destruct (decide (y = x)) as [->|]; tauto.
Qed.

Lemma toggle_flips (sel : gset string) x :
  (x ∈ (if bool_decide (x ∈ sel) then sel ∖ {[x]} else sel ∪ {[x]}) ↔ x ∉ sel)
  ∧ (∀ y, y ≠ x →
       y ∈ (if bool_decide (x ∈ sel) then sel ∖ {[x]} else sel ∪ {[x]})
       ↔ y ∈ sel).
Proof.
  case_bool_decide; split; try intros y Hy;
    rewrite ?elem_of_union, ?elem_of_difference, ?elem_of_singleton; tauto.
Qed.

(** X15.  The guesser buttons of the scoring screen (App.tsx,
    part_000): a click flips the membership of that player's id in
    [selectedGuesserIds] and of no other id, and touches nothing else;
    clicking the same button twice restores the component. *)
Theorem guesser_toggle_flips_one_id :
  (∀ p c,
     App.toggleGuesser p (App.toggleGuesser p c) = c
     ∧ (id p ∈ App.selectedGuesserIds (App.toggleGuesser p c)
        ↔ id p ∉ App.selectedGuesserIds c)
     ∧ (∀ x, x ≠ id p →
          x ∈ App.selectedGuesserIds (App.toggleGuesser p c)
          ↔ x ∈ App.selectedGuesserIds c)
     ∧ App.gameState (App.toggleGuesser p c) = App.gameState c)
  ∧ (∀ p c,
     Lobby.toggleGuesser p (Lobby.toggleGuesser p c) = c
     ∧ (id p ∈ Lobby.selectedGuesserIds (Lobby.toggleGuesser p c)
        ↔ id p ∉ Lobby.selectedGuesserIds c)
     ∧ (∀ x, x ≠ id p →
          x ∈ Lobby.selectedGuesserIds (Lobby.toggleGuesser p c)
          ↔ x ∈ Lobby.selectedGuesserIds c)
     ∧ Lobby.gameState (Lobby.toggleGuesser p c) = Lobby.gameState c).
Proof.
  split; intros p c.
  - split.
    { unfold App.toggleGuesser. destruct c as [g pool sel o sets sid ti]. cbn.
      by rewrite toggle_twice. }
    unfold App.toggleGuesser. cbn.
    destruct (toggle_flips (App.selectedGuesserIds c) (id p)) as [H1 H2].
    by repeat split; try apply H1; try apply H2.
  - split.
    { unfold Lobby.toggleGuesser. destruct c as [g pool sel ti]. cbn.
      by rewrite toggle_twice. }
    unfold Lobby.toggleGuesser. cbn.
    destruct (toggle_flips (Lobby.selectedGuesserIds c) (id p)) as [H1 H2].
    by repeat split; try apply H1; try apply H2.
Qed.

(** ** The points one scoring step hands out *)

Lemma totalScore_award (f : Player → Player) (g : Player → Z) ps :
  (∀ p, score (f p) = (score p + g p)%Z) →
  totalScore (f <$> ps)
  = (totalScore ps + foldr (λ p acc, (g p + acc)%Z) 0%Z ps)%Z.
Proof.
  intros Hf. induction ps as [|p ps IH]; [done|].
  cbn. rewrite Hf. fold (totalScore (f <$> ps)). fold (totalScore ps).
  rewrite IH. lia.
Qed.

Lemma sum_drawerAward_absent drawer sel base (ps : list Player) :
  id drawer ∉ id <$> ps →
  foldr (λ p acc, (drawerAward drawer sel base p + acc)%Z) 0%Z ps = 0%Z.
Proof.
  induction ps as [|q ps IH]; [done|].
  rewrite fmap_cons, not_elem_of_cons. intros [Hne Hin]. cbn.
  rewrite IH by done. unfold drawerAward.
  rewrite bool_decide_eq_false_2; [done|]. intros [E _]. congruence.
Qed.

Lemma sum_drawerAward drawer sel base (ps : list Player) :
  NoDup (id <$> ps) → drawer ∈ ps →
  foldr (λ p acc, (drawerAward drawer sel base p + acc)%Z) 0%Z ps
  = if decide (sel = ∅) then 0%Z else base.
Proof.
  induction ps as [|q ps IH]; [by intros _ ?%elem_of_nil|].
  rewrite fmap_cons. intros [Hq Hnd]%NoDup_cons [->|Hin]%elem_of_cons; cbn.
  - rewrite sum_drawerAward_absent by done. unfold drawerAward.
    destruct (decide (sel = ∅)) as [E|E].
    + rewrite bool_decide_eq_false_2; [done|]. by intros [_ ?].
    + rewrite bool_decide_eq_true_2 by done. lia.
  - rewrite IH by done. unfold drawerAward.
    rewrite bool_decide_eq_false_2; [done|]. intros [E _]. apply Hq.
    rewrite E. by apply list_elem_of_fmap_2.
Qed.

Lemma sum_guesserAward sel base t (ps : list Player) :
  foldr (λ p acc, (guesserAward sel base t p + acc)%Z) 0%Z ps
  = ((base + speedAward t) * Z.of_nat (length (filter (λ p, id p ∈ sel) ps)))%Z.
Proof.
  induction ps as [|q ps IH]; [cbn; lia|].
  cbn [foldr]. rewrite IH, filter_cons. unfold guesserAward.
  destruct (decide (id q ∈ sel)) as [E|E].
  - rewrite bool_decide_eq_true_2 by done. cbn [length]. lia.
  - rewrite bool_decide_eq_false_2 by done. lia.
Qed.

Lemma sum_sum (f g : Player → Z) ps :
  foldr (λ p acc, (f p + g p + acc)%Z) 0%Z ps
  = (foldr (λ p acc, (f p + acc)%Z) 0%Z ps
     + foldr (λ p acc, (g p + acc)%Z) 0%Z ps)%Z.
Proof. induction ps as [|q ps IH]; cbn; lia. Qed.

Lemma filter_ids_agree (ps : list Player) (sel sel' : gset string) :
  (∀ p, p ∈ ps → id p ∈ sel ↔ id p ∈ sel') →
  filter (λ p, id p ∈ sel) ps = filter (λ p, id p ∈ sel') ps.
Proof.
  induction ps as [|q ps IH]; intros H; [done|].
  rewrite !filter_cons, IH by (intros p Hp; apply H; by right).
  destruct (decide (id q ∈ sel)) as [E|E], (decide (id q ∈ sel')) as [E'|E'];
    try done; exfalso; apply (H q (list_elem_of_here _ _)) in E || apply (H q (list_elem_of_here _ _)) in E'; done.
Qed.

(** On a roster of distinct ids, the rows whose id is ticked are as many
    as the ticked ids, when every ticked id is on the roster. *)
Lemma selected_count (ps : list Player) :
  ∀ sel : gset string,
    NoDup (id <$> ps) → (∀ x, x ∈ sel → x ∈ id <$> ps) →
    length (filter (λ p, id p ∈ sel) ps) = size sel.
Proof.
  induction ps as [|q ps IH]; intros sel Hnd Hsub.
  - cbn. symmetry. apply size_empty_iff. intros x. split; [|by intros ?%elem_of_empty].
    intros Hx. by apply Hsub, elem_of_nil in Hx.
  - rewrite fmap_cons in Hnd, Hsub. apply NoDup_cons in Hnd as [Hq Hnd].
    rewrite filter_cons. destruct (decide (id q ∈ sel)) as [E|E].
    + cbn [length].
      assert (sel = {[id q]} ∪ sel ∖ {[id q]}) as Hsel.
      { apply set_eq. intros y.
        rewrite elem_of_union, elem_of_difference, !elem_of_singleton.
        destruct (decide (y = id q)) as [->|]; tauto. }
      replace (size sel) with (size ({[id q]} ∪ sel ∖ {[id q]}))
        by (by rewrite <- Hsel).
      rewrite size_union, size_singleton.
      2: { intros y. rewrite elem_of_difference, !elem_of_singleton. tauto. }
      f_equal. rewrite <- (IH (sel ∖ {[id q]})); [|done|].
      * f_equal. apply filter_ids_agree. intros p Hp.
        rewrite elem_of_difference, not_elem_of_singleton.
        split; [|tauto]. intros Hin. split; [done|]. intros Ep. apply Hq.
        rewrite <- Ep. by apply list_elem_of_fmap_2.
      * intros x [Hx Hne]%elem_of_difference.
        apply Hsub, elem_of_cons in Hx as [->|Hx]; [|done].
        by apply not_elem_of_singleton in Hne.
    + apply IH; [done|]. intros x Hx.
      pose proof (Hsub x Hx) as [->|?]%elem_of_cons; done.
Qed.

Lemma offered_on_roster ps cur x : offered ps cur x → x ∈ id <$> ps.
Proof.
  intros (i & p & _ & Hi & <-).
  eapply list_elem_of_fmap_2, list_elem_of_lookup_2, Hi.
Qed.

Lemma points_of_a_turn drawer (sel : gset string) base t (ps : list Player) cur :
  NoDup (id <$> ps) → ps !! cur = Some drawer →
  (∀ x, x ∈ sel → offered ps cur x) →
  foldr (λ p acc, (drawerAward drawer sel base p + guesserAward sel base t p + acc)%Z)
    0%Z ps
  = if decide (sel = ∅) then 0%Z
    else (base + Z.of_nat (size sel) * (base + speedAward t))%Z.
Proof.
  intros Hnd Hdr Hoff.
  rewrite (sum_sum (drawerAward drawer sel base) (guesserAward sel base t)).
  rewrite sum_drawerAward, sum_guesserAward, selected_count;
    eauto using offered_on_roster, list_elem_of_lookup_2.
  destruct (decide (sel = ∅)) as [->|]; [rewrite size_empty|]; lia.
Qed.

(** X16.  [submitScore] (App.tsx) and [finalizeScore] (part_000) on a
    reachable scoring screen whose players have distinct ids: the step
    goes through; with nobody ticked no point is handed out, and with
    [k] players ticked the scores rise in total by the base points of
    the word, for the drawer, plus [k] times the base points and the
    speed award; the entry appended to the history lists [k] winners. *)
Theorem points_handed_out_per_turn :
  (∀ c,
     App.reachable c →
     App.subPhase (App.gameState c) = Some App.CONFIRM_SCORE →
     NoDup (id <$> App.players (App.gameState c)) →
     ∃ c' entry,
       App.step App.SubmitScore c = Some c'
       ∧ totalScore (App.players (App.gameState c'))
         = (totalScore (App.players (App.gameState c))
            + if decide (App.selectedGuesserIds c = ∅) then 0
              else App.basePoints (App.gameState c)
                   + Z.of_nat (size (App.selectedGuesserIds c))
                     * (App.basePoints (App.gameState c)
                        + speedAward (App.timer (App.gameState c))))%Z
       ∧ last (App.history (App.gameState c')) = Some entry
       ∧ length (History.winners entry) = size (App.selectedGuesserIds c))
  ∧ (∀ c,
     Lobby.reachable c →
     Lobby.phase (Lobby.gameState c) = Lobby.CONFIRM_SCORE →
     NoDup (id <$> Lobby.players (Lobby.gameState c)) →
     ∃ c' entry,
       Lobby.step Lobby.FinalizeScore c = Some c'
       ∧ totalScore (Lobby.players (Lobby.gameState c'))
         = (totalScore (Lobby.players (Lobby.gameState c))
            + if decide (Lobby.selectedGuesserIds c = ∅) then 0
              else Lobby.basePoints (Lobby.gameState c)
                   + Z.of_nat (size (Lobby.selectedGuesserIds c))
                     * (Lobby.basePoints (Lobby.gameState c)
                        + speedAward (Lobby.timer (Lobby.gameState c))))%Z
       ∧ last (Lobby.history (Lobby.gameState c')) = Some entry
       ∧ length (History.winners entry) = size (Lobby.selectedGuesserIds c)).
Proof.
  split; intros c Hr Hs Hnd.
  - destruct (App_scored_turn c Hr Hs) as (c1 & drawer & Hsub & Hstep & Hdr & Hoff).
    destruct (App_submitScore_spec c c1 Hsub) as (dr & Hdr' & Hps & Hh & _).
    simplify_eq. eexists _, _. split; [exact Hstep|].
    rewrite App_timerEffect_gameState, Hps, Hh. split; [|split].
    + unfold App.isSpeedBonus.
      rewrite (totalScore_award _
        (λ p, (drawerAward drawer (App.selectedGuesserIds c)
                 (App.basePoints (App.gameState c)) p
               + guesserAward (App.selectedGuesserIds c)
                   (App.basePoints (App.gameState c))
                   (App.timer (App.gameState c)) p)%Z))
        by (intros p; apply App_awardPlayer_score).
      f_equal. by eapply points_of_a_turn.
    + apply last_snoc.
    + cbn. rewrite length_fmap.
      apply selected_count; [done|]. eauto using offered_on_roster.
  - destruct (Lobby_scored_turn c Hr Hs) as (c1 & drawer & Hsub & Hstep & Hdr & Hoff).
    destruct (Lobby_finalizeScore_spec c c1 Hsub) as (dr & Hdr' & Hps & Hh & _).
    simplify_eq. eexists _, _. split; [exact Hstep|].
    rewrite Lobby_timerEffect_gameState, Hps, Hh. split; [|split].
    + unfold Lobby.isSpeedBonus.
      rewrite (totalScore_award _
        (λ p, (drawerAward drawer (Lobby.selectedGuesserIds c)
                 (Lobby.basePoints (Lobby.gameState c)) p
               + guesserAward (Lobby.selectedGuesserIds c)
                   (Lobby.basePoints (Lobby.gameState c))
                   (Lobby.timer (Lobby.gameState c)) p)%Z))
        by (intros p; apply Lobby_awardPlayer_score).
      f_equal. by eapply points_of_a_turn.
    + apply last_snoc.
    + cbn. rewrite length_fmap.
      apply selected_count; [done|]. eauto using offered_on_roster.
Qed.

Lemma points_handed_out_per_turn_witness :
  ∃ c' entry,
    App.step App.SubmitScore (App_after App_exScoring) = Some c'
    ∧ totalScore (App.players (App.gameState c')) = 3%Z
    ∧ last (App.history (App.gameState c')) = Some entry
    ∧ length (History.winners entry) = 1%nat.
Proof.
  destruct (proj1 points_handed_out_per_turn (App_after App_exScoring))
    as (c' & entry & H1 & H2 & H3 & H4).
  - exists App.src_ai, [App.classicPack], "default"%string, App_exScoring.
    vm_compute. reflexivity.
  - vm_compute. reflexivity.
  - refine (bool_decide_unpack _ _). vm_compute. exact I.
  - exists c', entry. split; [exact H1|]. split; [|split; [exact H3|]].
    + rewrite H2. vm_compute. reflexivity.
    + rewrite H4. vm_compute. reflexivity.
Defined.

(** ** How far a match has come *)

Lemma App_progress_initial ws sets sel : App_progress (App.initial ws sets sel).
Proof. unfold App_progress, MAX_ROUNDS. cbn. repeat split; lia. Qed.

Lemma App_onSettings_progress e c c1 :
  App.onSettings e c = Some c1 →
  App_progress c → App_progress (App.timerEffect c c1).
Proof.
  intros Hd Hp. destruct (App_onSettings_frame _ _ _ Hd) as (ws & sets & sid & open & ->).
  unfold App_progress in *. rewrite App_timerEffect_gameState.
  by destruct c as [[]].
Qed.

(** The index of the next drawer: the roster is walked in order, and
    the index wraps to 0 exactly after its last row. *)
Lemma next_index cur n :
  (cur < n)%nat →
  (((cur + 1) `mod` n = 0 ∧ S cur = n)
   ∨ ((cur + 1) `mod` n = cur + 1 ∧ S cur < n))%nat.
Proof.
  intros Hc. destruct (decide (S cur = n)) as [E|E].
  - left. split; [|done]. replace (cur + 1)%nat with n by lia.
    apply Nat.Div0.mod_same.
  - right. split; [|lia]. apply Nat.mod_small. lia.
Qed.

Lemma winners_nonempty_iff (ps : list Player) cur (sel : gset string) :
  (∀ x, x ∈ sel → offered ps cur x) →
  (0 < size sel)%nat ↔ name <$> filter (λ p, id p ∈ sel) ps ≠ [].
Proof.
  intros Hoff. split.
  - intros Hs. destruct (size_pos_elem_of sel Hs) as [x Hx].
    destruct (Hoff x Hx) as (i & p & _ & Hi & <-).
    intros E. pose proof (winners_hold ps sel i p Hi Hx) as Hw.
    rewrite E in Hw. by apply elem_of_nil in Hw.
  - intros Hw. destruct (filter (λ p, id p ∈ sel) ps) as [|p l] eqn:E; [done|].
    assert (p ∈ filter (λ p, id p ∈ sel) ps) as [Hp _]%list_elem_of_filter
      by (rewrite E; by left).
    destruct (decide (size sel = 0%nat)) as [Hz|]; [|lia].
    apply size_empty_iff in Hz. by apply Hz in Hp.
Qed.

Lemma App_step_progress e c c' :
  App.step e c = Some c' → App_inv c → App_progress c → App_progress c'.
Proof.
  unfold App.step. destruct (App.validDraws e) eqn:Hv; [|done].
  intros Hs Hinv Hp. destruct (App.dispatch e c) as [c1|] eqn:Hd; simplify_eq/=.
  destruct (App.isSettingsControl e) eqn:Hctl.
  { destruct e; try discriminate Hctl; unfold App.dispatch in Hd;
      cbn [App.isSettingsControl] in Hd;
      destruct (App.isSettingsOpen c); try discriminate Hd;
      by eapply App_onSettings_progress. }
  unfold App_progress. rewrite App_timerEffect_gameState.
  destruct c as [[ph sp ps cur cp pcs t r mr ws h] pool sel open sets sid ti].
  unfold App_progress, App_turnNumber, App_entry_of_turn in Hp. cbn in Hp.
  destruct Hp as (Hmr & Hr & Hp).
  destruct ph, sp as [[]|]; app_facts;
    destruct e; try discriminate Hctl; subst;
    unfold App.dispatch, App.onScreen in Hd; cbn in Hd;
    try discriminate Hd; app_unfold Hd.
  all: repeat (case_bool_decide; destruct_and?; simplify_eq);
       try (split_on_vars Hd; try discriminate Hd).
  all: simplify_option_eq.
  all: repeat match goal with
       | |- context [match ?x with _ => _ end] => is_var x; destruct x; cbn
       end.
  all: unfold App_turnNumber, App_entry_of_turn, MAX_ROUNDS in *; cbn.
  all: rewrite ?length_app, ?length_fmap; cbn.
  all: try (repeat split; try done; lia).
  all: try (split; [done|]; split; [lia|]; split; [lia|];
            eexists _, _; rewrite last_snoc; split; [done|];
            split; [first [eassumption
                          | rewrite list_lookup_fmap;
                            match goal with H : _ !! _ = Some _ |- _ => rewrite H end;
                            reflexivity ]|];
            split; [done|]; split; [done|]; cbn;
            first [ by (split; [intros [=]|intros []])
                  | match goal with H : ∀ x, x ∈ _ → offered _ _ x |- _ =>
                      pose proof (proj1 (winners_nonempty_iff _ _ _ H));
                      pose proof (proj2 (winners_nonempty_iff _ _ _ H))
                    end; split; [first [tauto|intros [=]]|]; intros ?; first [done|exfalso; tauto] ]).
  all: match goal with H : (_ < length _)%nat |- _ =>
         destruct (next_index _ _ H) as [[Hm Hn]|[Hm Hn]] end;
       rewrite ?Hm in *; try done; repeat split; try done; lia.
Qed.

Lemma Lobby_progress_initial : Lobby_progress Lobby.initial.
Proof. unfold Lobby_progress, MAX_ROUNDS. cbn. repeat split; lia. Qed.

Lemma Lobby_step_progress e c c' :
  Lobby.step e c = Some c' → Lobby_inv c → Lobby_progress c → Lobby_progress c'.
Proof.
  unfold Lobby.step. destruct (Lobby.validDraws e) eqn:Hv; [|done].
  intros Hs Hinv Hp. destruct (Lobby.dispatch e c) as [c1|] eqn:Hd; simplify_eq/=.
  unfold Lobby_progress. rewrite Lobby_timerEffect_gameState.
  destruct c as [[ps cur cp pcs ph t r mr h] pool sel ti].
  unfold Lobby_progress, Lobby_turnNumber in Hp. cbn in Hp.
  destruct Hp as (Hmr & Hr & Hp).
  destruct ph; lobby_facts;
    destruct e; subst; unfold Lobby.dispatch, Lobby.onScreen in Hd; cbn in Hd;
    try discriminate Hd; lobby_unfold Hd.
  all: repeat (case_bool_decide; destruct_and?; simplify_eq).
  all: simplify_option_eq.
  all: unfold Lobby_turnNumber, MAX_ROUNDS in *; cbn.
  all: rewrite ?length_app, ?length_fmap; cbn.
  all: try (repeat split; try done; lia).
  all: match goal with H : (_ < length _)%nat |- _ =>
         destruct (next_index _ _ H) as [[Hm Hn]|[Hm Hn]] end;
       rewrite ?Hm in *; try done; repeat split; try done; lia.
Qed.

Lemma App_run_progress es :
  ∀ c c', App.run es c = Some c' →
    App_inv c → App_progress c → App_inv c' ∧ App_progress c'.
Proof.
  induction es as [|e es IH]; intros c c' Hrun Hinv Hp; simplify_eq/=; [done|].
  destruct (App.step e c) as [c1|] eqn:Hs; simplify_eq/=.
  eauto using App_step_inv, App_step_progress.
Qed.

Lemma App_reachable_progress c : App.reachable c → App_progress c.
Proof.
  intros (ws & sets & sel & es & Hrun).
  eapply App_run_progress; [done|apply App_inv_initial|apply App_progress_initial].
Qed.

Lemma Lobby_run_progress es :
  ∀ c c', Lobby.run es c = Some c' →
    Lobby_inv c → Lobby_progress c → Lobby_inv c' ∧ Lobby_progress c'.
Proof.
  induction es as [|e es IH]; intros c c' Hrun Hinv Hp; simplify_eq/=; [done|].
  destruct (Lobby.step e c) as [c1|] eqn:Hs; simplify_eq/=.
  eauto using Lobby_step_inv, Lobby_step_progress.
Qed.

Lemma Lobby_reachable_progress c : Lobby.reachable c → Lobby_progress c.
Proof.
  intros (es & Hrun).
  eapply Lobby_run_progress; [done|apply Lobby_inv_initial|apply Lobby_progress_initial].
Qed.

Lemma App_inv_index c :
  App_inv c → App_progress c →
  App.history (App.gameState c) = []
  ∨ (App.currentPlayerIndex (App.gameState c)
     < length (App.players (App.gameState c)))%nat.
Proof.
  unfold App_inv, App_turn_ok, App_progress. intros Hinv (_ & _ & Hp).
  destruct (App.phase (App.gameState c)),
    (App.subPhase (App.gameState c)) as [[]|]; try done;
    destruct_and?; auto.
Qed.

Lemma Lobby_inv_index c :
  Lobby_inv c → Lobby_progress c →
  Lobby.history (Lobby.gameState c) = []
  ∨ (Lobby.currentPlayerIndex (Lobby.gameState c)
     < length (Lobby.players (Lobby.gameState c)))%nat.
Proof.
  unfold Lobby_inv, Lobby_turn_ok, Lobby_progress. intros Hinv (_ & _ & Hp).
  destruct (Lobby.phase (Lobby.gameState c)); destruct_and?; auto.
Qed.

Lemma App_progress_bound c :
  App_progress c →
  (Z.of_nat (length (App.history (App.gameState c)))
   ≤ App_turnNumber (App.gameState c) + 1)%Z.
Proof.
  unfold App_progress, App_turnNumber. intros (_ & Hr & Hp).
  destruct (App.phase (App.gameState c)),
    (App.subPhase (App.gameState c)) as [[]|];
    destruct_and?; try lia;
    match goal with H : App.history _ = [] |- _ => rewrite H end; cbn; nia.
Qed.

Lemma Lobby_progress_bound c :
  Lobby_progress c →
  (Z.of_nat (length (Lobby.history (Lobby.gameState c)))
   ≤ Lobby_turnNumber (Lobby.gameState c) + 1)%Z.
Proof.
  unfold Lobby_progress, Lobby_turnNumber. intros (_ & Hr & Hp).
  destruct (Lobby.phase (Lobby.gameState c)); destruct_and?; try lia;
    match goal with H : Lobby.history _ = [] |- _ => rewrite H end; cbn; nia.
Qed.

(** X17.  The round counter and the length of the history (App.tsx:
    [setupTurn], [nextTurn], [nextRound], [restartMatch]; part_000:
    [startTurnSetup], [handleNextTurn], [proceedFromRoundLeaderboard]).
    In every state either component can reach, [maxRounds] is 5 and
    [rounds] lies between 1 and 5; the round leaderboard is on screen
    only when the last player of the roster has drawn; and the history
    never holds more than five entries per player. *)
Theorem rounds_stay_within_five :
  (∀ c, App.reachable c →
     App.maxRounds (App.gameState c) = 5%Z
     ∧ (1 ≤ App.rounds (App.gameState c) ≤ 5)%Z
     ∧ (App.subPhase (App.gameState c) = Some App.ROUND_LEADERBOARD →
        S (App.currentPlayerIndex (App.gameState c))
        = length (App.players (App.gameState c)))
     ∧ (length (App.history (App.gameState c))
        ≤ 5 * length (App.players (App.gameState c)))%nat)
  ∧ (∀ c, Lobby.reachable c →
     Lobby.maxRounds (Lobby.gameState c) = 5%Z
     ∧ (1 ≤ Lobby.rounds (Lobby.gameState c) ≤ 5)%Z
     ∧ (Lobby.phase (Lobby.gameState c) = Lobby.ROUND_LEADERBOARD →
        S (Lobby.currentPlayerIndex (Lobby.gameState c))
        = length (Lobby.players (Lobby.gameState c)))
     ∧ (length (Lobby.history (Lobby.gameState c))
        ≤ 5 * length (Lobby.players (Lobby.gameState c)))%nat).
Proof.
  split; intros c Hr.
  - pose proof (App_reachable_inv c Hr) as Hinv.
    pose proof (App_reachable_progress c Hr) as Hp.
    pose proof (App_progress_bound c Hp) as Hb.
    pose proof (App_inv_index c Hinv Hp) as Hi.
    destruct Hp as (Hmr & Hrd & Hp). unfold MAX_ROUNDS in *.
    split; [done|]. split; [done|]. split.
    + intros Hs. unfold App_inv in Hinv. rewrite Hs in Hp, Hinv.
      destruct (App.phase (App.gameState c)); tauto.
    + destruct Hi as [->|Hi]; [cbn; lia|].
      unfold App_turnNumber in Hb. nia.
  - pose proof (Lobby_reachable_inv c Hr) as Hinv.
    pose proof (Lobby_reachable_progress c Hr) as Hp.
    pose proof (Lobby_progress_bound c Hp) as Hb.
    pose proof (Lobby_inv_index c Hinv Hp) as Hi.
    destruct Hp as (Hmr & Hrd & Hp). unfold MAX_ROUNDS in *.
    split; [done|]. split; [done|]. split.
    + intros Hs. rewrite Hs in Hp. tauto.
    + destruct Hi as [->|Hi]; [cbn; lia|].
      unfold Lobby_turnNumber in Hb. nia.
Qed.

Lemma rounds_stay_within_five_witness :
  S (App.currentPlayerIndex
       (App.gameState (App_after (App_exRoundOver ++ [App.NextTurn exDraws]))))
  = length (App.players
              (App.gameState (App_after (App_exRoundOver ++ [App.NextTurn exDraws])))).
Proof.
  refine (proj1 (proj2 (proj2 (proj1 rounds_stay_within_five _ _))) _).
  - exists App.src_ai, [App.classicPack], "default"%string,
      (App_exRoundOver ++ [App.NextTurn exDraws]).
    vm_compute. reflexivity.
  - vm_compute. reflexivity.
Defined.

(** X18.  The history of App.tsx (the interval callback, [skipTurn],
    [submitScore], [setupTurn], [restartMatch], [exitToHome]) counts the
    turns: in every reachable state of a match it holds
    [(rounds - 1) * players.length + currentPlayerIndex] entries while
    the current turn is being played, and one more on the post-turn and
    round-leaderboard screens; it is empty on the home screen and while
    the prompts are awaited, and after the match it holds one of the two
    counts. *)
Theorem App_history_counts_turns :
  ∀ c, App.reachable c →
    match App.phase (App.gameState c), App.subPhase (App.gameState c) with
    | App.HOME, _ | App.PLAYING, Some App.GETTING_PROMPTS =>
        App.history (App.gameState c) = []
    | App.PLAYING, Some App.POST_TURN | App.PLAYING, Some App.ROUND_LEADERBOARD =>
        Z.of_nat (length (App.history (App.gameState c)))
        = (App_turnNumber (App.gameState c) + 1)%Z
    | App.PLAYING, _ =>
        Z.of_nat (length (App.history (App.gameState c)))
        = App_turnNumber (App.gameState c)
    | App.GAME_OVER, _ =>
        (App_turnNumber (App.gameState c)
         ≤ Z.of_nat (length (App.history (App.gameState c)))
         ≤ App_turnNumber (App.gameState c) + 1)%Z
    end.
Proof.
  intros c Hr. destruct (App_reachable_progress c Hr) as (_ & _ & Hp).
  destruct (App.phase (App.gameState c)),
    (App.subPhase (App.gameState c)) as [[]|]; tauto.
Qed.

Lemma App_history_counts_turns_witness :
  Z.of_nat (length (App.history (App.gameState (App_after App_exRoundOver))))
  = (App_turnNumber (App.gameState (App_after App_exRoundOver)) + 1)%Z.
Proof.
  refine (App_history_counts_turns (App_after App_exRoundOver) _).
  exists App.src_ai, [App.classicPack], "default"%string, App_exRoundOver.
  vm_compute. reflexivity.
Defined.

(** X19.  The post-turn screen of App.tsx ([renderPlaying], POST_TURN):
    whenever it is on screen, the last entry of the history, which the
    screen reads, is the entry of the turn just ended: it names the
    current drawer and the current word.  It is marked correct exactly
    when it lists a winner, and the headline reads "Great Job!" exactly
    then. *)
Theorem App_post_turn_shows_the_turn :
  ∀ c, App.reachable c →
    App.subPhase (App.gameState c) = Some App.POST_TURN →
    ∃ entry drawer,
      App.lastEntry (App.gameState c) = Some entry
      ∧ App.players (App.gameState c) !! App.currentPlayerIndex (App.gameState c)
        = Some drawer
      ∧ History.playerName entry = name drawer
      ∧ History.word entry
        = from_option App.word EmptyString (App.currentPrompt (App.gameState c))
      ∧ (History.wasCorrect entry = true ↔ History.winners entry ≠ [])
      ∧ (App.postTurnHeadline (App.gameState c) = "Great Job!"%string
         ↔ History.winners entry ≠ []).
Proof.
  intros c Hr Hs. pose proof (App_reachable_inv c Hr) as Hinv.
  destruct (App_reachable_progress c Hr) as (_ & _ & Hp).
  unfold App_inv in Hinv. rewrite Hs in Hp, Hinv.
  destruct (App.phase (App.gameState c)); try done.
  destruct Hp as (_ & entry & drawer & Hl & Hd & Hn & Hw & Hc).
  exists entry, drawer. repeat split; try done; try tauto.
  - unfold App.postTurnHeadline, App.lastEntry. rewrite Hl. cbn.
    destruct (History.wasCorrect entry); [tauto|done].
  - unfold App.postTurnHeadline, App.lastEntry. rewrite Hl. cbn.
    intros Hne. apply Hc in Hne. by rewrite Hne.
Qed.

Lemma App_post_turn_shows_the_turn_witness :
  ∃ entry, App.lastEntry (App.gameState (App_after App_exRoundOver)) = Some entry
           ∧ History.playerName entry = "Bob"%string.
Proof.
  destruct (App_post_turn_shows_the_turn (App_after App_exRoundOver))
    as (entry & drawer & Hl & Hd & Hn & _).
  - exists App.src_ai, [App.classicPack], "default"%string, App_exRoundOver.
    vm_compute. reflexivity.
  - vm_compute. reflexivity.
  - exists entry. split; [exact Hl|]. rewrite Hn.
    vm_compute in Hd. injection Hd as <-. reflexivity.
Defined.

(** ** From one turn to the next *)

(** X20.  [nextTurn] (App.tsx) and [handleNextTurn] (part_000) on a
    reachable post-turn screen: the step goes through and leaves the
    roster, the history and the round as they are.  After the last
    player of the roster it shows the round leaderboard and keeps the
    drawer; otherwise the next player of the roster becomes the drawer
    of a fresh turn: no prompt chosen, 60 seconds, and the offer that
    [setupTurn] computes from the pool under the current word source
    (three choices in part_000, and in App.tsx whenever the source is
    'ai' or the pool has at least 3 prompts). *)
Theorem next_turn_follows_the_roster :
  (∀ c d,
     App.reachable c →
     App.subPhase (App.gameState c) = Some App.POST_TURN →
     unit_draws d →
     ∃ c', App.step (App.NextTurn d) c = Some c'
       ∧ App.players (App.gameState c') = App.players (App.gameState c)
       ∧ App.history (App.gameState c') = App.history (App.gameState c)
       ∧ App.rounds (App.gameState c') = App.rounds (App.gameState c)
       ∧ ((S (App.currentPlayerIndex (App.gameState c))
           = length (App.players (App.gameState c))
           ∧ App.subPhase (App.gameState c') = Some App.ROUND_LEADERBOARD
           ∧ App.currentPlayerIndex (App.gameState c')
             = App.currentPlayerIndex (App.gameState c))
          ∨ ((S (App.currentPlayerIndex (App.gameState c))
              < length (App.players (App.gameState c)))%nat
             ∧ App.subPhase (App.gameState c') = Some App.PRE_TURN
             ∧ App.currentPlayerIndex (App.gameState c')
               = S (App.currentPlayerIndex (App.gameState c))
             ∧ App.currentPrompt (App.gameState c') = None
             ∧ App.timer (App.gameState c') = 60%Z
             ∧ App.promptChoices (App.gameState c')
               = App.choicesOf (App.wordSource (App.gameState c)) (App.allPrompts c) d
             ∧ (App.wordSource (App.gameState c) = App.src_ai
                ∨ (3 ≤ length (App.allPrompts c))%nat →
                length (App.promptChoices (App.gameState c')) = 3%nat))))
  ∧ (∀ c d,
     Lobby.reachable c →
     Lobby.phase (Lobby.gameState c) = Lobby.POST_TURN →
     unit_draws d →
     ∃ c', Lobby.step (Lobby.NextTurn d) c = Some c'
       ∧ Lobby.players (Lobby.gameState c') = Lobby.players (Lobby.gameState c)
       ∧ Lobby.history (Lobby.gameState c') = Lobby.history (Lobby.gameState c)
       ∧ Lobby.rounds (Lobby.gameState c') = Lobby.rounds (Lobby.gameState c)
       ∧ ((S (Lobby.currentPlayerIndex (Lobby.gameState c))
           = length (Lobby.players (Lobby.gameState c))
           ∧ Lobby.phase (Lobby.gameState c') = Lobby.ROUND_LEADERBOARD
           ∧ Lobby.currentPlayerIndex (Lobby.gameState c')
             = Lobby.currentPlayerIndex (Lobby.gameState c))
          ∨ ((S (Lobby.currentPlayerIndex (Lobby.gameState c))
              < length (Lobby.players (Lobby.gameState c)))%nat
             ∧ Lobby.phase (Lobby.gameState c') = Lobby.PRE_TURN
             ∧ Lobby.currentPlayerIndex (Lobby.gameState c')
               = S (Lobby.currentPlayerIndex (Lobby.gameState c))
             ∧ Lobby.currentPrompt (Lobby.gameState c') = None
             ∧ Lobby.timer (Lobby.gameState c') = 60%Z
             ∧ Lobby.promptChoices (Lobby.gameState c')
               = Lobby.choicesOf (Lobby.allPrompts c) d
             ∧ length (Lobby.promptChoices (Lobby.gameState c')) = 3%nat))).
Proof.
  split; intros c d Hr Hs Hd.
  - pose proof (App_reachable_inv c Hr) as Hinv.
    destruct c as [[ph sp ps cur cp pcs t r mr ws h] pool sel open sets sid ti].
    cbn in Hs; subst sp. destruct ph; app_facts; subst.
    unfold App.step, App.validDraws. cbn. rewrite bool_decide_eq_true_2 by done.
    cbn. unfold App.nextTurn. cbn.
    rewrite bool_decide_eq_false_2 by lia.
    match goal with H : (cur < length _)%nat |- _ =>
      destruct (next_index _ _ H) as [[Hm Hn]|[Hm Hn]] end; rewrite Hm.
    + rewrite bool_decide_eq_true_2 by done. eexists. split; [reflexivity|].
      cbn. repeat split. left. by rewrite App_timerEffect_gameState.
    + rewrite bool_decide_eq_false_2 by lia. eexists. split; [reflexivity|].
      rewrite App_timerEffect_gameState. cbn. repeat split.
      right. repeat split; try done; try lia.
      intros Hb. apply App_choicesOf_length. intros ->. destruct Hb; [done|lia].
  - pose proof (Lobby_reachable_inv c Hr) as Hinv.
    destruct c as [[ps cur cp pcs ph t r mr h] pool sel ti].
    cbn in Hs; subst ph. lobby_facts; subst.
    unfold Lobby.step, Lobby.validDraws. cbn. rewrite bool_decide_eq_true_2 by done.
    cbn. unfold Lobby.handleNextTurn. cbn.
    rewrite bool_decide_eq_false_2 by lia.
    match goal with H : (cur < length _)%nat |- _ =>
      destruct (next_index _ _ H) as [[Hm Hn]|[Hm Hn]] end; rewrite Hm.
    + rewrite bool_decide_eq_true_2 by done. eexists. split; [reflexivity|].
      cbn. repeat split. left. by rewrite Lobby_timerEffect_gameState.
    + rewrite bool_decide_eq_false_2 by lia. eexists. split; [reflexivity|].
      rewrite Lobby_timerEffect_gameState. cbn. repeat split.
      right. repeat split; try done; lia.
Qed.

Lemma next_turn_follows_the_roster_witness :
  ∃ c', App.step (App.NextTurn exDraws) (App_after App_exScored) = Some c'
        ∧ App.currentPlayerIndex (App.gameState c') = 1%nat.
Proof.
  destruct (proj1 next_turn_follows_the_roster (App_after App_exScored) exDraws)
    as (c' & Hstep & _ & _ & _ & [(Hn & _)|(_ & _ & Hi & _)]).
  - exists App.src_ai, [App.classicPack], "default"%string, App_exScored.
    vm_compute. reflexivity.
  - vm_compute. reflexivity.
  - refine (bool_decide_unpack _ _). vm_compute. exact I.
  - vm_compute in Hn. discriminate Hn.
  - exists c'. split; [exact Hstep|]. rewrite Hi. vm_compute. reflexivity.
Defined.

(** ** Scoring screen and back *)

Lemma App_toggles_frame toggles :
  ∀ g pool sel open sets sid c1,
    App.subPhase g = Some App.CONFIRM_SCORE →
    App.run (App.ToggleGuesser <$> toggles)
      (App.mkComponent g pool sel open sets sid false) = Some c1 →
    ∃ sel1, c1 = App.mkComponent g pool sel1 open sets sid false.
Proof.
  induction toggles as [|i toggles IH]; intros g pool sel open sets sid c1 Hs Hrun.
  - cbn in Hrun. simplify_eq. by eexists.
  - cbn [fmap list_fmap App.run] in Hrun.
    destruct (App.step (App.ToggleGuesser i) _) as [c'|] eqn:E; [|done].
    cbn in Hrun. unfold App.step in E. cbn in E. unfold App.onScreen in E. cbn in E.
    rewrite Hs in E.
    destruct (App.phase g); try discriminate E.
    case_bool_decide; [|discriminate E].
    destruct (App.players g !! i) as [p|]; [|discriminate E].
    cbn in E. unfold App.timerEffect in E. cbn in E.
    rewrite bool_decide_eq_true_2 in E by done. simplify_eq.
    by eapply IH.
Qed.

Lemma Lobby_toggles_frame toggles :
  ∀ g pool sel c1,
    Lobby.phase g = Lobby.CONFIRM_SCORE →
    Lobby.run (Lobby.ToggleGuesser <$> toggles)
      (Lobby.mkComponent g pool sel false) = Some c1 →
    ∃ sel1, c1 = Lobby.mkComponent g pool sel1 false.
Proof.
  induction toggles as [|i toggles IH]; intros g pool sel c1 Hs Hrun.
  - cbn in Hrun. simplify_eq. by eexists.
  - cbn [fmap list_fmap Lobby.run] in Hrun.
    destruct (Lobby.step (Lobby.ToggleGuesser i) _) as [c'|] eqn:E; [|done].
    cbn in Hrun. unfold Lobby.step in E. cbn in E. unfold Lobby.onScreen in E. cbn in E.
    rewrite Hs in E.
    case_bool_decide; [|discriminate E].
    destruct (Lobby.players g !! i) as [p|]; [|discriminate E].
    cbn in E. unfold Lobby.timerEffect in E. cbn in E.
    rewrite bool_decide_eq_true_2 in E by done. simplify_eq.
    by eapply IH.
Qed.

(** X21.  [confirmSolved] and the Back button (App.tsx),
    [enterScoringPhase] and CANCEL (part_000), from a reachable drawing
    screen.  The solved button clears the ticked guessers and stops the
    countdown: the second on the timer is kept and the interval cannot
    fire on the scoring screen.  Going back, after any guesser buttons
    were used, restores every cell of the component but the ticked
    guessers, which stay as the scoring screen left them: the game
    state, with the same second on the timer, and the interval, live
    again.  (The cells are those of the App component; the canvas, which
    is mounted anew, is not among them.) *)
Theorem back_resumes_the_countdown :
  (∀ c toggles c1,
     App.reachable c →
     App.subPhase (App.gameState c) = Some App.DRAWING →
     App.run (App.ConfirmSolved :: (App.ToggleGuesser <$> toggles)) c = Some c1 →
     App.timer (App.gameState c1) = App.timer (App.gameState c)
     ∧ App.step App.Tick c1 = None
     ∧ App.step App.Back c1
       = Some (App.set_selectedGuesserIds (App.selectedGuesserIds c1) c)
     ∧ (toggles = [] → App.selectedGuesserIds c1 = ∅))
  ∧ (∀ c toggles c1,
     Lobby.reachable c →
     Lobby.phase (Lobby.gameState c) = Lobby.DRAWING →
     Lobby.run (Lobby.EnterScoring :: (Lobby.ToggleGuesser <$> toggles)) c = Some c1 →
     Lobby.timer (Lobby.gameState c1) = Lobby.timer (Lobby.gameState c)
     ∧ Lobby.step Lobby.Tick c1 = None
     ∧ Lobby.step Lobby.Cancel c1
       = Some (Lobby.set_selectedGuesserIds (Lobby.selectedGuesserIds c1) c)
     ∧ (toggles = [] → Lobby.selectedGuesserIds c1 = ∅)).
Proof.
  split; intros c toggles c1 Hr Hs Hrun.
  - pose proof (App_reachable_inv c Hr) as Hinv.
    destruct c as [[ph sp ps cur cp pcs t r mr ws h] pool sel open sets sid ti].
    cbn in Hs; subst sp. destruct ph; app_facts; subst.
    cbn [App.run] in Hrun.
    match type of Hrun with
    | context [App.mkGameState _ _ _ _ _ ?p _ _ _ _ _] => set (pcs := p) in *
    end.
    match type of Hrun with context [App.step App.ConfirmSolved ?c] =>
      assert (App.step App.ConfirmSolved c
              = Some (App.mkComponent
                        (App.mkGameState App.PLAYING (Some App.CONFIRM_SCORE) ps cur
                           cp pcs t r mr ws h) pool ∅ open sets sid false)) as E1
    end.
    { unfold App.step, App.timerEffect. cbn.
      rewrite bool_decide_eq_false_2 by done.
      rewrite bool_decide_eq_false_2 by (by intros [[=] _]). reflexivity. }
    rewrite E1 in Hrun. cbn -[App.run] in Hrun.
    split.
    { apply App_toggles_frame in Hrun as [sel1 ->]; done. }
    split.
    { apply App_toggles_frame in Hrun as [sel1 ->]; done. }
    split.
    { apply App_toggles_frame in Hrun as [sel1 ->]; [|done].
      unfold App.step, App.timerEffect. cbn.
      rewrite bool_decide_eq_false_2 by done.
      rewrite bool_decide_eq_true_2; [done|]. split; [done|]. lia. }
    intros ->. cbn in Hrun. by simplify_eq.
  - pose proof (Lobby_reachable_inv c Hr) as Hinv.
    destruct c as [[ps cur cp pcs ph t r mr h] pool sel ti].
    cbn in Hs; subst ph. lobby_facts; subst.
    cbn [Lobby.run] in Hrun.
    match type of Hrun with
    | context [Lobby.mkGameState _ _ _ ?p _ _ _ _ _] => set (pcs := p) in *
    end.
    match type of Hrun with context [Lobby.step Lobby.EnterScoring ?c] =>
      assert (Lobby.step Lobby.EnterScoring c
              = Some (Lobby.mkComponent
                        (Lobby.mkGameState ps cur cp pcs Lobby.CONFIRM_SCORE t r mr h)
                        pool ∅ false)) as E1
    end.
    { unfold Lobby.step, Lobby.timerEffect. cbn.
      rewrite bool_decide_eq_false_2 by done.
      rewrite bool_decide_eq_false_2 by (by intros [[=] _]). reflexivity. }
    rewrite E1 in Hrun. cbn -[Lobby.run] in Hrun.
    split.
    { apply Lobby_toggles_frame in Hrun as [sel1 ->]; done. }
    split.
    { apply Lobby_toggles_frame in Hrun as [sel1 ->]; done. }
    split.
    { apply Lobby_toggles_frame in Hrun as [sel1 ->]; [|done].
      unfold Lobby.step, Lobby.timerEffect. cbn.
      rewrite bool_decide_eq_false_2 by done.
      rewrite bool_decide_eq_true_2; [done|]. split; [done|]. lia. }
    intros ->. cbn in Hrun. by simplify_eq.
Qed.

Lemma back_resumes_the_countdown_witness :
  App.step App.Back (App_after App_exScoring)
  = Some (App.set_selectedGuesserIds {["b"]}
            (App_after (App_exStart ++ [App.Ready; App.SelectPrompt 0]
                        ++ replicate 15 App.Tick))).
Proof.
  replace {["b"]} with (App.selectedGuesserIds (App_after App_exScoring))
    by (vm_compute; reflexivity).
  refine (proj1 (proj2 (proj2 (proj1 back_resumes_the_countdown
            (App_after (App_exStart ++ [App.Ready; App.SelectPrompt 0]
                        ++ replicate 15 App.Tick))
            [1%nat] (App_after App_exScoring) _ _ _)))).
  - exists App.src_ai, [App.classicPack], "default"%string,
      (App_exStart ++ [App.Ready; App.SelectPrompt 0] ++ replicate 15 App.Tick).
    vm_compute. reflexivity.
  - vm_compute. reflexivity.
  - vm_compute. reflexivity.
Defined.

Lemma filter_nobody (sel : gset string) (ps : list Player) :
  sel = ∅ → filter (λ p, id p ∈ sel) ps = [].
Proof.
  intros ->. induction ps as [|p ps IH]; [done|].
  rewrite filter_cons_False; [done|]. apply not_elem_of_empty.
Qed.

Lemma App_award_nobody drawer base speed (ps : list Player) :
  App.awardPlayer drawer ∅ base speed <$> ps = ps.
Proof.
  rewrite <- (list_fmap_id ps) at 2. apply list_fmap_ext. intros i p _.
  unfold App.awardPlayer. rewrite size_empty. cbn.
  rewrite andb_false_r, bool_decide_eq_false_2 by apply not_elem_of_empty.
  destruct p. unfold with_score. cbn. f_equal. lia.
Qed.

(** X22.  [submitScore] with nobody ticked and [skipTurn] (App.tsx): from
    a reachable drawing screen, pressing the solved button and
    submitting at once ends the turn in the game state that "Skip Turn"
    gives: no score changes and the history gains the entry of a failed
    turn. *)
Theorem submitting_nobody_is_a_skip :
  ∀ c, App.reachable c →
    App.subPhase (App.gameState c) = Some App.DRAWING →
    ∃ c1 c2,
      App.run [App.ConfirmSolved; App.SubmitScore] c = Some c1
      ∧ App.run [App.SkipTurn] c = Some c2
      ∧ App.gameState c1 = App.gameState c2
      ∧ App.players (App.gameState c1) = App.players (App.gameState c)
      ∧ App.timerInterval c1 = false ∧ App.timerInterval c2 = false.
Proof.
  intros c Hr Hs. pose proof (App_reachable_inv c Hr) as Hinv.
  destruct c as [[ph sp ps cur cp pcs t r mr ws h] pool sel open sets sid ti].
  cbn in Hs; subst sp. destruct ph; app_facts; subst. clear Hr.
  match goal with
  | |- context [App.mkGameState _ _ _ _ _ ?p _ _ _ _ _] => set (pcs := p) in *
  end.
  destruct (lookup_lt_is_Some_2 ps cur) as [drawer Hdr]; [done|].
  set (entry := History.mkEntry (name drawer) (from_option App.word EmptyString cp)
                  false []).
  set (g := App.mkGameState App.PLAYING (Some App.POST_TURN) ps cur cp pcs t r mr ws
              (h ++ [entry])).
  match goal with |- ∃ c1 c2, App.run _ ?c = _ ∧ _ => set (c0 := c) end.
  assert (App.step App.ConfirmSolved c0
          = Some (App.mkComponent
                    (App.mkGameState App.PLAYING (Some App.CONFIRM_SCORE) ps cur cp
                       pcs t r mr ws h) pool ∅ open sets sid false)) as E1.
  { unfold App.step, App.timerEffect. cbn.
    rewrite bool_decide_eq_false_2 by done.
    rewrite bool_decide_eq_false_2 by (by intros [[=] _]). reflexivity. }
  assert (App.step App.SubmitScore
            (App.mkComponent
               (App.mkGameState App.PLAYING (Some App.CONFIRM_SCORE) ps cur cp
                  pcs t r mr ws h) pool ∅ open sets sid false)
          = Some (App.mkComponent g pool ∅ open sets sid false)) as E2.
  { unfold App.step, App.timerEffect. cbn. unfold App.submitScore. cbn.
    rewrite Hdr. cbn.
    rewrite size_empty, (filter_nobody ∅), App_award_nobody by done.
    rewrite bool_decide_eq_false_2 by done.
    rewrite bool_decide_eq_false_2 by (by intros [[=] _]). reflexivity. }
  assert (App.step App.SkipTurn c0
          = Some (App.mkComponent g pool sel open sets sid false)) as E3.
  { unfold App.step, App.timerEffect. cbn. unfold App.skipTurn, App.failedEntry.
    cbn. rewrite Hdr. cbn.
    rewrite bool_decide_eq_false_2 by done.
    rewrite bool_decide_eq_false_2 by (by intros [[=] _]). reflexivity. }
  eexists _, _. cbn [App.run]. rewrite E1, E3. cbn -[App.step]. rewrite E2.
  cbn -[App.step].
  split; [reflexivity|]. split; [reflexivity|]. done.
Qed.

Lemma submitting_nobody_is_a_skip_witness :
  ∃ c1 c2,
    App.run [App.ConfirmSolved; App.SubmitScore]
      (App_after (App_exStart ++ [App.Ready; App.SelectPrompt 0])) = Some c1
    ∧ App.run [App.SkipTurn]
        (App_after (App_exStart ++ [App.Ready; App.SelectPrompt 0])) = Some c2
    ∧ App.gameState c1 = App.gameState c2.
Proof.
  destruct (submitting_nobody_is_a_skip
              (App_after (App_exStart ++ [App.Ready; App.SelectPrompt 0])))
    as (c1 & c2 & H1 & H2 & H3 & _).
  - exists App.src_ai, [App.classicPack], "default"%string,
      (App_exStart ++ [App.Ready; App.SelectPrompt 0]).
    vm_compute. reflexivity.
  - vm_compute. reflexivity.
  - exists c1, c2. split; [exact H1|]. split; [exact H2|exact H3].
Defined.

(** ** After the match *)

(** X23.  [restartMatch] and [exitToHome] (App.tsx) and NEW GAME
    (part_000) on a reachable game-over screen.  RESTART MATCH goes
    through and leads home with the same players in the same order, all
    scores at 0, an empty history, round 1, the first player and 60
    seconds; two players or more are still there.  EXIT TO HOME goes
    through and resets the game state to that of the first render but
    for the word source; the roster being empty, START MATCH then
    changes nothing.  NEW GAME of part_000 gives the state of the first
    render. *)
Theorem after_the_match :
  (∀ c, App.reachable c →
     App.phase (App.gameState c) = App.GAME_OVER →
     ∃ c1 c2,
       App.step App.RestartMatch c = Some c1
       ∧ App.step App.ExitToHome c = Some c2
       ∧ App.phase (App.gameState c1) = App.HOME
       ∧ App.players (App.gameState c1)
         = with_score 0 <$> App.players (App.gameState c)
       ∧ (2 ≤ length (App.players (App.gameState c1)))%nat
       ∧ App.history (App.gameState c1) = []
       ∧ App.rounds (App.gameState c1) = 1%Z
       ∧ App.currentPlayerIndex (App.gameState c1) = 0%nat
       ∧ App.timer (App.gameState c1) = 60%Z
       ∧ App.gameState c2
         = App.initialGameState (App.wordSource (App.gameState c))
       ∧ ∀ d, unit_draws d → App.step (App.StartMatch d) c2 = Some c2)
  ∧ (∀ c, Lobby.reachable c →
     Lobby.phase (Lobby.gameState c) = Lobby.GAME_OVER →
     Lobby.step Lobby.NewGame c = Some Lobby.initial).
Proof.
  split; intros c Hr Hs.
  - pose proof (App_reachable_inv c Hr) as Hinv.
    destruct (App_reachable_progress c Hr) as (_ & _ & Hp).
    destruct c as [[ph sp ps cur cp pcs t r mr ws h] pool sel open sets sid ti].
    cbn in Hs; subst ph. cbn in Hp.
    assert (2 ≤ length ps)%nat as Hn by (destruct sp as [[]|]; tauto).
    unfold App_inv in Hinv. cbn in Hinv. destruct sp; [done|]. cbn in Hinv. subst ti.
    unfold App.step, App.timerEffect. cbn.
    rewrite !(bool_decide_eq_true_2 (None = None)) by done.
    unfold App.restartMatch, App.exitToHome. cbn.
    eexists _, _. split; [reflexivity|]. split; [reflexivity|].
    cbn. rewrite length_fmap. repeat split; try done.
    intros d Hd. unfold App.validDraws. cbn.
    rewrite bool_decide_eq_true_2 by done. cbn.
    unfold App.startMatch. cbn.
    rewrite !(bool_decide_eq_true_2 (0 < 2)%nat) by lia. cbn.
    by rewrite !(bool_decide_eq_true_2 (None = None)).
  - pose proof (Lobby_reachable_inv c Hr) as Hinv.
    destruct c as [[ps cur cp pcs ph t r mr h] pool sel ti].
    cbn in Hs; subst ph. reflexivity.
Qed.

Lemma after_the_match_witness :
  ∃ c1, App.step App.RestartMatch (App_after (App_exScored ++ [App.NextTurn exDraws; App.EndEarly]))
        = Some c1
        ∧ App.players (App.gameState c1)
          = [mkPlayer "a" "Alice" 0; mkPlayer "b" "Bob" 0].
Proof.
  destruct (proj1 after_the_match
              (App_after (App_exScored ++ [App.NextTurn exDraws; App.EndEarly])))
    as (c1 & c2 & H1 & _ & _ & H2 & _).
  - exists App.src_ai, [App.classicPack], "default"%string,
      (App_exScored ++ [App.NextTurn exDraws; App.EndEarly]).
    vm_compute. reflexivity.
  - vm_compute. reflexivity.
  - exists c1. split; [exact H1|]. rewrite H2. vm_compute. reflexivity.
Defined.

(** X5.  The button of the round leaderboard (App.tsx [renderPlaying]
    with [nextRound]; part_000 [renderRoundLeaderboard] with
    [proceedFromRoundLeaderboard]): it reads FINISH MATCH (VIEW FINAL
    RESULTS in part_000) exactly when pressing it ends the match;
    otherwise pressing it sets up the first player's turn of the next
    round. *)
Theorem leaderboard_button_says_what_it_does :
  (∀ d c,
     (App.nextRoundLabel (App.gameState c) = "FINISH MATCH"%string
      ↔ App.phase (App.gameState (App.nextRound d c)) = App.GAME_OVER)
     ∧ (App.nextRoundLabel (App.gameState c) ≠ "FINISH MATCH"%string →
        App.nextRoundLabel (App.gameState c) = "NEXT ROUND"%string
        ∧ App.phase (App.gameState (App.nextRound d c)) = App.PLAYING
        ∧ App.subPhase (App.gameState (App.nextRound d c)) = Some App.PRE_TURN
        ∧ App.rounds (App.gameState (App.nextRound d c))
          = (App.rounds (App.gameState c) + 1)%Z
        ∧ App.currentPlayerIndex (App.gameState (App.nextRound d c)) = 0%nat))
  ∧ (∀ d c,
     (Lobby.proceedLabel (Lobby.gameState c) = "VIEW FINAL RESULTS"%string
      ↔ Lobby.phase (Lobby.gameState (Lobby.proceedFromRoundLeaderboard d c))
        = Lobby.GAME_OVER)
     ∧ (Lobby.proceedLabel (Lobby.gameState c) ≠ "VIEW FINAL RESULTS"%string →
        Lobby.proceedLabel (Lobby.gameState c) = "START NEXT ROUND"%string
        ∧ Lobby.phase (Lobby.gameState (Lobby.proceedFromRoundLeaderboard d c))
          = Lobby.PRE_TURN
        ∧ Lobby.rounds (Lobby.gameState (Lobby.proceedFromRoundLeaderboard d c))
          = (Lobby.rounds (Lobby.gameState c) + 1)%Z
        ∧ Lobby.currentPlayerIndex
            (Lobby.gameState (Lobby.proceedFromRoundLeaderboard d c)) = 0%nat)).
Proof.
  split; intros d c.
  - unfold App.nextRoundLabel, App.nextRound.
    destruct (decide (App.maxRounds (App.gameState c) ≤ App.rounds (App.gameState c))%Z)
      as [H|H].
    + rewrite !bool_decide_eq_true_2 by done. by cbn.
    + rewrite !bool_decide_eq_false_2 by done. by cbn.
  - unfold Lobby.proceedLabel, Lobby.proceedFromRoundLeaderboard.
    destruct (decide (Lobby.maxRounds (Lobby.gameState c)
                      ≤ Lobby.rounds (Lobby.gameState c))%Z) as [H|H].
    + rewrite bool_decide_eq_true_2 by done.
      rewrite bool_decide_eq_true_2 by lia. by cbn.
    + rewrite bool_decide_eq_false_2 by done.
      rewrite bool_decide_eq_false_2 by lia. by cbn.
Qed.

(** ** The hint row over a turn *)

Lemma Lobby_isRevealed_iff tr len t i :
  Lobby.isRevealed tr len t i = true
  ↔ (i = 0%nat ∧ (t < Lobby.letter1Trigger tr)%Z)
    ∨ (i = (len / 2)%nat ∧ (t < Lobby.letter2Trigger tr)%Z)
    ∨ (i = (len - 1)%nat ∧ (t < Lobby.letter3Trigger tr)%Z).
Proof.
  unfold Lobby.isRevealed.
  rewrite !orb_true_iff, !andb_true_iff, !bool_decide_eq_true. tauto.
Qed.

Lemma App_isRevealed_mono len t t' i :
  (t' ≤ t)%Z → App.isRevealed len t i = true → App.isRevealed len t' i = true.
Proof. rewrite !App_isRevealed_iff. lia. Qed.

Lemma Lobby_isRevealed_mono tr len t t' i :
  (t' ≤ t)%Z →
  Lobby.isRevealed tr len t i = true → Lobby.isRevealed tr len t' i = true.
Proof. rewrite !Lobby_isRevealed_iff. lia. Qed.

Lemma App_hintCells_cell w t i cell :
  App.hintCells w t !! i = Some cell →
  ∃ ch, String.list_ascii_of_string w !! i = Some ch
    ∧ cell = if bool_decide (ch = space) then Gap
             else if App.isRevealed (length (String.list_ascii_of_string w)) t i
                  then Revealed (toUpperCase ch) else Hidden.
Proof.
  unfold App.hintCells. rewrite list_lookup_imap.
  destruct (String.list_ascii_of_string w !! i) as [ch|]; [|done].
  intros [= <-]. by exists ch.
Qed.

Lemma Lobby_hintCells_cell tr w t i cell :
  Lobby.hintCells tr w t !! i = Some cell →
  ∃ ch, String.list_ascii_of_string w !! i = Some ch
    ∧ cell = if bool_decide (ch = space) then Gap
             else if Lobby.isRevealed tr (length (String.list_ascii_of_string w)) t i
                  then Revealed (toUpperCase ch) else Hidden.
Proof.
  unfold Lobby.hintCells. rewrite list_lookup_imap.
  destruct (String.list_ascii_of_string w !! i) as [ch|]; [|done].
  intros [= <-]. by exists ch.
Qed.

Lemma App_hintCells_length w t :
  length (App.hintCells w t) = length (String.list_ascii_of_string w).
Proof. unfold App.hintCells. apply length_imap. Qed.

Lemma Lobby_hintCells_length tr w t :
  length (Lobby.hintCells tr w t) = length (String.list_ascii_of_string w).
Proof. unfold Lobby.hintCells. apply length_imap. Qed.

(** X24.  The hint row of the drawing screen (App.tsx [renderPlaying],
    DRAWING; part_000 [renderDrawing]) as the timer runs down: once the
    row is on screen it stays on screen, with one cell for every
    character of the word; a revealed letter stays revealed, with the
    same letter, and the gaps drawn for spaces stay where they are. *)
Theorem hints_only_grow :
  (∀ g t' cells,
     (t' ≤ App.timer g)%Z →
     App.hintDisplay g = Some cells →
     ∃ cells',
       App.hintDisplay (App.set_timer t' g) = Some cells'
       ∧ length cells
         = length (String.list_ascii_of_string
                     (from_option App.word EmptyString (App.currentPrompt g)))
       ∧ length cells' = length cells
       ∧ (∀ i ch, cells !! i = Some (Revealed ch) → cells' !! i = Some (Revealed ch))
       ∧ (∀ i, cells !! i = Some Gap ↔ cells' !! i = Some Gap))
  ∧ (∀ g t' cells,
     (t' ≤ Lobby.timer g)%Z →
     Lobby.hintDisplay g = Some cells →
     ∃ cells',
       Lobby.hintDisplay (Lobby.set_timer t' g) = Some cells'
       ∧ length cells
         = length (String.list_ascii_of_string
                     (from_option Lobby.word EmptyString (Lobby.currentPrompt g)))
       ∧ length cells' = length cells
       ∧ (∀ i ch, cells !! i = Some (Revealed ch) → cells' !! i = Some (Revealed ch))
       ∧ (∀ i, cells !! i = Some Gap ↔ cells' !! i = Some Gap)).
Proof.
  split; intros g t' cells Ht.
  - unfold App.hintDisplay, App.revealLen. cbn.
    case_bool_decide as Hl; [|done]. intros [= <-].
    rewrite bool_decide_eq_true_2 by lia.
    exists (App.hintCells (from_option App.word EmptyString (App.currentPrompt g)) t').
    split; [done|]. rewrite !App_hintCells_length.
    split; [done|]. split; [done|]. split.
    + intros i ch (c0 & Hc & E)%App_hintCells_cell.
      rewrite (App_hintCells_lookup _ _ _ _ Hc).
      case_bool_decide; [done|].
      destruct (App.isRevealed _ (App.timer g) i) eqn:Hr; [|done].
      rewrite (App_isRevealed_mono _ _ _ _ Ht Hr). congruence.
    + intros i. split.
      * intros (c0 & Hc & E)%App_hintCells_cell.
        rewrite (App_hintCells_lookup _ _ _ _ Hc).
        case_bool_decide; [done|]. by destruct (App.isRevealed _ (App.timer g) i).
      * intros (c0 & Hc & E)%App_hintCells_cell.
        rewrite (App_hintCells_lookup _ _ _ _ Hc).
        case_bool_decide; [done|]. by destruct (App.isRevealed _ t' i).
  - unfold Lobby.hintDisplay, Lobby.showLengthHint. cbn.
    case_bool_decide as Hl; [|done]. intros [= <-].
    rewrite bool_decide_eq_true_2 by lia.
    exists (Lobby.hintCells
              (Lobby.triggers (from_option Lobby.difficulty Lobby.easy (Lobby.currentPrompt g)))
              (from_option Lobby.word EmptyString (Lobby.currentPrompt g)) t').
    split; [done|]. rewrite !Lobby_hintCells_length.
    split; [done|]. split; [done|]. split.
    + intros i ch (c0 & Hc & E)%Lobby_hintCells_cell.
      rewrite (Lobby_hintCells_lookup _ _ _ _ _ Hc).
      case_bool_decide; [done|].
      destruct (Lobby.isRevealed _ _ (Lobby.timer g) i) eqn:Hr; [|done].
      rewrite (Lobby_isRevealed_mono _ _ _ _ _ Ht Hr). congruence.
    + intros i. split.
      * intros (c0 & Hc & E)%Lobby_hintCells_cell.
        rewrite (Lobby_hintCells_lookup _ _ _ _ _ Hc).
        case_bool_decide; [done|]. by destruct (Lobby.isRevealed _ _ (Lobby.timer g) i).
      * intros (c0 & Hc & E)%Lobby_hintCells_cell.
        rewrite (Lobby_hintCells_lookup _ _ _ _ _ Hc).
        case_bool_decide; [done|]. by destruct (Lobby.isRevealed _ _ t' i).
Qed.

Lemma hints_only_grow_witness :
  ∃ cells',
    App.hintDisplay (App.set_timer 10 (App_exDrawing "cat" 40)) = Some cells'
    ∧ cells' !! 0%nat = Some (Revealed (codeUnits "C")).
Proof.
  destruct (proj1 hints_only_grow (App_exDrawing "cat" 40) 10%Z
              [Revealed (codeUnits "C"); Hidden; Hidden])
    as (cells' & H1 & _ & _ & H2 & _).
  - vm_compute. discriminate.
  - vm_compute. reflexivity.
  - exists cells'. split; [exact H1|]. apply H2. reflexivity.
Defined.

(** What the row of [Lobby] shows at position [i] holding character
    [ch], under the triggers of the prompt's difficulty. *)
Lemma Lobby_revealedAt g p i ch :
  Lobby.currentPrompt g = Some p →
  String.list_ascii_of_string (Lobby.word p) !! i = Some ch →
  revealedAt (Lobby.hintDisplay g) i
  ↔ ch ≠ space
    ∧ (Lobby.timer g ≤ Lobby.lengthTrigger (Lobby.triggers (Lobby.difficulty p)))%Z
    ∧ Lobby.isRevealed (Lobby.triggers (Lobby.difficulty p))
        (length (String.list_ascii_of_string (Lobby.word p))) (Lobby.timer g) i
      = true.
Proof.
  intros Hp Hch. unfold revealedAt, Lobby.hintDisplay, Lobby.showLengthHint.
  rewrite Hp. cbn [from_option]. split.
  - intros (cells & ch' & Hc & Hl). case_bool_decide; [|done]. simplify_eq.
    rewrite (Lobby_hintCells_lookup _ _ _ _ _ Hch) in Hl.
    case_bool_decide; [done|].
    by destruct (Lobby.isRevealed _ _ _ _).
  - intros (Hsp & Hle & Hrev).
    rewrite bool_decide_eq_true_2 by done.
    eexists _, _. split; [done|].
    rewrite (Lobby_hintCells_lookup _ _ _ _ _ Hch).
    by rewrite bool_decide_eq_false_2, Hrev.
Qed.

Lemma Lobby_hintDisplay_shown g :
  is_Some (Lobby.hintDisplay g)
  ↔ (Lobby.timer g
     ≤ Lobby.lengthTrigger
         (Lobby.triggers (from_option Lobby.difficulty Lobby.easy (Lobby.currentPrompt g))))%Z.
Proof.
  unfold Lobby.hintDisplay, Lobby.showLengthHint.
  case_bool_decide; split; intros H'; first [done | by eexists | by destruct H'].
Qed.

(** X25.  The hint schedule of part_000 ([renderDrawing]) for the two
    difficulties above easy, for a timer that is not negative.  Medium:
    the row is on screen iff timer <= 45, and a character that is not a
    space is revealed iff its index is 0 and timer < 35, or its index is
    floor(length / 2) and timer < 15.  Hard: the row is on screen iff
    timer <= 60, and such a character is revealed iff its index is 0 and
    timer < 45, or floor(length / 2) and timer < 30, or length - 1 and
    timer < 15.  Index by index, for a hard word and a character that
    is not a space: index 0 is revealed iff timer < 45; the middle index
    iff timer < 30, in a word of two or more characters; the last index
    iff timer < 15, in a word of three or more (in shorter words the
    indices coincide, and the earliest of their triggers decides).  A
    space is never revealed.  On every reachable drawing screen of a
    hard word the row is on screen. *)
Theorem Lobby_hint_schedule_medium_hard :
  (∀ g p,
     Lobby.currentPrompt g = Some p → (0 ≤ Lobby.timer g)%Z →
     (Lobby.difficulty p = Lobby.medium →
      (is_Some (Lobby.hintDisplay g) ↔ (Lobby.timer g ≤ 45)%Z)
      ∧ ∀ i ch, String.list_ascii_of_string (Lobby.word p) !! i = Some ch →
          revealedAt (Lobby.hintDisplay g) i
          ↔ ch ≠ space
            ∧ ((i = 0%nat ∧ (Lobby.timer g < 35)%Z)
               ∨ (i = (length (String.list_ascii_of_string (Lobby.word p)) / 2)%nat
                  ∧ (Lobby.timer g < 15)%Z)))
     ∧ (Lobby.difficulty p = Lobby.hard →
        (is_Some (Lobby.hintDisplay g) ↔ (Lobby.timer g ≤ 60)%Z)
        ∧ (∀ i ch, String.list_ascii_of_string (Lobby.word p) !! i = Some ch →
             revealedAt (Lobby.hintDisplay g) i
             ↔ ch ≠ space
               ∧ ((i = 0%nat ∧ (Lobby.timer g < 45)%Z)
                  ∨ (i = (length (String.list_ascii_of_string (Lobby.word p)) / 2)%nat
                     ∧ (Lobby.timer g < 30)%Z)
                  ∨ (i = (length (String.list_ascii_of_string (Lobby.word p)) - 1)%nat
                     ∧ (Lobby.timer g < 15)%Z)))
        ∧ (∀ ch, String.list_ascii_of_string (Lobby.word p) !! 0%nat = Some ch →
             ch ≠ space →
             revealedAt (Lobby.hintDisplay g) 0 ↔ (Lobby.timer g < 45)%Z)
        ∧ (∀ ch, (2 ≤ length (String.list_ascii_of_string (Lobby.word p)))%nat →
             String.list_ascii_of_string (Lobby.word p)
               !! (length (String.list_ascii_of_string (Lobby.word p)) / 2)%nat
             = Some ch →
             ch ≠ space →
             revealedAt (Lobby.hintDisplay g)
               (length (String.list_ascii_of_string (Lobby.word p)) / 2)
             ↔ (Lobby.timer g < 30)%Z)
        ∧ (∀ ch, (3 ≤ length (String.list_ascii_of_string (Lobby.word p)))%nat →
             String.list_ascii_of_string (Lobby.word p)
               !! (length (String.list_ascii_of_string (Lobby.word p)) - 1)%nat
             = Some ch →
             ch ≠ space →
             revealedAt (Lobby.hintDisplay g)
               (length (String.list_ascii_of_string (Lobby.word p)) - 1)
             ↔ (Lobby.timer g < 15)%Z)))
  ∧ (∀ c p,
     Lobby.reachable c →
     Lobby.phase (Lobby.gameState c) = Lobby.DRAWING →
     Lobby.currentPrompt (Lobby.gameState c) = Some p →
     Lobby.difficulty p = Lobby.hard →
     is_Some (Lobby.hintDisplay (Lobby.gameState c))).
Proof.
  split.
  - intros g p Hp Ht.
    pose proof (middle_index (length (String.list_ascii_of_string (Lobby.word p))))
      as [Hm2 Hm3].
    split; intros Hd.
    + split; [|intros i ch Hch].
      * rewrite Lobby_hintDisplay_shown, Hp. cbn. by rewrite Hd.
      * rewrite (Lobby_revealedAt g p i ch Hp Hch), Lobby_isRevealed_iff, Hd. cbn.
        intuition lia.
    + split; [|split; [|split; [|split]]].
      * rewrite Lobby_hintDisplay_shown, Hp. cbn. by rewrite Hd.
      * intros i ch Hch.
        rewrite (Lobby_revealedAt g p i ch Hp Hch), Lobby_isRevealed_iff, Hd. cbn.
        intuition lia.
      * intros ch Hch Hsp.
        rewrite (Lobby_revealedAt g p _ ch Hp Hch), Lobby_isRevealed_iff, Hd.
        cbn [Lobby.triggers Lobby.letter1Trigger Lobby.letter2Trigger
             Lobby.letter3Trigger Lobby.lengthTrigger].
        intuition lia.
      * intros ch Hlen Hch Hsp.
        rewrite (Lobby_revealedAt g p _ ch Hp Hch), Lobby_isRevealed_iff, Hd.
        cbn [Lobby.triggers Lobby.letter1Trigger Lobby.letter2Trigger
             Lobby.letter3Trigger Lobby.lengthTrigger].
        intuition lia.
      * intros ch Hlen Hch Hsp.
        rewrite (Lobby_revealedAt g p _ ch Hp Hch), Lobby_isRevealed_iff, Hd.
        cbn [Lobby.triggers Lobby.letter1Trigger Lobby.letter2Trigger
             Lobby.letter3Trigger Lobby.lengthTrigger].
        intuition lia.
  - intros c p Hr Hph Hp Hd. apply Lobby_reachable_inv in Hr.
    unfold Lobby_inv in Hr. rewrite Hph in Hr.
    rewrite Lobby_hintDisplay_shown, Hp. cbn. rewrite Hd. cbn.
    unfold DEFAULT_TIME in Hr. lia.
Qed.

Lemma Lobby_hint_schedule_medium_hard_witness :
  is_Some (Lobby.hintDisplay
             (Lobby.mkGameState [] 0 (Some (Lobby.mkPrompt "Gravity" "Abstract" Lobby.hard))
                [] Lobby.DRAWING 60 1 MAX_ROUNDS [])).
Proof.
  refine (proj2 (proj1 (proj2 (proj1 Lobby_hint_schedule_medium_hard
    (Lobby.mkGameState [] 0 (Some (Lobby.mkPrompt "Gravity" "Abstract" Lobby.hard))
       [] Lobby.DRAWING 60 1 MAX_ROUNDS [])
    (Lobby.mkPrompt "Gravity" "Abstract" Lobby.hard) eq_refl _) eq_refl)) _).
  - vm_compute. discriminate.
  - vm_compute. discriminate.
Defined.

Lemma App_short_word_revealed len t i :
  (i < len ≤ 3)%nat → (t ≤ 20)%Z → App.isRevealed len t i = true.
Proof.
  intros Hi Ht. apply App_isRevealed_iff.
  destruct len as [|[|[|[|]]]]; destruct i as [|[|[|]]]; cbn; lia.
Qed.

Lemma Lobby_short_word_revealed len t i :
  (i < len ≤ 3)%nat → (t < 15)%Z →
  Lobby.isRevealed (Lobby.triggers Lobby.hard) len t i = true.
Proof.
  intros Hi Ht. apply Lobby_isRevealed_iff.
  destruct len as [|[|[|[|]]]]; destruct i as [|[|[|]]]; cbn; lia.
Qed.

Lemma second_cell_hidden len : (4 ≤ len)%nat → (len / 2 ≠ 1 ∧ len - 1 ≠ 1)%nat.
Proof.
  intros H. split; [|lia]. intros E.
  pose proof (Nat.div_mod_eq len 2) as Hd.
  pose proof (Nat.mod_upper_bound len 2). lia.
Qed.

(** X26.  What the hint row gives away (App.tsx [renderPlaying],
    DRAWING; part_000 [renderDrawing]).  In App.tsx, from 20 seconds on,
    a word of up to three characters is shown whole: no cell of the row
    is hidden; the same holds in part_000 for a hard word below 15
    seconds.  A word of four characters or more is never shown whole in
    either component: its second character, unless it is a space, is
    hidden whenever the row is on screen. *)
Theorem short_words_are_given_away :
  (∀ g p,
     App.currentPrompt g = Some p →
     (length (String.list_ascii_of_string (App.word p)) ≤ 3)%nat →
     (App.timer g ≤ 20)%Z →
     ∃ cells, App.hintDisplay g = Some cells
       ∧ length cells = length (String.list_ascii_of_string (App.word p))
       ∧ Hidden ∉ cells)
  ∧ (∀ g p ch cells,
     App.currentPrompt g = Some p →
     (4 ≤ length (String.list_ascii_of_string (App.word p)))%nat →
     String.list_ascii_of_string (App.word p) !! 1%nat = Some ch → ch ≠ space →
     App.hintDisplay g = Some cells → cells !! 1%nat = Some Hidden)
  ∧ (∀ g p,
     Lobby.currentPrompt g = Some p → Lobby.difficulty p = Lobby.hard →
     (length (String.list_ascii_of_string (Lobby.word p)) ≤ 3)%nat →
     (Lobby.timer g < 15)%Z →
     ∃ cells, Lobby.hintDisplay g = Some cells
       ∧ length cells = length (String.list_ascii_of_string (Lobby.word p))
       ∧ Hidden ∉ cells)
  ∧ (∀ g p ch cells,
     Lobby.currentPrompt g = Some p →
     (4 ≤ length (String.list_ascii_of_string (Lobby.word p)))%nat →
     String.list_ascii_of_string (Lobby.word p) !! 1%nat = Some ch → ch ≠ space →
     Lobby.hintDisplay g = Some cells → cells !! 1%nat = Some Hidden).
Proof.
  split; [|split; [|split]].
  - intros g p Hp Hlen Ht. unfold App.hintDisplay, App.revealLen.
    rewrite Hp. cbn [from_option]. rewrite bool_decide_eq_true_2 by lia.
    eexists. split; [done|]. split; [apply App_hintCells_length|].
    intros (i & Hi)%list_elem_of_lookup_1.
    apply App_hintCells_cell in Hi as (ch & Hch & E).
    apply lookup_lt_Some in Hch.
    rewrite App_short_word_revealed in E by lia. by case_bool_decide.
  - intros g p ch cells Hp Hlen Hch Hsp. unfold App.hintDisplay.
    rewrite Hp. cbn [from_option]. destruct (App.revealLen _); [|done].
    intros [= <-]. rewrite (App_hintCells_lookup _ _ _ _ Hch).
    rewrite bool_decide_eq_false_2 by done.
    destruct (App.isRevealed _ _ _) eqn:E; [|done].
    apply App_isRevealed_iff in E. apply second_cell_hidden in Hlen. lia.
  - intros g p Hp Hd Hlen Ht. unfold Lobby.hintDisplay, Lobby.showLengthHint.
    rewrite Hp. cbn [from_option]. rewrite Hd.
    rewrite bool_decide_eq_true_2 by (cbn; lia).
    eexists. split; [done|]. split; [apply Lobby_hintCells_length|].
    intros (i & Hi)%list_elem_of_lookup_1.
    apply Lobby_hintCells_cell in Hi as (ch & Hch & E).
    apply lookup_lt_Some in Hch.
    rewrite Lobby_short_word_revealed in E by lia. by case_bool_decide.
  - intros g p ch cells Hp Hlen Hch Hsp. unfold Lobby.hintDisplay.
    rewrite Hp. cbn [from_option]. destruct (Lobby.showLengthHint _ _); [|done].
    intros [= <-]. rewrite (Lobby_hintCells_lookup _ _ _ _ _ Hch).
    rewrite bool_decide_eq_false_2 by done.
    destruct (Lobby.isRevealed _ _ _ _) eqn:E; [|done].
    apply Lobby_isRevealed_iff in E. apply second_cell_hidden in Hlen. lia.
Qed.

Lemma short_words_are_given_away_witness :
  ∃ cells, App.hintDisplay (App_exDrawing "Cat" 20) = Some cells
           ∧ length cells = 3%nat ∧ Hidden ∉ cells.
Proof.
  destruct (proj1 short_words_are_given_away (App_exDrawing "Cat" 20)
              (App.mkPrompt "Cat" "Animals" App.easy))
    as (cells & H1 & H2 & H3).
  - reflexivity.
  - vm_compute. lia.
  - vm_compute. discriminate.
  - exists cells. split; [exact H1|]. split; [exact H2|exact H3].
Defined.

(** ** The leaderboards *)

Lemma byFallingScore_cons p l :
  byFallingScore (p :: l)
  ↔ (∀ q, q ∈ l → (score q ≤ score p)%Z) ∧ byFallingScore l.
Proof.
  unfold byFallingScore. split.
  - intros H. split.
    + intros q (j & Hj)%list_elem_of_lookup_1.
      apply (H 0%nat (S j) p q); [lia|done|done].
    + intros i j x y Hij Hi Hj. apply (H (S i) (S j) x y); [lia|done|done].
  - intros [Hhead Htail] [|i] [|j] x y Hij Hi Hj; simplify_eq/=.
    + lia.
    + eapply Hhead, list_elem_of_lookup_2, Hj.
    + lia.
    + apply (Htail i j x y); [lia|done|done].
Qed.

Lemma insertByScore_Permutation p l : insertByScore p l ≡ₚ p :: l.
Proof.
  induction l as [|q l IH]; [done|]. cbn. case_bool_decide; [|done].
  rewrite IH. apply Permutation_swap.
Qed.

Lemma insertByScore_falling p l :
  byFallingScore l → byFallingScore (insertByScore p l).
Proof.
  induction l as [|q l IH]; intros Hl; cbn.
  - apply byFallingScore_cons. split; [by intros ? ?%elem_of_nil|].
    by intros [|] ? ? ? ? ?.
  - apply byFallingScore_cons in Hl as [Hq Hl]. case_bool_decide.
    + apply byFallingScore_cons. split; [|auto].
      intros x Hx. rewrite insertByScore_Permutation in Hx.
      apply elem_of_cons in Hx as [->|Hx]; [lia|auto].
    + apply byFallingScore_cons. split.
      * intros x [->|Hx]%elem_of_cons; [lia|]. specialize (Hq x Hx). lia.
      * by apply byFallingScore_cons.
Qed.

(** Insertion keeps, for every score, the order of the rows holding it. *)
Lemma insertByScore_stable p l s :
  filter (λ x, score x = s) (insertByScore p l)
  = filter (λ x, score x = s) (p :: l).
Proof.
  induction l as [|q l IH]; [done|]. cbn [insertByScore]. case_bool_decide; [|done].
  rewrite filter_cons, IH, !filter_cons.
  destruct (decide (score q = s)), (decide (score p = s)); try done. lia.
Qed.

(** X27.  The leaderboards (App.tsx [renderPlaying], ROUND_LEADERBOARD,
    and [renderGameOver]; part_000 [renderRoundLeaderboard] and
    [renderGameOver]): the rows shown are the players of the roster,
    each once; no row has more points than a row above it; players with
    equal points stand in roster order; so the first row, the one the
    screens mark, belongs to a player nobody has more points than. *)
Theorem leaderboard_order :
  ∀ ps,
    sortedPlayers ps ≡ₚ ps
    ∧ byFallingScore (sortedPlayers ps)
    ∧ (∀ s, filter (λ p, score p = s) (sortedPlayers ps)
            = filter (λ p, score p = s) ps)
    ∧ (∀ top p, head (sortedPlayers ps) = Some top → p ∈ ps →
         (score p ≤ score top)%Z).
Proof.
  intros ps.
  assert (sortedPlayers ps ≡ₚ ps) as Hperm.
  { induction ps as [|p ps IH]; [done|]. cbn.
    by rewrite insertByScore_Permutation, IH. }
  assert (byFallingScore (sortedPlayers ps)) as Hfall.
  { clear Hperm. induction ps as [|p ps IH]; [by intros [|] ? ? ? ? ?|].
    cbn. by apply insertByScore_falling. }
  split; [done|]. split; [done|]. split.
  - intros s. clear Hperm Hfall. induction ps as [|p ps IH]; [done|].
    cbn [sortedPlayers foldr]. rewrite insertByScore_stable, !filter_cons.
    fold (sortedPlayers ps). by rewrite IH.
  - intros top p Htop Hp. rewrite <- Hperm in Hp.
    apply list_elem_of_lookup_1 in Hp as [j Hj].
    destruct (sortedPlayers ps) as [|t l] eqn:E; [done|]. simplify_eq/=.
    apply (Hfall 0%nat j top p); [lia|done|done].
Qed.

(** ** The drawing canvas *)

Lemma Canvas_run_app evs1 evs2 c :
  Canvas.run (evs1 ++ evs2) c = Canvas.run evs2 (Canvas.run evs1 c).
Proof. unfold Canvas.run. apply foldl_app. Qed.

(** While no listener and no cell holds the pen down, only a press can
    change that, and nothing is drawn. *)
Lemma Canvas_step_pen_up ev c :
  Canvas.isDown ev = false →
  Canvas.isDrawing (Canvas.cells c) = false →
  Canvas.isDrawing (Canvas.seen c) = false →
  Canvas.isDrawing (Canvas.cells (Canvas.step ev c)) = false
  ∧ Canvas.isDrawing (Canvas.seen (Canvas.step ev c)) = false
  ∧ filter Canvas.isLine (Canvas.calls (Canvas.step ev c))
    = filter Canvas.isLine (Canvas.calls c).
Proof.
  intros Hev Hc Hs. destruct ev; try done; cbn.
  - unfold Canvas.draw. by rewrite Hs.
  - rewrite filter_app. cbn. by rewrite app_nil_r.
Qed.

Lemma Canvas_run_pen_up evs :
  ∀ c,
    forallb (λ ev, negb (Canvas.isDown ev)) evs = true →
    Canvas.isDrawing (Canvas.cells c) = false →
    Canvas.isDrawing (Canvas.seen c) = false →
    Canvas.isDrawing (Canvas.cells (Canvas.run evs c)) = false
    ∧ Canvas.isDrawing (Canvas.seen (Canvas.run evs c)) = false
    ∧ filter Canvas.isLine (Canvas.calls (Canvas.run evs c))
      = filter Canvas.isLine (Canvas.calls c).
Proof.
  induction evs as [|ev evs IH]; intros c Hevs Hc Hs; [done|].
  cbn in Hevs. apply andb_true_iff in Hevs as [Hev Hevs].
  apply negb_true_iff in Hev.
  destruct (Canvas_step_pen_up ev c Hev Hc Hs) as (Hc' & Hs' & E).
  destruct (IH (Canvas.step ev c) Hevs Hc' Hs') as (? & ? & E').
  change (Canvas.run (ev :: evs) c) with (Canvas.run evs (Canvas.step ev c)).
  repeat split; try done. by rewrite E', E.
Qed.

Lemma last_cons_default {A} (a d : A) l : List.last (a :: l) d = List.last l a.
Proof.
  revert a d. induction l as [|b l IH]; intros a d; [done|].
  change (List.last (a :: b :: l) d) with (List.last (b :: l) d).
  by rewrite !IH.
Qed.

(** The moves of a stroke, each followed by a render, draw the lines
    from the last position on. *)
Lemma Canvas_moves p moves :
  ∀ c,
    Canvas.isActive p = true →
    Canvas.props c = p →
    Canvas.cells c = Canvas.seen c →
    Canvas.isDrawing (Canvas.seen c) = true →
    Canvas.run (moves ≫= λ m, [Canvas.PointerMove m.1 m.2; Canvas.Render p]) c
    = Canvas.mkComponent p
        (Canvas.mkCells true
           (List.last ((λ m, Canvas.getPos m.1 m.2) <$> moves)
              (Canvas.lastPos (Canvas.seen c))))
        (Canvas.mkCells true
           (List.last ((λ m, Canvas.getPos m.1 m.2) <$> moves)
              (Canvas.lastPos (Canvas.seen c))))
        (Canvas.calls c
         ++ Canvas.polyline p (Canvas.lastPos (Canvas.seen c))
              ((λ m, Canvas.getPos m.1 m.2) <$> moves)).
Proof.
  induction moves as [|m moves IH]; intros c Ha Hp Hcs Hd;
    destruct c as [p' cs [d l] cl]; cbn in Hp, Hcs, Hd; subst.
  - cbn. by rewrite app_nil_r.
  - change (Canvas.run ((m :: moves) ≫= λ m, [Canvas.PointerMove m.1 m.2; Canvas.Render p])
              (Canvas.mkComponent p (Canvas.mkCells true l) (Canvas.mkCells true l) cl))
      with (Canvas.run (moves ≫= λ m, [Canvas.PointerMove m.1 m.2; Canvas.Render p])
              (Canvas.render p
                 (Canvas.draw m.1 m.2
                    (Canvas.mkComponent p (Canvas.mkCells true l)
                       (Canvas.mkCells true l) cl)))).
    unfold Canvas.draw. cbn [Canvas.seen Canvas.props Canvas.isDrawing negb orb].
    rewrite Ha. cbn [negb Canvas.render Canvas.cells Canvas.calls Canvas.lastPos
                     Canvas.isDrawing Canvas.seen Canvas.props].
    rewrite IH by done. unfold Canvas.render.
    cbn [Canvas.seen Canvas.cells Canvas.lastPos Canvas.calls fmap list_fmap
         Canvas.polyline].
    rewrite <- app_assoc. cbn [app].
    by rewrite last_cons_default.
Qed.

(** X30.  The pointer handlers of src/components/DrawingCanvas.tsx
    ([getPos], [startDrawing], [draw], [stopDrawing]), every event
    being handled by the closures of the last render.  On an active
    canvas, a press followed by moves, each followed by a render, draws
    the polyline through the pointer positions and nothing else: one
    line from each position to the next, in order, in the colour and
    width of the props; the last position is remembered.  And as long
    as the pen is up, whatever events arrive short of a press (moves,
    releases, renders, the eraser), no line is drawn; so a canvas never
    pressed holds no line. *)
Theorem canvas_stroke_is_a_polyline :
  (∀ p down moves c,
     Canvas.isActive (Canvas.props c) = true →
     Canvas.isActive p = true →
     Canvas.run (Canvas.stroke p down moves) c
     = Canvas.mkComponent p
         (Canvas.mkCells true
            (List.last ((λ m, Canvas.getPos m.1 m.2) <$> moves)
               (Canvas.getPos down.1 down.2)))
         (Canvas.mkCells true
            (List.last ((λ m, Canvas.getPos m.1 m.2) <$> moves)
               (Canvas.getPos down.1 down.2)))
         (Canvas.calls c
          ++ Canvas.polyline p (Canvas.getPos down.1 down.2)
               ((λ m, Canvas.getPos m.1 m.2) <$> moves)))
  ∧ (∀ evs c,
     forallb (λ ev, negb (Canvas.isDown ev)) evs = true →
     Canvas.isDrawing (Canvas.cells c) = false →
     Canvas.isDrawing (Canvas.seen c) = false →
     filter Canvas.isLine (Canvas.calls (Canvas.run evs c))
     = filter Canvas.isLine (Canvas.calls c))
  ∧ (∀ evs p,
     forallb (λ ev, negb (Canvas.isDown ev)) evs = true →
     filter Canvas.isLine (Canvas.calls (Canvas.run evs (Canvas.initial p))) = []).
Proof.
  split; [|split].
  - intros p down moves c Hc Hp. unfold Canvas.stroke.
    rewrite Canvas_run_app.
    change (Canvas.run [Canvas.PointerDown down.1 down.2; Canvas.Render p] c)
      with (Canvas.render p (Canvas.startDrawing down.1 down.2 c)).
    unfold Canvas.startDrawing. rewrite Hc. cbn [negb].
    by rewrite Canvas_moves.
  - intros evs c Hevs Hc Hs. by apply Canvas_run_pen_up.
  - intros evs p Hevs.
    by rewrite (proj2 (proj2 (Canvas_run_pen_up evs (Canvas.initial p) Hevs eq_refl eq_refl))).
Qed.

Lemma canvas_stroke_is_a_polyline_witness :
  Canvas.calls
    (Canvas.run
       (Canvas.stroke (Canvas.mkProps "#0f172a" 7 true)
          (Canvas.Mouse 10 10, Canvas.mkPos 0 0)
          [(Canvas.Mouse 12 11, Canvas.mkPos 0 0);
           (Canvas.Touch 15 15, Canvas.mkPos 0 0)])
       (Canvas.initial (Canvas.mkProps "#0f172a" 7 true)))
  = Canvas.polyline (Canvas.mkProps "#0f172a" 7 true)
      (Canvas.getPos (Canvas.Mouse 10 10) (Canvas.mkPos 0 0))
      [Canvas.getPos (Canvas.Mouse 12 11) (Canvas.mkPos 0 0);
       Canvas.getPos (Canvas.Touch 15 15) (Canvas.mkPos 0 0)].
Proof.
  rewrite (proj1 canvas_stroke_is_a_polyline
             (Canvas.mkProps "#0f172a" 7 true)
             (Canvas.Mouse 10 10, Canvas.mkPos 0 0)
             [(Canvas.Mouse 12 11, Canvas.mkPos 0 0);
              (Canvas.Touch 15 15, Canvas.mkPos 0 0)]
             (Canvas.initial (Canvas.mkProps "#0f172a" 7 true))
             eq_refl eq_refl).
  reflexivity.
Defined.

(** ** Which prompts a turn can offer *)

Lemma App_orElse_own {A} (b pool : list A) x : x ∈ b → App.orElse b pool = b.
Proof.
  intros Hx. unfold App.orElse. rewrite bool_decide_eq_false_2; [done|].
  destruct b; [by apply elem_of_nil in Hx|done].
Qed.

Lemma Lobby_orElse_own {A} (b pool : list A) x : x ∈ b → Lobby.orElse b pool = b.
Proof.
  intros Hx. unfold Lobby.orElse. rewrite bool_decide_eq_true_2; [done|].
  destruct b; [by apply elem_of_nil in Hx|cbn; lia].
Qed.

Lemma bucket_reaches {A} (P : A → Prop) `{∀ x, Decision (P x)} (pool : list A) x :
  (Z.of_nat (length pool) < 2 ^ 32)%Z → x ∈ filter P pool →
  ∃ r, unit_draw r ∧ rnd r (filter P pool) = Some x.
Proof.
  intros Hlen Hx. apply rnd_reaches; [|done].
  pose proof (length_filter P pool). lia.
Qed.

(** X28.  [setupTurn] (App.tsx) and [startTurnSetup] (part_000): no
    prompt of the pool is out of reach.  For every prompt of a pool of
    fewer than 2^32 prompts (the most an array holds) there are binary64
    values in [0,1), values [Math.random()] may return, under which the
    turn offers it, in the slot of its difficulty (in App.tsx whenever
    the buckets are drawn from: word source 'ai' or a pool of more than
    three). *)
Theorem every_prompt_can_be_offered :
  (∀ ws pool p,
     (Z.of_nat (length pool) < 2 ^ 32)%Z →
     ws = App.src_ai ∨ (3 < length pool)%nat →
     p ∈ pool →
     ∃ d, unit_draws d
       ∧ App.choicesOf ws pool d !! App_slot p = Some (Some p))
  ∧ (∀ pool p,
     (Z.of_nat (length pool) < 2 ^ 32)%Z →
     p ∈ pool →
     ∃ d, unit_draws d
       ∧ Lobby.choicesOf pool d !! Lobby_slot p = Some (Some p)).
Proof.
  pose proof unit_draw_zero as Hz. set (z := mkDraw 0 0) in *.
  split.
  - intros ws pool p Hlen Hb Hp. unfold App.choicesOf, App_slot.
    rewrite bool_decide_eq_true_2 by done. cbn zeta.
    destruct (App.difficulty p) eqn:Hd.
    + assert (p ∈ App.easyBucket pool) as Hin
        by (apply list_elem_of_filter; auto).
      destruct (bucket_reaches _ _ _ Hlen Hin) as (r & Hr & E).
      exists (mkDraws r z z). split; [exact (conj Hr (conj Hz Hz))|].
      cbn. rewrite (App_orElse_own _ _ _ Hin). f_equal. exact E.
    + assert (p ∈ App.mediumBucket pool) as Hin
        by (apply list_elem_of_filter; auto).
      destruct (bucket_reaches _ _ _ Hlen Hin) as (r & Hr & E).
      exists (mkDraws z r z). split; [exact (conj Hz (conj Hr Hz))|].
      cbn. rewrite (App_orElse_own _ _ _ Hin). f_equal. exact E.
    + assert (p ∈ App.hardBucket pool) as Hin
        by (apply list_elem_of_filter; auto).
      destruct (bucket_reaches _ _ _ Hlen Hin) as (r & Hr & E).
      exists (mkDraws z z r). split; [exact (conj Hz (conj Hz Hr))|].
      cbn. rewrite (App_orElse_own _ _ _ Hin). f_equal. exact E.
    + assert (p ∈ App.easyBucket pool) as Hin
        by (apply list_elem_of_filter; auto).
      destruct (bucket_reaches _ _ _ Hlen Hin) as (r & Hr & E).
      exists (mkDraws r z z). split; [exact (conj Hr (conj Hz Hz))|].
      cbn. rewrite (App_orElse_own _ _ _ Hin). f_equal. exact E.
  - intros pool p Hlen Hp. unfold Lobby.choicesOf, Lobby_slot. cbn zeta.
    assert (p ∈ Lobby.bucket (Lobby.difficulty p) pool) as Hin
      by (by apply list_elem_of_filter).
    destruct (bucket_reaches _ _ _ Hlen Hin) as (r & Hr & E).
    destruct (Lobby.difficulty p) eqn:Hd.
    + exists (mkDraws r z z). split; [exact (conj Hr (conj Hz Hz))|].
      cbn. rewrite (Lobby_orElse_own _ _ _ Hin). f_equal. exact E.
    + exists (mkDraws z r z). split; [exact (conj Hz (conj Hr Hz))|].
      cbn. rewrite (Lobby_orElse_own _ _ _ Hin). f_equal. exact E.
    + exists (mkDraws z z r). split; [exact (conj Hz (conj Hz Hr))|].
      cbn. rewrite (Lobby_orElse_own _ _ _ Hin). f_equal. exact E.
Qed.

Lemma every_prompt_can_be_offered_witness :
  ∃ d, unit_draws d
    ∧ App.choicesOf App.src_ai (App.generatePrompts 60 None) d !! 2%nat
      = Some (Some (App.mkPrompt "Metamorphosis" "Biology" App.hard)).
Proof.
  refine (proj1 every_prompt_can_be_offered App.src_ai
            (App.generatePrompts 60 None)
            (App.mkPrompt "Metamorphosis" "Biology" App.hard) _ _ _).
  - vm_compute. reflexivity.
  - left. reflexivity.
  - do 8 apply list_elem_of_further. apply list_elem_of_here.
Defined.

Lemma App_fallback_buckets :
  App.easyBucket App.fallbackPrompts
  = [ App.mkPrompt "Cat" "Animals" App.easy;
      App.mkPrompt "Pizza" "Food" App.easy;
      App.mkPrompt "House" "Objects" App.easy ]
  ∧ App.mediumBucket App.fallbackPrompts
    = [ App.mkPrompt "Skateboarding" "Action" App.medium;
        App.mkPrompt "Eiffel Tower" "Landmark" App.medium;
        App.mkPrompt "Library" "Places" App.medium ]
  ∧ App.hardBucket App.fallbackPrompts
    = [ App.mkPrompt "Gravity" "Abstract" App.hard;
        App.mkPrompt "Internet" "Technology" App.hard;
        App.mkPrompt "Metamorphosis" "Biology" App.hard ].
Proof. by vm_compute. Qed.

Lemma Lobby_fallback_buckets :
  Lobby.bucket Lobby.easy Lobby.fallbackPrompts
  = [ Lobby.mkPrompt "Cat" "Animals" Lobby.easy;
      Lobby.mkPrompt "Pizza" "Food" Lobby.easy;
      Lobby.mkPrompt "House" "Objects" Lobby.easy ]
  ∧ Lobby.bucket Lobby.medium Lobby.fallbackPrompts
    = [ Lobby.mkPrompt "Skateboarding" "Action" Lobby.medium;
        Lobby.mkPrompt "Eiffel Tower" "Landmark" Lobby.medium;
        Lobby.mkPrompt "Library" "Places" Lobby.medium ]
  ∧ Lobby.bucket Lobby.hard Lobby.fallbackPrompts
    = [ Lobby.mkPrompt "Gravity" "Abstract" Lobby.hard;
        Lobby.mkPrompt "Internet" "Technology" Lobby.hard;
        Lobby.mkPrompt "Metamorphosis" "Biology" Lobby.hard ].
Proof. by vm_compute. Qed.

Lemma drawnFrom_own {A} (b pool : list A) p : b ≠ [] → drawnFrom b pool p → p ∈ b.
Proof. intros Hb [?|[? _]]; done. Qed.

(** X29.  [generatePrompts] when the request or the parse fails
    (services/gemini, part_002), and the first turns set up on its
    result ([setupTurn], App.tsx; [startTurnSetup], part_000): whatever
    count was asked for, the list of nine fallback prompts is returned;
    a list that did arrive is returned as it is.  On the fallback list
    every turn offers three choices, the first of them one of its three
    easy prompts, the second one of its three medium and the third one
    of its three hard prompts, whatever [Math.random()] gives and, in
    App.tsx, whatever the word source. *)
Theorem failed_request_still_fills_the_offer :
  (∀ count prompts prompts',
     App.generatePrompts count (Some prompts) = prompts
     ∧ length (App.generatePrompts count None) = 9%nat
     ∧ Lobby.generatePrompts count (Some prompts') = prompts'
     ∧ length (Lobby.generatePrompts count None) = 9%nat)
  ∧ (∀ count ws d,
     unit_draws d →
     ∃ e m h,
       App.choicesOf ws (App.generatePrompts count None) d
       = [Some e; Some m; Some h]
       ∧ e ∈ App.generatePrompts count None ∧ App.difficulty e = App.easy
       ∧ m ∈ App.generatePrompts count None ∧ App.difficulty m = App.medium
       ∧ h ∈ App.generatePrompts count None ∧ App.difficulty h = App.hard)
  ∧ (∀ count d,
     unit_draws d →
     ∃ e m h,
       Lobby.choicesOf (Lobby.generatePrompts count None) d
       = [Some e; Some m; Some h]
       ∧ e ∈ Lobby.generatePrompts count None ∧ Lobby.difficulty e = Lobby.easy
       ∧ m ∈ Lobby.generatePrompts count None ∧ Lobby.difficulty m = Lobby.medium
       ∧ h ∈ Lobby.generatePrompts count None ∧ Lobby.difficulty h = Lobby.hard).
Proof.
  split; [done|]. split.
  - intros count ws d Hd. unfold App.generatePrompts. cbn [default].
    destruct (App_choicesOf_sampled ws App.fallbackPrompts d Hd)
      as (e & m & h & E & He & Hm & Hh); [done|right; cbn; lia|].
    destruct App_fallback_buckets as (Be & Bm & Bh).
    apply drawnFrom_own in He; [|by rewrite Be].
    apply drawnFrom_own in Hm; [|by rewrite Bm].
    apply drawnFrom_own in Hh; [|by rewrite Bh].
    exists e, m, h. split; [done|].
    apply list_elem_of_filter in He as [He1 He2].
    apply list_elem_of_filter in Hm as [Hm1 Hm2].
    apply list_elem_of_filter in Hh as [Hh1 Hh2].
    repeat split; try done.
    destruct He1 as [?|Hc]; [done|]. exfalso.
    unfold App.fallbackPrompts in He2.
    repeat (apply elem_of_cons in He2 as [->|He2]; [done|]).
    by apply elem_of_nil in He2.
  - intros count d Hd. unfold Lobby.generatePrompts. cbn [default].
    destruct (Lobby_choicesOf_sampled Lobby.fallbackPrompts d Hd)
      as (e & m & h & E & He & Hm & Hh); [done|].
    destruct Lobby_fallback_buckets as (Be & Bm & Bh).
    apply drawnFrom_own in He; [|by rewrite Be].
    apply drawnFrom_own in Hm; [|by rewrite Bm].
    apply drawnFrom_own in Hh; [|by rewrite Bh].
    exists e, m, h. split; [done|].
    apply list_elem_of_filter in He as [He1 He2].
    apply list_elem_of_filter in Hm as [Hm1 Hm2].
    apply list_elem_of_filter in Hh as [Hh1 Hh2].
    by repeat split.
Qed.

Lemma failed_request_still_fills_the_offer_witness :
  ∃ e m h,
    App.choicesOf App.src_ai (App.generatePrompts 60 None) exDraws
    = [Some e; Some m; Some h]
    ∧ App.difficulty e = App.easy.
Proof.
  destruct (proj1 (proj2 failed_request_still_fills_the_offer) 60%Z App.src_ai exDraws)
    as (e & m & h & E & _ & He & _).
  - refine (bool_decide_unpack _ _). vm_compute. exact I.
  - exists e, m, h. split; [exact E|exact He].
Defined.
